(** * store_parser: a shallow embedding of the crawl / extract / download
      pipeline and of its checklist ledger

    The development follows the Python sources:
    - [src/checklist.py], [src/checklist_manager.py]: module [Ledger];
    - [src/models.py]: the records [ProductImage], [Product], [CrawlResult];
    - [src/parser.py]: module [Parser];
    - [src/downloader.py]: module [Downloader];
    - [src/crawler.py]: module [Crawler];
    - [src/main.py]: module [Main];
    - [scripts/deduplicate_images.py]: module [Dedup].

    Conventions.  A Python [str] is a Rocq [string] holding the UTF-8 bytes
    of the text: equality, concatenation, substring search, splitting at
    ASCII separators and the code-point order used by [sorted] are the same
    on both sides.  Python [int] is [Z].  A call that may raise returns a
    [result]; wall-clock readings, random identifiers and the network are
    oracles indexed by the number of the call. *)

From Stdlib Require Import ZArith Ascii String List Bool Lia.
From stdpp Require Import base option list gmap strings sorting pretty.

Local Open Scope Z_scope.

(** ** Exceptions and results *)

Inductive exn : Type :=
| RuntimeError (msg : string)
| ValueError (msg : string)
| IndexError (msg : string)
| OSError (msg : string)
| JSONDecodeError (msg : string)
| ValidationError (msg : string)
| PlaywrightError (msg : string)
| KeyboardInterrupt (msg : string)
| CancelledError (msg : string).

(** The classes that derive from [Exception], which [except Exception]
    catches; [KeyboardInterrupt] and [asyncio.CancelledError] derive from
    [BaseException] only. *)
Definition is_exception (e : exn) : bool :=
  match e with
  | KeyboardInterrupt _ | CancelledError _ => false
  | _ => true
  end.

Inductive result (A : Type) : Type :=
| Ok (a : A)
| Raise (e : exn).
Arguments Ok {A} a.
Arguments Raise {A} e.

Definition rbind {A B} (m : result A) (k : A → result B) : result B :=
  match m with
  | Ok a => k a
  | Raise e => Raise e
  end.

Notation "'try!' x := m 'in' k" := (rbind m (fun x => k))
  (at level 10, x name, m at level 100, k at level 200).

Definition is_ok {A} (m : result A) : bool :=
  match m with Ok _ => true | Raise _ => false end.

Definition rmap {A B} (f : A → B) (m : result A) : result B :=
  match m with
  | Ok a => Ok (f a)
  | Raise e => Raise e
  end.

(** Python truthiness of [str | None]: [None] and the empty string are false. *)
Definition truthy (o : option string) : bool :=
  match o with
  | Some s => negb (String.eqb s "")
  | None => false
  end.

(** [f"{n:0{w}d}"] for a non-negative [n]. *)
Fixpoint zero_pad (missing : nat) (s : string) : string :=
  match missing with
  | O => s
  | S k => String "0" (zero_pad k s)
  end.

Definition format_0d (w : nat) (n : Z) : string :=
  let digits := pretty n in
  zero_pad (w - String.length digits) digits.

Definition upper_ascii (c : ascii) : ascii :=
  let n := nat_of_ascii c in
  if (97 <=? n)%nat && (n <=? 122)%nat then ascii_of_nat (n - 32) else c.

Definition lower_ascii (c : ascii) : ascii :=
  let n := nat_of_ascii c in
  if (65 <=? n)%nat && (n <=? 90)%nat then ascii_of_nat (n + 32) else c.

Fixpoint str_map (f : ascii → ascii) (s : string) : string :=
  match s with
  | EmptyString => EmptyString
  | String c s' => String (f c) (str_map f s')
  end.

(** [str.upper] and [str.lower]; letters outside ASCII are left alone. *)
Definition str_upper : string → string := str_map upper_ascii.
Definition str_lower : string → string := str_map lower_ascii.

(** ** [src/models.py] *)

(** A [datetime] is the number of microseconds since the epoch. *)
Definition datetime := Z.

(** [(a - b).seconds]: the seconds field of the normalised [timedelta],
    between 0 and 86399 (whole days are carried by the [days] field). *)
Definition timedelta_seconds (a b : datetime) : Z :=
  ((a - b) / 1000000) mod 86400.

Record ProductImage := mkProductImage {
  filename : string;
  original_url : string;
  local_path : string;
  downloaded_at : datetime }.

Record Product := mkProduct {
  p_id : string;
  p_name : string;
  p_url : string;
  p_price : option string;
  p_category : option string;
  p_images : list ProductImage;
  p_crawled_at : datetime }.

Record CrawlResult := mkCrawlResult {
  cr_products : list Product;
  cr_crawled_at : datetime;
  cr_total_products : Z;
  cr_total_images : Z }.

(** [CrawlResult.add_product] *)
Definition add_product (r : CrawlResult) (p : Product) : CrawlResult :=
  let ps := cr_products r ++ [p] in
  {| cr_products := ps;
     cr_crawled_at := cr_crawled_at r;
     cr_total_products := Z.of_nat (length ps);
     cr_total_images :=
       fold_right Z.add 0 (map (fun q => Z.of_nat (length (p_images q))) ps) |}.

(** ** [src/checklist.py] and [src/checklist_manager.py] *)

Module Ledger.

Inductive JobStatus := PENDING | IN_PROGRESS | COMPLETED | FAILED | PAUSED.
Inductive JobType := FULL_CRAWL | INCREMENTAL | RETRY_FAILED | SINGLE_PRODUCT.
Inductive ErrorType := CRAWL_FAILED | PARSE_FAILED | DOWNLOAD_FAILED | TIMEOUT.

Record SessionProgress := mkSessionProgress {
  products_discovered : Z;
  products_crawled : Z;
  products_skipped : Z;
  images_downloaded : Z;
  images_failed : Z;
  current_page : Z;
  last_product_url : option string }.

Record CurrentSession := mkCurrentSession {
  cs_id : string;
  cs_started_at : datetime;
  cs_status : JobStatus;
  cs_agent : option string;
  cs_progress : SessionProgress }.

(** [delay_seconds] is a float in the source; it is only stored, and is kept
    here in milliseconds. *)
Record JobConfig := mkJobConfig {
  headless : bool;
  delay_millis : Z;
  max_concurrent_downloads : Z;
  skip_existing : bool;
  output_dir : string;
  metadata_file : string }.

Record JobExecution := mkJobExecution {
  ex_agent : option string;
  ex_started_at : option datetime;
  ex_completed_at : option datetime;
  ex_duration_seconds : option Z }.

Record JobResult := mkJobResult {
  success : bool;
  jr_total_products : Z;
  jr_total_images : Z;
  new_products : Z;
  new_images : Z;
  skipped_products : Z;
  failed_downloads : Z;
  error_message : option string }.

Record CrawlJob := mkCrawlJob {
  job_id : string;
  job_type : JobType;
  job_status : JobStatus;
  priority : string;
  execution : JobExecution;
  config : JobConfig;
  job_result : option JobResult;
  files_modified : list string }.

Record ProductCrawlInfo := mkProductCrawlInfo {
  first_seen : datetime;
  last_crawled : datetime;
  crawl_count : Z;
  ci_job_id : string }.

Record ProductImageStatus := mkProductImageStatus {
  img_total : Z;
  img_downloaded : Z;
  img_failed : Z;
  img_status : JobStatus }.

Record ProductPrice := mkProductPrice {
  price_current : option string;
  price_last_seen : option datetime }.

Record ProductEntry := mkProductEntry {
  pe_id : string;
  pe_name : string;
  pe_url : string;
  pe_status : JobStatus;
  crawl_info : option ProductCrawlInfo;
  images : ProductImageStatus;
  price : ProductPrice;
  category : option string;
  pe_errors : list string }.

Record ErrorEntry := mkErrorEntry {
  err_id : string;
  err_timestamp : datetime;
  err_job_id : string;
  err_product_id : option string;
  err_type : ErrorType;
  err_url : option string;
  err_message : string;
  retry_count : Z;
  resolved : bool }.

Record JobStats := mkJobStats {
  js_total : Z;
  js_completed : Z;
  js_failed : Z;
  js_pending : Z }.

Record DownloadStats := mkDownloadStats {
  ds_successful : Z;
  ds_failed : Z;
  ds_skipped : Z }.

Record Stats := mkStats {
  total_products : Z;
  total_images : Z;
  st_jobs : JobStats;
  downloads : DownloadStats;
  by_category : gmap string Z;
  last_full_crawl : option datetime;
  last_incremental : option datetime;
  average_crawl_time_seconds : option Z }.

Record MetadataSync := mkMetadataSync {
  ms_file : string;
  last_sync : option datetime;
  products_in_metadata : Z;
  images_in_metadata : Z;
  sync_status : string }.

Record StoreParserChecklist := mkChecklist {
  version : string;
  project : string;
  target_site : string;
  platform : string;
  created_at : datetime;
  updated_at : datetime;
  current_session : option CurrentSession;
  jobs : list CrawlJob;
  products : list ProductEntry;
  errors : list ErrorEntry;
  stats : Stats;
  metadata_sync : MetadataSync }.

(** Field defaults of the pydantic models. *)
Definition default_SessionProgress : SessionProgress :=
  mkSessionProgress 0 0 0 0 0 1 None.
Definition default_JobConfig : JobConfig :=
  mkJobConfig true 1500 5 true "data/images" "data/metadata.json".
Definition default_JobExecution : JobExecution :=
  mkJobExecution None None None None.
Definition default_JobStats : JobStats := mkJobStats 0 0 0 0.
Definition default_DownloadStats : DownloadStats := mkDownloadStats 0 0 0.
Definition default_Stats : Stats :=
  mkStats 0 0 default_JobStats default_DownloadStats ∅ None None None.
Definition default_MetadataSync : MetadataSync :=
  mkMetadataSync "data/metadata.json" None 0 0 "in_sync".

(** [StoreParserChecklist()]: the two timestamps come from the clock. *)
Definition default_checklist (created updated : datetime) : StoreParserChecklist :=
  mkChecklist "1.0" "ggp_store_parser" "https://ggstore.com" "Shopify"
    created updated None [] [] [] default_Stats default_MetadataSync.

(** *** The manager: in-memory checklist, ledger file, oracles *)

(** [ledger_file] is the content of the file at [checklist_path], [None]
    while the file does not exist.  [clock] and [entropy] count the calls
    of [datetime.now()] and [uuid.uuid4()] made so far. *)
Record Manager := mkManager {
  checklist : StoreParserChecklist;
  ledger_file : option string;
  clock : nat;
  entropy : nat }.

Definition M (A : Type) : Type := Manager → A * Manager.
Definition ret {A} (a : A) : M A := fun m => (a, m).
Definition bind {A B} (c : M A) (k : A → M B) : M B :=
  fun m => let (a, m') := c m in k a m'.

Notation "x <-- c ;; k" := (bind c (fun x => k))
  (at level 60, c at next level, right associativity).
Notation "c ;;; k" := (bind c (fun _ => k))
  (at level 60, right associativity).

Definition get_checklist : M StoreParserChecklist :=
  fun m => (checklist m, m).
Definition put_checklist (c : StoreParserChecklist) : M unit :=
  fun m => (tt, mkManager c (ledger_file m) (clock m) (entropy m)).
Definition write_text (doc : string) : M unit :=
  fun m => (tt, mkManager (checklist m) (Some doc) (clock m) (entropy m)).

Section Manager.

(** The reading of the [i]-th call of [datetime.now()], the hex digest of
    the [i]-th [uuid.uuid4()], and the document that
    [yaml.dump(self.model_dump(mode="json"), ...)] produces. *)
Variable now_at : nat → datetime.
Variable uuid4_hex : nat → string.
Variable yaml_dump : StoreParserChecklist → string.

Definition datetime_now : M datetime :=
  fun m => (now_at (clock m),
            mkManager (checklist m) (ledger_file m) (S (clock m)) (entropy m)).

Definition uuid4 : M string :=
  fun m => (uuid4_hex (entropy m),
            mkManager (checklist m) (ledger_file m) (clock m) (S (entropy m))).

Definition set_updated_at (t : datetime) (c : StoreParserChecklist) :=
  mkChecklist (version c) (project c) (target_site c) (platform c)
    (created_at c) t (current_session c) (jobs c) (products c) (errors c)
    (stats c) (metadata_sync c).
Definition set_current_session (s : option CurrentSession) (c : StoreParserChecklist) :=
  mkChecklist (version c) (project c) (target_site c) (platform c)
    (created_at c) (updated_at c) s (jobs c) (products c) (errors c)
    (stats c) (metadata_sync c).
Definition set_jobs (js : list CrawlJob) (c : StoreParserChecklist) :=
  mkChecklist (version c) (project c) (target_site c) (platform c)
    (created_at c) (updated_at c) (current_session c) js (products c) (errors c)
    (stats c) (metadata_sync c).
Definition set_products (ps : list ProductEntry) (c : StoreParserChecklist) :=
  mkChecklist (version c) (project c) (target_site c) (platform c)
    (created_at c) (updated_at c) (current_session c) (jobs c) ps (errors c)
    (stats c) (metadata_sync c).
Definition set_errors (es : list ErrorEntry) (c : StoreParserChecklist) :=
  mkChecklist (version c) (project c) (target_site c) (platform c)
    (created_at c) (updated_at c) (current_session c) (jobs c) (products c) es
    (stats c) (metadata_sync c).
Definition set_stats (st : Stats) (c : StoreParserChecklist) :=
  mkChecklist (version c) (project c) (target_site c) (platform c)
    (created_at c) (updated_at c) (current_session c) (jobs c) (products c)
    (errors c) st (metadata_sync c).
Definition set_metadata_sync (ms : MetadataSync) (c : StoreParserChecklist) :=
  mkChecklist (version c) (project c) (target_site c) (platform c)
    (created_at c) (updated_at c) (current_session c) (jobs c) (products c)
    (errors c) (stats c) ms.

Definition modify (f : StoreParserChecklist → StoreParserChecklist) : M unit :=
  c <-- get_checklist ;; put_checklist (f c).

(** [StoreParserChecklist.save] through [ChecklistManager.save]: stamp
    [updated_at], dump the whole model, overwrite the file. *)
Definition save : M unit :=
  t <-- datetime_now ;;
  modify (set_updated_at t) ;;;
  c <-- get_checklist ;;
  write_text (yaml_dump c).

(** [ChecklistManager(path)] when no file exists at [path]:
    [StoreParserChecklist.load] returns [cls()]. *)
Definition fresh_manager : Manager :=
  mkManager (default_checklist (now_at 0) (now_at 1)) None 2 0.

(** *** Session management *)

Definition start_session (agent : string) : M CurrentSession :=
  u <-- uuid4 ;;
  t <-- datetime_now ;;
  let session :=
    mkCurrentSession ("SESSION-" +:+ str_upper (String.substring 0 8 u)) t
      IN_PROGRESS (Some agent) default_SessionProgress in
  modify (set_current_session (Some session)) ;;;
  save ;;;
  ret session.

Definition or_keep {A} (new : option A) (old : A) : A :=
  match new with Some a => a | None => old end.

Definition update_session_progress
    (products_discovered' products_crawled' products_skipped'
     images_downloaded' images_failed' current_page' : option Z)
    (last_product_url' : option string) : M unit :=
  c <-- get_checklist ;;
  match current_session c with
  | None => ret tt
  | Some s =>
      let p := cs_progress s in
      let p' :=
        mkSessionProgress
          (or_keep products_discovered' (products_discovered p))
          (or_keep products_crawled' (products_crawled p))
          (or_keep products_skipped' (products_skipped p))
          (or_keep images_downloaded' (images_downloaded p))
          (or_keep images_failed' (images_failed p))
          (or_keep current_page' (current_page p))
          (match last_product_url' with
           | Some u => Some u
           | None => last_product_url p
           end) in
      modify (set_current_session
                (Some (mkCurrentSession (cs_id s) (cs_started_at s) (cs_status s)
                         (cs_agent s) p'))) ;;;
      save
  end.

Definition end_session (status : JobStatus) : M unit :=
  c <-- get_checklist ;;
  match current_session c with
  | Some s =>
      modify (set_current_session
                (Some (mkCurrentSession (cs_id s) (cs_started_at s) status
                         (cs_agent s) (cs_progress s))))
  | None => ret tt
  end ;;;
  save.

(** *** Job management *)

(** In-place mutation of the first element that a [for ... if ...: return]
    scan finds. *)
Fixpoint update_first {A} (p : A → bool) (f : A → A) (l : list A) : list A :=
  match l with
  | [] => []
  | x :: l' => if p x then f x :: l' else x :: update_first p f l'
  end.

Definition set_js_jobs (j : JobStats) (st : Stats) : Stats :=
  mkStats (total_products st) (total_images st) j (downloads st)
    (by_category st) (last_full_crawl st) (last_incremental st)
    (average_crawl_time_seconds st).

Definition create_job (jt : JobType) (cfg : option JobConfig) (prio : string)
  : M CrawlJob :=
  c <-- get_checklist ;;
  let job :=
    mkCrawlJob ("JOB-" +:+ format_0d 3 (Z.of_nat (length (jobs c)) + 1)) jt
      PENDING prio default_JobExecution
      (match cfg with Some g => g | None => default_JobConfig end) None [] in
  let js := st_jobs (stats c) in
  modify (set_jobs (jobs c ++ [job])) ;;;
  modify (fun c => set_stats
            (set_js_jobs (mkJobStats (js_total js + 1) (js_completed js)
                            (js_failed js) (js_pending js + 1)) (stats c)) c) ;;;
  save ;;;
  ret job.

Definition has_job_id (id : string) (j : CrawlJob) : bool := String.eqb (job_id j) id.

Definition _find_job (id : string) (c : StoreParserChecklist) : option CrawlJob :=
  find (has_job_id id) (jobs c).

Definition start_job (id agent : string) : M (option CrawlJob) :=
  c <-- get_checklist ;;
  match _find_job id c with
  | None => ret None
  | Some job =>
      t <-- datetime_now ;;
      let job' :=
        mkCrawlJob (job_id job) (job_type job) IN_PROGRESS (priority job)
          (mkJobExecution (Some agent) (Some t)
             (ex_completed_at (execution job))
             (ex_duration_seconds (execution job)))
          (config job) (job_result job) (files_modified job) in
      modify (fun c => set_jobs (update_first (has_job_id id) (fun _ => job') (jobs c)) c) ;;;
      modify (fun c =>
        let js := st_jobs (stats c) in
        if 0 <? js_pending js
        then set_stats (set_js_jobs (mkJobStats (js_total js) (js_completed js)
                                       (js_failed js) (js_pending js - 1))
                          (stats c)) c
        else c) ;;;
      save ;;;
      ret (Some job')
  end.

Definition complete_job (id : string) (res : JobResult) : M (option CrawlJob) :=
  c <-- get_checklist ;;
  match _find_job id c with
  | None => ret None
  | Some job =>
      t <-- datetime_now ;;
      let ex := execution job in
      let job' :=
        mkCrawlJob (job_id job) (job_type job)
          (if success res then COMPLETED else FAILED) (priority job)
          (mkJobExecution (ex_agent ex) (ex_started_at ex) (Some t)
             (match ex_started_at ex with
              | Some t0 => Some (timedelta_seconds t t0)
              | None => ex_duration_seconds ex
              end))
          (config job) (Some res) (files_modified job) in
      modify (fun c => set_jobs (update_first (has_job_id id) (fun _ => job') (jobs c)) c) ;;;
      (if success res then
         modify (fun c =>
           let js := st_jobs (stats c) in
           set_stats (set_js_jobs (mkJobStats (js_total js) (js_completed js + 1)
                                     (js_failed js) (js_pending js))
                        (stats c)) c) ;;;
         match job_type job with
         | FULL_CRAWL =>
             t' <-- datetime_now ;;
             modify (fun c =>
               let st := stats c in
               set_stats (mkStats (total_products st) (total_images st) (st_jobs st)
                            (downloads st) (by_category st) (Some t')
                            (last_incremental st) (average_crawl_time_seconds st)) c)
         | INCREMENTAL =>
             t' <-- datetime_now ;;
             modify (fun c =>
               let st := stats c in
               set_stats (mkStats (total_products st) (total_images st) (st_jobs st)
                            (downloads st) (by_category st) (last_full_crawl st)
                            (Some t') (average_crawl_time_seconds st)) c)
         | _ => ret tt
         end
       else
         modify (fun c =>
           let js := st_jobs (stats c) in
           set_stats (set_js_jobs (mkJobStats (js_total js) (js_completed js)
                                     (js_failed js + 1) (js_pending js))
                        (stats c)) c)) ;;;
      save ;;;
      ret (Some job')
  end.

Definition get_pending_jobs (c : StoreParserChecklist) : list CrawlJob :=
  List.filter (fun j => match job_status j with PENDING => true | _ => false end)
    (jobs c).

(** *** Product tracking *)

Definition has_product_id (id : string) (p : ProductEntry) : bool :=
  String.eqb (pe_id p) id.

Definition _find_product (id : string) (c : StoreParserChecklist)
  : option ProductEntry :=
  find (has_product_id id) (products c).

(** The [if existing:] branch: the entry found is mutated in place. *)
Definition update_entry (status : JobStatus) (job : string)
    (image_count downloaded_count failed_count : Z)
    (price' category' : option string) (now : datetime)
    (e : ProductEntry) : ProductEntry :=
  mkProductEntry (pe_id e) (pe_name e) (pe_url e) status
    (match crawl_info e with
     | Some ci =>
         Some (mkProductCrawlInfo (first_seen ci) now (crawl_count ci + 1) job)
     | None => None
     end)
    (mkProductImageStatus image_count downloaded_count failed_count status)
    (if truthy price' then mkProductPrice price' (Some now) else price e)
    (if truthy category' then category' else category e)
    (pe_errors e).

(** The [else] branch: a new entry. *)
Definition new_entry (id name url : string) (status : JobStatus) (job : string)
    (image_count downloaded_count failed_count : Z)
    (price' category' : option string) (now : datetime) : ProductEntry :=
  mkProductEntry id name url status
    (Some (mkProductCrawlInfo now now 1 job))
    (mkProductImageStatus image_count downloaded_count failed_count status)
    (mkProductPrice price' (if truthy price' then Some now else None))
    category' [].

Definition set_total_products (n : Z) (st : Stats) : Stats :=
  mkStats n (total_images st) (st_jobs st) (downloads st) (by_category st)
    (last_full_crawl st) (last_incremental st) (average_crawl_time_seconds st).

Definition set_by_category (h : gmap string Z) (st : Stats) : Stats :=
  mkStats (total_products st) (total_images st) (st_jobs st) (downloads st) h
    (last_full_crawl st) (last_incremental st) (average_crawl_time_seconds st).

(** [if category not in d: d[category] = 0] followed by [d[category] += 1]. *)
Definition bump_category (cat : string) (h : gmap string Z) : gmap string Z :=
  let h0 := match h !! cat with Some _ => h | None => <[cat := 0]> h end in
  <[cat := default 0 (h0 !! cat) + 1]> h0.

Definition add_or_update_product (id name url job : string) (status : JobStatus)
    (image_count downloaded_count failed_count : Z)
    (price' category' : option string) : M ProductEntry :=
  c <-- get_checklist ;;
  let existing := _find_product id c in
  now <-- datetime_now ;;
  match existing with
  | Some e =>
      let e' := update_entry status job image_count downloaded_count
                  failed_count price' category' now e in
      modify (fun c => set_products
                (update_first (has_product_id id) (fun _ => e') (products c)) c) ;;;
      save ;;;
      ret e'
  | None =>
      let e := new_entry id name url status job image_count downloaded_count
                 failed_count price' category' now in
      modify (fun c => set_products (products c ++ [e]) c) ;;;
      modify (fun c => set_stats
                (set_total_products (Z.of_nat (length (products c))) (stats c)) c) ;;;
      match category' with
      | Some cat =>
          if truthy category'
          then modify (fun c => set_stats
                         (set_by_category (bump_category cat (by_category (stats c)))
                            (stats c)) c)
          else ret tt
      | None => ret tt
      end ;;;
      save ;;;
      ret e
  end.

Definition get_failed_products (c : StoreParserChecklist) : list ProductEntry :=
  List.filter (fun p => match pe_status p with FAILED => true | _ => false end)
    (products c).

(** *** Error tracking *)

Definition log_error (job : string) (kind : ErrorType) (message : string)
    (product_id url : option string) : M ErrorEntry :=
  c <-- get_checklist ;;
  t <-- datetime_now ;;
  let error :=
    mkErrorEntry ("ERR-" +:+ format_0d 3 (Z.of_nat (length (errors c)) + 1)) t
      job product_id kind url message 0 false in
  modify (fun c => set_errors (errors c ++ [error]) c) ;;;
  save ;;;
  ret error.

Definition get_unresolved_errors (c : StoreParserChecklist) : list ErrorEntry :=
  List.filter (fun e => negb (resolved e)) (errors c).

Definition has_error_id (id : string) (e : ErrorEntry) : bool :=
  String.eqb (err_id e) id.

Definition mark_resolved (e : ErrorEntry) : ErrorEntry :=
  mkErrorEntry (err_id e) (err_timestamp e) (err_job_id e) (err_product_id e)
    (err_type e) (err_url e) (err_message e) (retry_count e) true.

Definition resolve_error (id : string) : M bool :=
  c <-- get_checklist ;;
  match find (has_error_id id) (errors c) with
  | Some _ =>
      modify (fun c => set_errors
                (update_first (has_error_id id) mark_resolved (errors c)) c) ;;;
      save ;;;
      ret true
  | None => ret false
  end.

(** *** Metadata sync *)

Definition sync_from_metadata (r : CrawlResult) : M unit :=
  modify (fun c =>
    let st := stats c in
    set_stats (mkStats (cr_total_products r) (cr_total_images r) (st_jobs st)
                 (mkDownloadStats (cr_total_images r) (ds_failed (downloads st))
                    (ds_skipped (downloads st)))
                 (by_category st) (last_full_crawl st) (last_incremental st)
                 (average_crawl_time_seconds st)) c) ;;;
  t <-- datetime_now ;;
  modify (fun c =>
    set_metadata_sync
      (mkMetadataSync (ms_file (metadata_sync c)) (Some t) (cr_total_products r)
         (cr_total_images r) "in_sync") c) ;;;
  save.

(** *** The mutating operations as data *)

Inductive operation : Type :=
| StartSession (agent : string)
| UpdateSessionProgress
    (products_discovered' products_crawled' products_skipped'
     images_downloaded' images_failed' current_page' : option Z)
    (last_product_url' : option string)
| EndSession (status : JobStatus)
| CreateJob (jt : JobType) (cfg : option JobConfig) (prio : string)
| StartJob (id agent : string)
| CompleteJob (id : string) (res : JobResult)
| AddOrUpdateProduct (id name url job : string) (status : JobStatus)
    (image_count downloaded_count failed_count : Z)
    (price' category' : option string)
| LogError (job : string) (kind : ErrorType) (message : string)
    (product_id url : option string)
| ResolveError (id : string)
| SyncFromMetadata (r : CrawlResult).

(** The manager after the call. *)
Definition exec (op : operation) (m : Manager) : Manager :=
  match op with
  | StartSession agent => snd (start_session agent m)
  | UpdateSessionProgress a b c d e f g => snd (update_session_progress a b c d e f g m)
  | EndSession status => snd (end_session status m)
  | CreateJob jt cfg prio => snd (create_job jt cfg prio m)
  | StartJob id agent => snd (start_job id agent m)
  | CompleteJob id res => snd (complete_job id res m)
  | AddOrUpdateProduct id name url job status t d f pr cat =>
      snd (add_or_update_product id name url job status t d f pr cat m)
  | LogError job kind message pid url => snd (log_error job kind message pid url m)
  | ResolveError id => snd (resolve_error id m)
  | SyncFromMetadata r => snd (sync_from_metadata r m)
  end.

Definition run (ops : list operation) (m : Manager) : Manager :=
  fold_left (fun m op => exec op m) ops m.

(** The calls that go past their guard: a session is active, the job or
    the error is found. *)
Definition takes_effect (op : operation) (m : Manager) : bool :=
  match op with
  | UpdateSessionProgress _ _ _ _ _ _ _ =>
      bool_decide (is_Some (current_session (checklist m)))
  | StartJob id _ | CompleteJob id _ =>
      bool_decide (is_Some (_find_job id (checklist m)))
  | ResolveError id =>
      bool_decide (is_Some (find (has_error_id id) (errors (checklist m))))
  | _ => true
  end.

(** The ledger file holds the dump of the checklist in memory. *)
Definition durable (m : Manager) : Prop :=
  ledger_file m = Some (yaml_dump (checklist m)).

(** *** Statistics recomputed from the product list *)

Definition carries (cat : string) (e : ProductEntry) : bool :=
  match category e with
  | Some c => String.eqb c cat
  | None => false
  end.

Definition count_category (cat : string) (c : StoreParserChecklist) : Z :=
  Z.of_nat (length (List.filter (carries cat) (products c))).

Definition histogram (cat : string) (c : StoreParserChecklist) : Z :=
  default 0 (by_category (stats c) !! cat).

Definition stats_integrity (c : StoreParserChecklist) : Prop :=
  total_products (stats c) = Z.of_nat (length (products c))
  ∧ ∀ cat, histogram cat c = count_category cat c.

Definition is_upsert (op : operation) : bool :=
  match op with
  | AddOrUpdateProduct _ _ _ _ _ _ _ _ _ _ => true
  | _ => false
  end.

(** An upsert that leaves the category of the entry it updates as it is. *)
Definition keeps_category (op : operation) (m : Manager) : bool :=
  match op with
  | AddOrUpdateProduct id _ _ _ _ _ _ _ _ category' =>
      match _find_product id (checklist m) with
      | Some e => negb (truthy category')
                  || bool_decide (category e = category')
      | None => true
      end
  | _ => true
  end.

Fixpoint category_stable (ops : list operation) (m : Manager) : bool :=
  match ops with
  | [] => true
  | op :: ops' => keeps_category op m && category_stable ops' (exec op m)
  end.

End Manager.
End Ledger.

(** ** Python [str] methods *)

Module Str.

Definition chr (n : nat) : ascii := ascii_of_nat n.

(** [str.isspace] on one character of the ASCII range. *)
Definition is_space (c : ascii) : bool :=
  let n := nat_of_ascii c in
  ((9 <=? n)%nat && (n <=? 13)%nat) || ((28 <=? n)%nat && (n <=? 32)%nat).

Definition is_digit (c : ascii) : bool :=
  let n := nat_of_ascii c in (48 <=? n)%nat && (n <=? 57)%nat.

Definition is_ascii_alpha (c : ascii) : bool :=
  let n := nat_of_ascii c in
  ((65 <=? n)%nat && (n <=? 90)%nat) || ((97 <=? n)%nat && (n <=? 122)%nat).

Definition is_ascii (c : ascii) : bool := (nat_of_ascii c <? 128)%nat.

(** [c in chars] for a character [c]. *)
Fixpoint mem (c : ascii) (chars : string) : bool :=
  match chars with
  | EmptyString => false
  | String d chars' => Ascii.eqb c d || mem c chars'
  end.

Fixpoint forallb (p : ascii → bool) (s : string) : bool :=
  match s with
  | EmptyString => true
  | String c s' => p c && forallb p s'
  end.

Definition startswith (s pre : string) : bool := String.prefix pre s.

(** [sub in s] *)
Fixpoint contains (sub s : string) : bool :=
  String.prefix sub s ||
  match s with
  | EmptyString => false
  | String _ s' => contains sub s'
  end.

Fixpoint drop (n : nat) (s : string) : string :=
  match n, s with
  | O, _ => s
  | S k, String _ s' => drop k s'
  | S _, EmptyString => EmptyString
  end.

Fixpoint take (n : nat) (s : string) : string :=
  match n, s with
  | S k, String c s' => String c (take k s')
  | _, _ => EmptyString
  end.

Definition endswith (s suf : string) : bool :=
  String.eqb (drop (String.length s - String.length suf) s) suf.

(** The longest prefix free of characters satisfying [p], and what
    follows it (empty, or starting with such a character). *)
Fixpoint break (p : ascii → bool) (s : string) : string * string :=
  match s with
  | EmptyString => (EmptyString, EmptyString)
  | String c s' =>
      if p c then (EmptyString, s)
      else let (a, b) := break p s' in (String c a, b)
  end.

(** No character of [s] satisfies [p]; [s] is empty or starts with a
    character satisfying [p]. *)
Definition free (p : ascii → bool) (s : string) : bool :=
  forallb (fun c => negb (p c)) s.

Definition stops (p : ascii → bool) (s : string) : bool :=
  match s with
  | EmptyString => true
  | String c _ => p c
  end.

(** [s.lstrip(chars)], [s.rstrip(chars)], [s.strip(chars)] with the set of
    characters given as a predicate. *)
Fixpoint lstrip (p : ascii → bool) (s : string) : string :=
  match s with
  | EmptyString => EmptyString
  | String c s' => if p c then lstrip p s' else s
  end.

Fixpoint rstrip (p : ascii → bool) (s : string) : string :=
  match s with
  | EmptyString => EmptyString
  | String c s' =>
      match rstrip p s' with
      | EmptyString => if p c then EmptyString else String c EmptyString
      | r => String c r
      end
  end.

Definition strip (p : ascii → bool) (s : string) : string :=
  rstrip p (lstrip p s).

(** [s.replace(c, "")] for a single character. *)
Fixpoint remove (p : ascii → bool) (s : string) : string :=
  match s with
  | EmptyString => EmptyString
  | String c s' => if p c then remove p s' else String c (remove p s')
  end.

(** [s.split(sep)] for a non-empty separator: [skip] counts the
    characters of a separator occurrence still to be passed over. *)
Fixpoint split_go (sep : string) (skip : nat) (s : string) : list string :=
  match s with
  | EmptyString => [EmptyString]
  | String c s' =>
      match skip with
      | S k => split_go sep k s'
      | O =>
          if String.prefix sep s
          then EmptyString :: split_go sep (String.length sep - 1) s'
          else match split_go sep O s' with
               | x :: xs => String c x :: xs
               | [] => [String c EmptyString]
               end
      end
  end.

Definition split (sep s : string) : list string := split_go sep O s.

(** [s.replace(old, new)] for a non-empty [old]. *)
Fixpoint replace_go (old new : string) (skip : nat) (s : string) : string :=
  match s with
  | EmptyString => EmptyString
  | String c s' =>
      match skip with
      | S k => replace_go old new k s'
      | O =>
          if String.prefix old s
          then new +:+ replace_go old new (String.length old - 1) s'
          else String c (replace_go old new O s')
      end
  end.

Definition replace (old new s : string) : string := replace_go old new O s.

(** [s.split()]: the maximal runs of non-whitespace characters. *)
Fixpoint words_go (cur : option string) (s : string) : list string :=
  match s with
  | EmptyString => match cur with Some w => [String.rev w] | None => [] end
  | String c s' =>
      if is_space c
      then match cur with
           | Some w => String.rev w :: words_go None s'
           | None => words_go None s'
           end
      else words_go (Some (String c (default EmptyString cur))) s'
  end.

Definition words (s : string) : list string := words_go None s.

(** ["sep".join(l)] *)
Fixpoint join (sep : string) (l : list string) : string :=
  match l with
  | [] => EmptyString
  | [x] => x
  | x :: l' => x +:+ sep +:+ join sep l'
  end.

(** [l.index(x)] *)
Fixpoint index (x : string) (l : list string) : option nat :=
  match l with
  | [] => None
  | y :: l' => if String.eqb y x then Some O else option_map S (index x l')
  end.

(** UTF-8: the number of bytes of the character that a byte starts (0 for
    a byte that starts none), and the bytes that continue a character. *)
Definition utf8_width (c : ascii) : nat :=
  let n := nat_of_ascii c in
  if (n <? 128)%nat then 1
  else if (n <? 194)%nat then 0
  else if (n <? 224)%nat then 2
  else if (n <? 240)%nat then 3
  else if (n <? 245)%nat then 4
  else 0.

Definition is_continuation (c : ascii) : bool :=
  let n := nat_of_ascii c in (128 <=? n)%nat && (n <? 192)%nat.

(** The encoding of one character outside the ASCII range. *)
Definition is_wide_char (ch : string) : bool :=
  match ch with
  | String c t =>
      (2 <=? utf8_width c)%nat && (String.length ch =? utf8_width c)%nat
      && forallb is_continuation t
  | EmptyString => false
  end.

(** [''.join(l)] *)
Definition flatten (l : list string) : string :=
  fold_right String.append EmptyString l.

End Str.

(** ** The fragment of [re] that the extractor's patterns use

    Backtracking matching in the order of the [re] module: alternatives
    left to right, repetitions greedy.  [Chr p] is one character of the
    ASCII range, or one byte of a class that is closed under the bytes of
    the characters outside it; [Uni p] is one character outside the ASCII
    range, told by its UTF-8 encoding.  [Group] is the capturing group 1 of
    the pattern. *)

Module Re.

Inductive regex : Type :=
| Eps
| Chr (p : ascii → bool)
| Uni (p : string → bool)
| Seq (r1 r2 : regex)
| Alt (r1 r2 : regex)
| Star (r : regex)
| Group (r : regex).

Definition Plus (r : regex) : regex := Seq r (Star r).
Definition Opt (r : regex) : regex := Alt r Eps.

(** [r{1,n+1}] *)
Fixpoint UpTo (n : nat) (r : regex) : regex :=
  match n with
  | O => Eps
  | S k => Opt (Seq r (UpTo k r))
  end.

(** The characters that [Alt (Chr p) (Uni q)] matches, each as its
    bytes. *)
Definition in_class (p : ascii → bool) (q : string → bool) (ch : string) : bool :=
  match ch with
  | String c EmptyString => p c
  | _ => false
  end || (Str.is_wide_char ch && q ch).

Definition one (c : ascii) : regex := Chr (Ascii.eqb c).
Definition one_i (c : ascii) : regex :=
  Chr (fun x => Ascii.eqb (lower_ascii x) (lower_ascii c)).
Definition any_of (chars : string) : regex := Chr (fun x => Str.mem x chars).
Definition none_of (chars : string) : regex := Chr (fun x => negb (Str.mem x chars)).

(** A literal, and a literal under [re.IGNORECASE]. *)
Fixpoint lit (s : string) : regex :=
  match s with
  | EmptyString => Eps
  | String c s' => Seq (one c) (lit s')
  end.
Fixpoint lit_i (s : string) : regex :=
  match s with
  | EmptyString => Eps
  | String c s' => Seq (one_i c) (lit_i s')
  end.

Section Matcher.
Context {R : Type}.

(** [run r s g k]: match [r] at the head of [s] with group value [g] so
    far, then continue with [k] on the rest; [None] makes the matcher
    backtrack. *)
Fixpoint run (r : regex) (s : string) (g : option string)
    (k : string → option string → option R) {struct r} : option R :=
  match r with
  | Eps => k s g
  | Chr p =>
      match s with
      | String c s' => if p c then k s' g else None
      | EmptyString => None
      end
  | Uni p =>
      match s with
      | String c _ =>
          let ch := Str.take (Str.utf8_width c) s in
          if Str.is_wide_char ch && p ch
          then k (Str.drop (Str.utf8_width c) s) g else None
      | EmptyString => None
      end
  | Seq r1 r2 => run r1 s g (fun s' g' => run r2 s' g' k)
  | Alt r1 r2 =>
      match run r1 s g k with
      | Some x => Some x
      | None => run r2 s g k
      end
  | Star r1 =>
      (fix star (fuel : nat) (s : string) (g : option string) : option R :=
         match fuel with
         | O => k s g
         | S fuel' =>
             match run r1 s g (fun s' g' =>
                     if (String.length s' <? String.length s)%nat
                     then star fuel' s' g' else None) with
             | Some x => Some x
             | None => k s g
             end
         end) (String.length s) s g
  | Group r1 =>
      run r1 s g (fun s' _ =>
        k s' (Some (Str.take (String.length s - String.length s') s)))
  end.

End Matcher.

(** A match: the text of group 1 and the input after the match. *)
Record hit := mkHit { group1 : string; rest : string }.

Definition match_here (r : regex) (s : string) : option hit :=
  run r s None (fun s' g => Some (mkHit (default EmptyString g) s')).

(** [re.search]: the leftmost match. *)
Fixpoint search (r : regex) (s : string) : option hit :=
  match match_here r s with
  | Some h => Some h
  | None =>
      match s with
      | EmptyString => None
      | String _ s' => search r s'
      end
  end.

(** [pattern.finditer]: the successive non-overlapping matches, as the
    texts of group 1.  [skip] counts the characters of the last match
    still to be passed over. *)
Fixpoint finditer_go (r : regex) (skip : nat) (s : string) : list string :=
  match skip with
  | S k =>
      match s with
      | String _ s' => finditer_go r k s'
      | EmptyString => []
      end
  | O =>
      match match_here r s with
      | Some h =>
          group1 h ::
          match s with
          | String _ s' =>
              finditer_go r (String.length s - String.length (rest h) - 1) s'
          | EmptyString => []
          end
      | None =>
          match s with
          | String _ s' => finditer_go r O s'
          | EmptyString => []
          end
      end
  end.

Definition finditer (r : regex) (s : string) : list string := finditer_go r O s.

End Re.

(** ** The parts of the Python library whose data is not reproduced

    [html5] is the table [html.entities.html5] of named character
    references; [bracketed_host_ok] tells whether
    [urllib.parse._check_bracketed_host] accepts a bracketed host (an IPv6 or
    IPvFuture literal); [nfkc_netloc_ok] tells whether
    [urllib.parse._checknetloc] accepts a network location holding
    non-ASCII text; [unicode_decimal] tells whether the character outside
    the ASCII range with this UTF-8 encoding is a decimal digit (category
    Nd), which [\d] matches like the digits 0 to 9. *)

Record PyLib := mkPyLib {
  html5 : string → option string;
  bracketed_host_ok : string → bool;
  nfkc_netloc_ok : string → bool;
  unicode_decimal : string → bool }.

(** ** [urllib.parse] (CPython 3.11) *)

Module Urllib.

Record ParseResult := mkParseResult {
  scheme : string;
  netloc : string;
  path : string;
  params : string;
  query : string;
  fragment : string }.

Definition uses_relative : list string :=
  [""; "ftp"; "http"; "gopher"; "nntp"; "imap"; "wais"; "file"; "https";
   "shttp"; "mms"; "prospero"; "rtsp"; "rtspu"; "sftp"; "svn"; "svn+ssh";
   "ws"; "wss"].

Definition uses_netloc : list string :=
  [""; "ftp"; "http"; "gopher"; "nntp"; "telnet"; "imap"; "wais"; "file";
   "mms"; "https"; "shttp"; "snews"; "prospero"; "rtsp"; "rtspu"; "rsync";
   "svn"; "svn+ssh"; "sftp"; "nfs"; "git"; "git+ssh"; "ws"; "wss"].

Definition uses_params : list string :=
  [""; "ftp"; "hdl"; "prospero"; "http"; "imap"; "https"; "shttp"; "rtsp";
   "rtspu"; "sip"; "sips"; "mms"; "sftp"; "tel"].

Definition scheme_chars : string :=
  "abcdefghijklmnopqrstuvwxyzABCDEFGHIJKLMNOPQRSTUVWXYZ0123456789+-.".

Definition in_list (x : string) (l : list string) : bool :=
  existsb (String.eqb x) l.

(** [_WHATWG_C0_CONTROL_OR_SPACE] and [_UNSAFE_URL_BYTES_TO_REMOVE] *)
Definition c0_control_or_space (c : ascii) : bool := (nat_of_ascii c <=? 32)%nat.
Definition unsafe_url_byte (c : ascii) : bool :=
  let n := nat_of_ascii c in (n =? 9)%nat || (n =? 13)%nat || (n =? 10)%nat.

Definition is_char (c : ascii) : ascii → bool := Ascii.eqb c.

(** The text after the last character satisfying [p], with what precedes
    it (that character included); the whole text when there is none. *)
Fixpoint rbreak (p : ascii → bool) (s : string) : string * string :=
  match s with
  | EmptyString => (EmptyString, EmptyString)
  | String c s' =>
      let (h, t) := rbreak p s' in
      match h with
      | EmptyString => if p c then (String c EmptyString, t) else (EmptyString, String c t)
      | _ => (String c h, t)
      end
  end.

Section WithLib.
Variable L : PyLib.

Definition _checknetloc (nl : string) : result unit :=
  if String.eqb nl "" || Str.forallb Str.is_ascii nl then Ok tt
  else if nfkc_netloc_ok L nl then Ok tt
  else Raise (ValueError "netloc contains invalid characters under NFKC normalization").

Definition _check_bracketed_host (hostname : string) : result unit :=
  if bracketed_host_ok L hostname then Ok tt
  else Raise (ValueError "invalid bracketed host").

Definition _check_bracketed_netloc (nl : string) : result unit :=
  let hostname_and_port := snd (rbreak (is_char "@") nl) in
  let (before_bracket, from_bracket) := Str.break (is_char "[") hostname_and_port in
  match from_bracket with
  | String _ bracketed =>
      if negb (String.eqb before_bracket "") then Raise (ValueError "Invalid IPv6 URL")
      else
        let (hostname, from_close) := Str.break (is_char "]") bracketed in
        let port := Str.drop 1 from_close in
        if negb (String.eqb port "") && negb (Str.startswith port ":")
        then Raise (ValueError "Invalid IPv6 URL")
        else _check_bracketed_host hostname
  | EmptyString =>
      _check_bracketed_host (fst (Str.break (is_char ":") hostname_and_port))
  end.

(** [url.split(c, 1)] when [c in url]. *)
Definition split_once (c : ascii) (url : string) : string * string :=
  let (a, b) := Str.break (is_char c) url in
  match b with
  | String _ b' => (a, b')
  | EmptyString => (url, EmptyString)
  end.

(** The scheme, when the text before the first colon is one: it starts
    with an ASCII letter and holds scheme characters only. *)
Definition split_scheme (default_scheme url : string) : string * string :=
  let (head, tail) := Str.break (is_char ":") url in
  match head, tail with
  | String c0 _, String _ after =>
      if Str.is_ascii c0 && Str.is_ascii_alpha c0
         && Str.forallb (fun c => Str.mem c scheme_chars) head
      then (str_lower head, after) else (default_scheme, url)
  | _, _ => (default_scheme, url)
  end.

(** The two bracket checks made on a network location. *)
Definition check_brackets (nl : string) : result unit :=
  let lb := Str.mem "[" nl in
  let rb := Str.mem "]" nl in
  if (lb && negb rb) || (rb && negb lb) then Raise (ValueError "Invalid IPv6 URL")
  else if lb && rb then _check_bracketed_netloc nl else Ok tt.

(** The network location after a leading [//], up to the first of [/?#]. *)
Definition split_netloc (url : string) : result (string * string) :=
  if Str.startswith url "//" then
    let (nl, url') := Str.break (fun c => Str.mem c "/?#") (Str.drop 2 url) in
    try! _ := check_brackets nl in
    Ok (nl, url')
  else Ok (EmptyString, url).

(** [url.lstrip(_WHATWG_C0_CONTROL_OR_SPACE)] followed by the removal of
    the unsafe bytes. *)
Definition clean (url : string) : string :=
  Str.remove unsafe_url_byte (Str.lstrip c0_control_or_space url).

(** [urlsplit(url, scheme)] with [allow_fragments=True]; the five
    components are returned in a [ParseResult] with empty [params]. *)
Definition urlsplit (url default_scheme : string) : result ParseResult :=
  let url := clean url in
  let sch := Str.remove unsafe_url_byte
               (Str.strip c0_control_or_space default_scheme) in
  let (sch, url) := split_scheme sch url in
  try! nl_url := split_netloc url in
  let (nl, url) := (nl_url : string * string) in
  let (url, frag) := split_once "#" url in
  let (url, qry) := split_once "?" url in
  try! _ := _checknetloc nl in
  Ok (mkParseResult sch nl url EmptyString qry frag).

Definition _splitparams (url : string) : string * string :=
  let (head, tail) := rbreak (is_char "/") url in
  let (a, b) := Str.break (is_char ";") tail in
  match b with
  | String _ b' => (head +:+ a, b')
  | EmptyString => (url, EmptyString)
  end.

Definition urlparse (url default_scheme : string) : result ParseResult :=
  try! r := urlsplit url default_scheme in
  if in_list (scheme r) uses_params && Str.mem ";" (path r)
  then let (u, p) := _splitparams (path r) in
       Ok (mkParseResult (scheme r) (netloc r) u p (query r) (fragment r))
  else Ok r.

End WithLib.

Definition urlunsplit (sch nl url qry frag : string) : string :=
  let url :=
    if negb (String.eqb nl "")
       || (negb (String.eqb sch "") && in_list sch uses_netloc
           && negb (String.eqb (Str.take 2 url) "//"))
    then
      let url := if negb (String.eqb url "") && negb (String.eqb (Str.take 1 url) "/")
                 then "/" +:+ url else url in
      "//" +:+ nl +:+ url
    else url in
  let url := if negb (String.eqb sch "") then sch +:+ ":" +:+ url else url in
  let url := if negb (String.eqb qry "") then url +:+ "?" +:+ qry else url in
  if negb (String.eqb frag "") then url +:+ "#" +:+ frag else url.

Definition urlunparse (r : ParseResult) : string :=
  let url := if negb (String.eqb (params r) "")
             then path r +:+ ";" +:+ params r else path r in
  urlunsplit (scheme r) (netloc r) url (query r) (fragment r).

(** Notions used to state facts about parsing: a text that
    [split_scheme] takes for a scheme, and one that it returns unchanged;
    the path and
    parameters put back together as [urlunparse] does; a path whose last
    segment does not end with the semicolon that opens its parameters; a
    fragment and a scheme added as [urlunsplit] does. *)
Definition scheme_like (head : string) : bool :=
  match head with
  | String c0 _ =>
      Str.is_ascii c0 && Str.is_ascii_alpha c0
      && Str.forallb (fun c => Str.mem c scheme_chars) head
  | EmptyString => false
  end.

Definition valid_scheme (sch : string) : bool :=
  scheme_like sch && String.eqb (str_lower sch) sch.

Definition join_params (path params : string) : string :=
  if negb (String.eqb params "") then path +:+ ";" +:+ params else path.

Definition tidy (url : string) : bool :=
  negb (String.eqb (snd (Str.break (is_char ";") (snd (rbreak (is_char "/") url)))) ";").

Definition with_fragment (url frag : string) : string :=
  if negb (String.eqb frag "") then url +:+ "#" +:+ frag else url.

Definition with_scheme (sch url : string) : string :=
  if negb (String.eqb sch "") then sch +:+ ":" +:+ url else url.

(** [parsed._replace(query='')] *)
Definition replace_query (q : string) (r : ParseResult) : ParseResult :=
  mkParseResult (scheme r) (netloc r) (path r) (params r) q (fragment r).

(** [segments[1:-1] = filter(None, segments[1:-1])] *)
Definition filter_inner (segments : list string) : list string :=
  match segments with
  | first :: (_ :: _) as others =>
      first :: List.filter (fun s => negb (String.eqb s "")) (removelast others)
        ++ [List.last others EmptyString]
  | _ => segments
  end.

Fixpoint resolve (segments resolved_rev : list string) : list string :=
  match segments with
  | [] => rev resolved_rev
  | seg :: segments' =>
      if String.eqb seg ".." then resolve segments' (tl resolved_rev)
      else if String.eqb seg "." then resolve segments' resolved_rev
      else resolve segments' (seg :: resolved_rev)
  end.

Definition urljoin (L : PyLib) (base url : string) : result string :=
  if String.eqb base "" then Ok url
  else if String.eqb url "" then Ok base
  else
    try! b := urlparse L base "" in
    try! u := urlparse L url (scheme b) in
    if negb (String.eqb (scheme u) (scheme b)) || negb (in_list (scheme u) uses_relative)
    then Ok url
    else if in_list (scheme u) uses_netloc && negb (String.eqb (netloc u) "")
    then Ok (urlunparse u)
    else
      let nl := if in_list (scheme u) uses_netloc then netloc b else netloc u in
      if String.eqb (path u) "" && String.eqb (params u) ""
      then Ok (urlunparse
                 (mkParseResult (scheme u) nl (path b) (params b)
                    (if String.eqb (query u) "" then query b else query u)
                    (fragment u)))
      else
        let base_parts := Str.split "/" (path b) in
        let base_parts :=
          if negb (String.eqb (List.last base_parts EmptyString) "")
          then removelast base_parts else base_parts in
        let segments :=
          if String.eqb (Str.take 1 (path u)) "/" then Str.split "/" (path u)
          else filter_inner (base_parts ++ Str.split "/" (path u)) in
        let resolved_path := resolve segments [] in
        let last_seg := List.last segments EmptyString in
        let resolved_path :=
          if String.eqb last_seg "." || String.eqb last_seg ".."
          then resolved_path ++ [EmptyString] else resolved_path in
        let joined := Str.join "/" resolved_path in
        Ok (urlunparse
              (mkParseResult (scheme u) nl
                 (if String.eqb joined "" then "/" else joined)
                 (params u) (query u) (fragment u))).

End Urllib.

(** ** [html.unescape] (CPython 3.11) *)

Module Html.

(** [chr(n)], as UTF-8 bytes. *)
Definition utf8 (n : Z) : string :=
  let b (x : Z) := String (ascii_of_nat (Z.to_nat x)) EmptyString in
  if n <? 128 then b n
  else if n <? 2048 then b (192 + n / 64) +:+ b (128 + n mod 64)
  else if n <? 65536 then
    b (224 + n / 4096) +:+ b (128 + (n / 64) mod 64) +:+ b (128 + n mod 64)
  else
    b (240 + n / 262144) +:+ b (128 + (n / 4096) mod 64)
      +:+ b (128 + (n / 64) mod 64) +:+ b (128 + n mod 64).

Definition _invalid_charrefs : list (Z * Z) :=
  [(0, 65533); (13, 13); (128, 8364); (129, 129); (130, 8218); (131, 402);
   (132, 8222); (133, 8230); (134, 8224); (135, 8225); (136, 710);
   (137, 8240); (138, 352); (139, 8249); (140, 338); (141, 141); (142, 381);
   (143, 143); (144, 144); (145, 8216); (146, 8217); (147, 8220);
   (148, 8221); (149, 8226); (150, 8211); (151, 8212); (152, 732);
   (153, 8482); (154, 353); (155, 8250); (156, 339); (157, 157); (158, 382);
   (159, 376)].

Definition _invalid_codepoints (n : Z) : bool :=
  ((1 <=? n) && (n <=? 8)) || ((14 <=? n) && (n <=? 31))
  || ((127 <=? n) && (n <=? 159)) || ((64976 <=? n) && (n <=? 65007))
  || (n =? 11)
  || ((n <=? 1114111) && ((n mod 65536 =? 65534) || (n mod 65536 =? 65535))).

Definition hex_value (c : ascii) : Z :=
  let n := Z.of_nat (nat_of_ascii c) in
  if (48 <=? n) && (n <=? 57) then n - 48
  else if (65 <=? n) && (n <=? 70) then n - 55
  else if (97 <=? n) && (n <=? 102) then n - 87
  else 0.

(** [int(digits, base)] on a run of digits of that base. *)
Fixpoint int_go (base acc : Z) (digits : string) : Z :=
  match digits with
  | EmptyString => acc
  | String c digits' => int_go base (acc * base + hex_value c) digits'
  end.

(** [sys.get_int_max_str_digits()]: decimal conversions beyond it raise. *)
Definition int_max_str_digits : nat := 4300.

Definition is_hex_digit (c : ascii) : bool := Str.mem c "0123456789abcdefABCDEF".

(** [&(#[0-9]+;?|#[xX][0-9a-fA-F]+;?|[^\t\n\f <&#;]{1,32};?)] *)
Definition _charref : Re.regex :=
  let name_char :=
    Re.Chr (fun c => negb (Str.mem c " <&#;"
                           || Ascii.eqb c (Str.chr 9) || Ascii.eqb c (Str.chr 10)
                           || Ascii.eqb c (Str.chr 12))) in
  Re.Seq (Re.one "&")
    (Re.Group
       (Re.Alt
          (Re.Seq (Re.one "#") (Re.Seq (Re.Plus (Re.Chr Str.is_digit)) (Re.Opt (Re.one ";"))))
          (Re.Alt
             (Re.Seq (Re.one "#")
                (Re.Seq (Re.any_of "xX")
                   (Re.Seq (Re.Plus (Re.Chr is_hex_digit)) (Re.Opt (Re.one ";")))))
             (Re.Seq name_char (Re.Seq (Re.UpTo 31 name_char) (Re.Opt (Re.one ";"))))))).

Definition numeric_charref (num : Z) : string :=
  match List.find (fun e => fst e =? num) _invalid_charrefs with
  | Some e => utf8 (snd e)
  | None =>
      if ((55296 <=? num) && (num <=? 57343)) || (1114111 <? num) then utf8 65533
      else if _invalid_codepoints num then EmptyString
      else utf8 num
  end.

Section WithLib.
Variable L : PyLib.

(** [for x in range(len(s)-1, 1, -1): if s[:x] in _html5: ...] *)
Fixpoint longest_name (s : string) (x : nat) : option string :=
  match x with
  | S (S _ as x') =>
      match html5 L (Str.take x s) with
      | Some v => Some (v +:+ Str.drop x s)
      | None => longest_name s x'
      end
  | _ => None
  end.

Definition _replace_charref (s : string) : result string :=
  match s with
  | String "#" body =>
      let is_semicolon := Ascii.eqb ";" in
      match body with
      | String c digits =>
          if Str.mem c "xX"
          then Ok (numeric_charref (int_go 16 0 (Str.rstrip is_semicolon digits)))
          else
            let digits := Str.rstrip is_semicolon body in
            if (int_max_str_digits <? String.length digits)%nat
            then Raise (ValueError "Exceeds the limit for integer string conversion")
            else Ok (numeric_charref (int_go 10 0 digits))
      | EmptyString => Ok (String "&" s)
      end
  | _ =>
      match html5 L s with
      | Some v => Ok v
      | None =>
          match longest_name s (String.length s - 1) with
          | Some v => Ok v
          | None => Ok (String "&" s)
          end
      end
  end.

(** [_charref.sub(_replace_charref, s)] *)
Fixpoint sub_go (skip : nat) (s : string) : result string :=
  match s with
  | EmptyString => Ok EmptyString
  | String c s' =>
      match skip with
      | S k => sub_go k s'
      | O =>
          match Re.match_here _charref s with
          | Some h =>
              try! v := _replace_charref (Re.group1 h) in
              try! tail := sub_go (String.length s - String.length (Re.rest h) - 1) s' in
              Ok (v +:+ tail)
          | None =>
              try! tail := sub_go O s' in
              Ok (String c tail)
          end
      end
  end.

Definition unescape (s : string) : result string :=
  if negb (Str.mem "&" s) then Ok s else sub_go O s.

End WithLib.
End Html.

(** ** [src/parser.py] *)

Module Parser.

(** The dictionary returned by [parse_product]. *)
Record ProductCandidate := mkCandidate {
  id : string;
  name : string;
  url : string;
  price : option string;
  category : option string;
  image_urls : list string }.

Definition IMAGE_EXTENSIONS : list string :=
  [".jpg"; ".jpeg"; ".png"; ".webp"; ".gif"].

Definition dq : ascii := Str.chr 34.
Definition quotes : string := String dq (String "'" EmptyString).
Definition quote : Re.regex := Re.any_of quotes.
Definition not_quote : Re.regex := Re.none_of quotes.
Definition space : Re.regex := Re.Chr Str.is_space.
(** [\d], and the class [[\d,.]]: the digits of every script. *)
Definition digit (L : PyLib) : Re.regex :=
  Re.Alt (Re.Chr Str.is_digit) (Re.Uni (unicode_decimal L)).
Definition price_char (L : PyLib) : Re.regex :=
  Re.Alt (Re.Chr (fun c => Str.is_digit c || Str.mem c ",."))
    (Re.Uni (unicode_decimal L)).
(** One character of the class [[\d,.]], as its bytes. *)
Definition price_unit (L : PyLib) (ch : string) : bool :=
  Re.in_class (fun c => Str.is_digit c || Str.mem c ",.") (unicode_decimal L) ch.
Definition seq (rs : list Re.regex) : Re.regex := fold_right Re.Seq Re.Eps rs.

(** The en dash of the title suffix, U+2013. *)
Definition en_dash : string :=
  String (Str.chr 226) (String (Str.chr 128) (String (Str.chr 147) EmptyString)).

(** In the patterns below [q] stands for the class of the two quote
    characters and [d] for the double quote alone.

    [<meta[^>]*property=[q]og:title[q][^>]*content=[q]([^q]+)[q]] *)
Definition og_title_pattern : Re.regex :=
  seq [Re.lit_i "<meta"; Re.Star (Re.none_of ">"); Re.lit_i "property="; quote;
       Re.lit_i "og:title"; quote; Re.Star (Re.none_of ">"); Re.lit_i "content=";
       quote; Re.Group (Re.Plus not_quote); quote].

(** [<title>([^<]+)</title>] *)
Definition title_pattern : Re.regex :=
  seq [Re.lit_i "<title>"; Re.Group (Re.Plus (Re.none_of "<")); Re.lit_i "</title>"].

(** [<h1[^>]*>([^<]+)</h1>] *)
Definition h1_pattern : Re.regex :=
  seq [Re.lit_i "<h1"; Re.Star (Re.none_of ">"); Re.one ">";
       Re.Group (Re.Plus (Re.none_of "<")); Re.lit_i "</h1>"].

(** [<span[^>]*class=[q][^q]*price[^q]*[q][^>]*>\s*\$?([\d,.]+)],
    [d price d:\s*d?\$?([\d,.]+)] and [data-price=[q](\d+)] *)
Definition price_patterns (L : PyLib) : list Re.regex :=
  [seq [Re.lit_i "<span"; Re.Star (Re.none_of ">"); Re.lit_i "class="; quote;
        Re.Star not_quote; Re.lit_i "price"; Re.Star not_quote; quote;
        Re.Star (Re.none_of ">"); Re.one ">"; Re.Star space; Re.Opt (Re.one "$");
        Re.Group (Re.Plus (price_char L))];
   seq [Re.one dq; Re.lit_i "price"; Re.one dq; Re.one ":"; Re.Star space;
        Re.Opt (Re.one dq); Re.Opt (Re.one "$");
        Re.Group (Re.Plus (price_char L))];
   seq [Re.lit_i "data-price="; quote; Re.Group (Re.Plus (digit L))]].

(** [/collections/([^/q?\s]+)] *)
Definition collection_pattern : Re.regex :=
  seq [Re.lit "/collections/";
       Re.Group (Re.Plus (Re.Chr (fun c =>
         negb (Str.mem c "/'?" || Ascii.eqb c dq || Str.is_space c))))].

(** [srcset=[q]([^q]+)[q]] *)
Definition srcset_pattern : Re.regex :=
  seq [Re.lit_i "srcset="; quote; Re.Group (Re.Plus not_quote); quote].

(** [src=[q]([^q]+(?:cdn/shop/(?:files|products)/)[^q]+)[q]] *)
Definition src_pattern : Re.regex :=
  seq [Re.lit_i "src="; quote;
       Re.Group (seq [Re.Plus not_quote; Re.lit_i "cdn/shop/";
                      Re.Alt (Re.lit_i "files") (Re.lit_i "products"); Re.one "/";
                      Re.Plus not_quote]);
       quote].

(** [data-src=[q]([^q]+)[q]] *)
Definition data_src_pattern : Re.regex :=
  seq [Re.lit_i "data-src="; quote; Re.Group (Re.Plus not_quote); quote].

(** [d src d:\s*d([^d]+cdn/shop/[^d]+)d] *)
Definition json_pattern : Re.regex :=
  let not_dq := Re.Chr (fun c => negb (Ascii.eqb c dq)) in
  seq [Re.one dq; Re.lit_i "src"; Re.one dq; Re.one ":"; Re.Star space; Re.one dq;
       Re.Group (seq [Re.Plus not_dq; Re.lit_i "cdn/shop/"; Re.Plus not_dq]);
       Re.one dq].

Section WithParser.
Variable L : PyLib.
(** [self.base_url] *)
Variable base_url : string.

Definition _extract_product_id (url : string) : result string :=
  try! parsed := Urllib.urlparse L url "" in
  let path := Urllib.path parsed in
  let stripped := Str.strip (Ascii.eqb "/") path in
  let parts := Str.split "/" stripped in
  let fallback := Ok (Str.replace "/" "-" stripped) in
  match Str.index "products" parts with
  | Some idx =>
      if (idx + 1 <? length parts)%nat
      then Ok (nth (idx + 1) parts EmptyString)
      else fallback
  | None => fallback
  end.

Definition str_strip : string → string := Str.strip Str.is_space.

Definition hd_str (l : list string) : string := hd EmptyString l.

Definition _extract_product_name (html : string) : string :=
  match Re.search og_title_pattern html with
  | Some m => str_strip (Re.group1 m)
  | None =>
      match Re.search title_pattern html with
      | Some m =>
          let title := str_strip (Re.group1 m) in
          let title :=
            if Str.contains "|" title
            then str_strip (hd_str (Str.split "|" title)) else title in
          let title :=
            if Str.contains en_dash title
            then str_strip (hd_str (Str.split en_dash title)) else title in
          title
      | None =>
          match Re.search h1_pattern html with
          | Some m => str_strip (Re.group1 m)
          | None => "Unknown Product"
          end
      end
  end.

Fixpoint first_price (patterns : list Re.regex) (html : string) : option string :=
  match patterns with
  | [] => None
  | pattern :: patterns' =>
      match Re.search pattern html with
      | Some m =>
          let price := str_strip (Re.group1 m) in
          if negb (String.eqb price "") then Some ("$" +:+ price)
          else first_price patterns' html
      | None => first_price patterns' html
      end
  end.

Definition _extract_price (html : string) : option string :=
  first_price (price_patterns L) html.

Definition _extract_category (html : string) : option string :=
  match Re.search collection_pattern html with
  | Some m =>
      let category := Re.group1 m in
      if negb (String.eqb (str_lower category) "all")
      then Some (Str.replace "-" " " (str_upper category))
      else None
  | None => None
  end.

Definition _is_product_image (url : string) : result bool :=
  if String.eqb url "" then Ok false
  else if negb (Str.contains "cdn/shop/" url) then Ok false
  else
    try! parsed := Urllib.urlparse L url "" in
    let url_path := str_lower (Urllib.path parsed) in
    let has_ext :=
      existsb (fun ext => Str.endswith url_path ext
                          || Str.contains (ext +:+ "?") (str_lower url_path))
        IMAGE_EXTENSIONS in
    Ok (has_ext || existsb (fun ext => Str.contains ext url_path) IMAGE_EXTENSIONS).

Definition _normalize_url (url : string) : result string :=
  try! url := Html.unescape L url in
  try! url :=
    (if Str.startswith url "//" then Ok ("https:" +:+ url)
     else if negb (Str.startswith url "http") then Urllib.urljoin L base_url url
     else Ok url) in
  try! parsed := Urllib.urlparse L url "" in
  Ok (Urllib.urlunparse (Urllib.replace_query "" parsed)).

(** [url.replace('\\/', '/')] *)
Definition unescape_slashes (url : string) : string :=
  Str.replace (String "\" (String "/" EmptyString)) "/" url.

(** The four scanning loops of [_extract_image_urls], written over what
    [image_urls.add] does to the collection [C] being filled. *)
Section Scan.
Context {C : Type} (add : C → string → C).

(** [if self._is_product_image(url): image_urls.add(self._normalize_url(url))] *)
Definition harvest (image_urls : C) (url : string) : result C :=
  try! ok := _is_product_image url in
  if (ok : bool) then
    try! n := _normalize_url url in
    Ok (add image_urls n)
  else Ok image_urls.

Fixpoint harvest_all (image_urls : C) (urls : list string) : result C :=
  match urls with
  | [] => Ok image_urls
  | url :: urls' =>
      try! image_urls := harvest image_urls url in
      harvest_all image_urls urls'
  end.

(** [url = src.strip().split()[0]] for each [src] of [srcset.split(',')] *)
Definition srcset_candidate (src : string) : result string :=
  match Str.words (str_strip src) with
  | url :: _ => Ok url
  | [] => Raise (IndexError "list index out of range")
  end.

Fixpoint harvest_srcset (image_urls : C) (srcs : list string) : result C :=
  match srcs with
  | [] => Ok image_urls
  | src :: srcs' =>
      try! url := srcset_candidate src in
      try! image_urls := harvest image_urls url in
      harvest_srcset image_urls srcs'
  end.

Fixpoint harvest_srcsets (image_urls : C) (srcsets : list string) : result C :=
  match srcsets with
  | [] => Ok image_urls
  | srcset :: srcsets' =>
      try! image_urls := harvest_srcset image_urls (Str.split "," srcset) in
      harvest_srcsets image_urls srcsets'
  end.

Definition scan (image_urls : C) (html : string) : result C :=
  try! image_urls := harvest_srcsets image_urls (Re.finditer srcset_pattern html) in
  try! image_urls := harvest_all image_urls (Re.finditer src_pattern html) in
  try! image_urls := harvest_all image_urls (Re.finditer data_src_pattern html) in
  harvest_all image_urls (map unescape_slashes (Re.finditer json_pattern html)).

End Scan.

(** [sorted(image_urls)] *)
Definition sorted (image_urls : gset string) : list string :=
  merge_sort String.le (elements image_urls).

(** The collection is a [set[str]]; the result is that set, sorted. *)
Definition _extract_image_urls (html : string) : result (list string) :=
  try! image_urls := scan (fun (s : gset string) u => s ∪ {[ u ]}) ∅ html in
  Ok (sorted image_urls).

(** The canonical URLs in the order in which the scan detects them. *)
Definition encounters (html : string) : result (list string) :=
  scan (fun (l : list string) u => l ++ [u]) [] html.

(** A set and a list filled by the same scan: both raised the same
    exception, or the set holds the elements of the list. *)
Definition agree (rs : result (gset string)) (rl : result (list string)) : Prop :=
  match rs, rl with
  | Ok s, Ok l => s = list_to_set l
  | Raise e, Raise e' => e = e'
  | _, _ => False
  end.

(** A list without its repeats, each element at its first occurrence. *)
Fixpoint first_seen (l : list string) : list string :=
  match l with
  | [] => []
  | x :: l' => x :: List.filter (fun y => negb (String.eqb y x)) (first_seen l')
  end.

Definition parse_product (html url : string) : result ProductCandidate :=
  try! product_id := _extract_product_id url in
  let name := _extract_product_name html in
  let price := _extract_price html in
  let category := _extract_category html in
  try! image_urls := _extract_image_urls html in
  Ok (mkCandidate product_id name url price category image_urls).

End WithParser.

(** [GGStoreParser()]: the default [base_url]. *)
Definition default_base_url : string := "https://ggstore.com".

End Parser.

(** ** [pathlib.PurePosixPath], as far as the downloader uses it *)

Module Pathlib.

(** A path is its root (empty, ["/"] or ["//"]) and its components. *)
Record Path := mkPath { root : string; parts : list string }.

Definition is_component (x : string) : bool :=
  negb (String.eqb x "") && negb (String.eqb x ".").

Definition parse (s : string) : Path :=
  let r :=
    if Str.startswith s "///" then "/"
    else if Str.startswith s "//" then "//"
    else if Str.startswith s "/" then "/"
    else EmptyString in
  mkPath r (List.filter is_component (Str.split "/" s)).

(** [dir / name] *)
Definition joinpath (dir name : Path) : Path :=
  if negb (String.eqb (root name) "") then name
  else mkPath (root dir) (parts dir ++ parts name).

(** [str(path)] *)
Definition to_str (p : Path) : string :=
  match root p, parts p with
  | EmptyString, [] => "."
  | r, ps => r +:+ Str.join "/" ps
  end.

(** [path.name] and [path.suffix] *)
Definition name (p : Path) : string := List.last (parts p) EmptyString.

Definition suffix (p : Path) : string :=
  let (h, t) := Urllib.rbreak (Ascii.eqb ".") (name p) in
  if (2 <=? String.length h)%nat && negb (String.eqb t "")
  then String "." t else EmptyString.

End Pathlib.

(** ** [src/downloader.py] *)

Module Downloader.

(** What the body of the [try] in [download_image] does for one request:
    the response arrives with a success status and [filepath.write_bytes]
    writes it; or the response arrives and [write_bytes] raises an [OSError],
    leaving the file as it was ([None]) or with the content [partial]; or
    [client.get] / [raise_for_status] raises an [httpx.HTTPError] (transport
    error, non-success status); or they raise something else. *)
Inductive fetch_outcome : Type :=
| Fetched (content : string)
| WriteFailure (msg : string) (partial : option string)
| HttpFailure (msg : string)
| OtherFailure (e : exn).

(** The durable storage and the outside world: the files that the process
    can reach, by path; the number of requests sent and of clock readings
    taken so far; the log of the requests with their outcomes; and, for a
    path that holds no such file, the message of the [OSError] with which
    [os.stat] refuses it, if it does so with an error other than those that
    [Path.exists] takes for "no" (a name that is too long, a directory that
    may not be searched).  No operation changes [refused]. *)
Record World := mkWorld {
  files : gmap string string;
  requests : nat;
  clock : nat;
  log : list (string * fetch_outcome);
  refused : string → option string }.

Record ImageDownloader := mkImageDownloader {
  output_dir : Pathlib.Path;
  metadata_file : Pathlib.Path;
  max_concurrent : Z;
  (** [self._client is not None] *)
  started : bool }.

(** [ImageDownloader(output_dir, metadata_file)] inside [async with]. *)
Definition open_downloader (output_dir metadata_file : string) : ImageDownloader :=
  mkImageDownloader (Pathlib.parse output_dir) (Pathlib.parse metadata_file) 5 true.

Definition IO (A : Type) : Type := World → result A * World.

Definition io_ret {A} (a : A) : IO A := fun w => (Ok a, w).
Definition io_raise {A} (e : exn) : IO A := fun w => (Raise e, w).
Definition io_bind {A B} (c : IO A) (k : A → IO B) : IO B :=
  fun w => match c w with
           | (Ok a, w') => k a w'
           | (Raise e, w') => (Raise e, w')
           end.

Notation "x <~ c ;; k" := (io_bind c (fun x => k))
  (at level 60, c at next level, right associativity).

Definition io_lift {A} (r : result A) : IO A := fun w => (r, w).

(** [path.exists()]: [os.stat] succeeds; or it fails with an error that
    [exists] answers by [False] (ENOENT, ENOTDIR, EBADF, ELOOP); or it fails
    with another [OSError], which [exists] raises again. *)
Definition path_exists (p : Pathlib.Path) : IO bool :=
  fun w =>
    match files w !! Pathlib.to_str p with
    | Some _ => (Ok true, w)
    | None =>
        match refused w (Pathlib.to_str p) with
        | Some msg => (Raise (OSError msg), w)
        | None => (Ok false, w)
        end
    end.

Section WithWorld.
Variable L : PyLib.
(** The outcome of the [i]-th request, sent to [url]. *)
Variable net : nat → string → fetch_outcome.
Variable now_at : nat → datetime.
(** [json.loads] followed by [CrawlResult.model_validate], and
    [json.dumps(result.model_dump(mode='json'), ...)]. *)
Variable parse_metadata : string → result CrawlResult.
Variable dump_metadata : CrawlResult → string.

Variable self : ImageDownloader.

Definition datetime_now : IO datetime :=
  fun w => (Ok (now_at (clock w)),
            mkWorld (files w) (requests w) (S (clock w)) (log w) (refused w)).

Definition _get_filename (product_id : string) (index : Z) (url : string)
  : result string :=
  try! parsed := Urllib.urlparse L url "" in
  let ext := str_lower (Pathlib.suffix (Pathlib.parse (Urllib.path parsed))) in
  let ext :=
    if String.eqb ext ""
       || negb (Urllib.in_list ext [".jpg"; ".jpeg"; ".png"; ".webp"; ".gif"])
    then ".jpg" else ext in
  Ok (product_id +:+ "_" +:+ format_0d 2 index +:+ ext).

Definition download_image (url : string) (filepath : Pathlib.Path) : IO bool :=
  fun w =>
    if negb (started self)
    then (Raise (RuntimeError "Downloader not started. Use async context manager."), w)
    else
      let outcome := net (requests w) url in
      let w' := mkWorld (files w) (S (requests w)) (clock w)
                  (log w ++ [(url, outcome)]) (refused w) in
      let write content :=
        mkWorld (<[Pathlib.to_str filepath := content]> (files w'))
          (requests w') (clock w') (log w') (refused w') in
      match outcome with
      | Fetched content => (Ok true, write content)
      | WriteFailure msg partial =>
          (Raise (OSError msg),
           match partial with Some content => write content | None => w' end)
      | HttpFailure _ => (Ok false, w')
      | OtherFailure e => (Raise e, w')
      end.

Definition make_image (filename url : string) (filepath : Pathlib.Path)
  : IO ProductImage :=
  t <~ datetime_now ;;
  io_ret (mkProductImage filename url (Pathlib.to_str filepath) t).

(** The first loop: existing files become records at once, the others
    become tasks. *)
Fixpoint scan_existing (product_id : string) (i : Z) (image_urls : list string)
    (images : list ProductImage) (tasks : list (string * Pathlib.Path * string))
  : IO (list ProductImage * list (string * Pathlib.Path * string)) :=
  match image_urls with
  | [] => io_ret (images, tasks)
  | url :: image_urls' =>
      filename <~ io_lift (_get_filename product_id i url) ;;
      let filepath := Pathlib.joinpath (output_dir self) (Pathlib.parse filename) in
      present <~ path_exists filepath ;;
      if (present : bool) then
        image <~ make_image filename url filepath ;;
        scan_existing product_id (i + 1) image_urls' (images ++ [image]) tasks
      else
        scan_existing product_id (i + 1) image_urls' images
          (tasks ++ [(url, filepath, filename)])
  end.

(** The second loop: one request per task, in order. *)
Fixpoint run_tasks (tasks : list (string * Pathlib.Path * string))
    (images : list ProductImage) : IO (list ProductImage) :=
  match tasks with
  | [] => io_ret images
  | (url, filepath, filename) :: tasks' =>
      ok <~ download_image url filepath ;;
      if (ok : bool) then
        image <~ make_image filename url filepath ;;
        run_tasks tasks' (images ++ [image])
      else run_tasks tasks' images
  end.

Definition download_product_images (product_id : string) (image_urls : list string)
  : IO (list ProductImage) :=
  found <~ scan_existing product_id 1 image_urls [] [] ;;
  run_tasks (snd found) (fst found).

(** The existence test stands before the [try]; inside it, a file that
    cannot be read raises an [OSError], which [except Exception] catches
    like what decoding and validation raise, unless the class derives from
    [BaseException] only. *)
Definition load_metadata : IO (option CrawlResult) :=
  present <~ path_exists (metadata_file self) ;;
  if negb present then io_ret None
  else
    fun w =>
      match files w !! Pathlib.to_str (metadata_file self) with
      | None => (Ok None, w)
      | Some text =>
          match parse_metadata text with
          | Ok r => (Ok (Some r), w)
          | Raise e => if is_exception e then (Ok None, w) else (Raise e, w)
          end
      end.

Definition save_metadata (r : CrawlResult) : IO unit :=
  fun w =>
    (Ok tt,
     mkWorld (<[Pathlib.to_str (metadata_file self) := dump_metadata r]> (files w))
       (requests w) (clock w) (log w) (refused w)).

Definition get_downloaded_product_ids : IO (gset string) :=
  metadata <~ load_metadata ;;
  match metadata with
  | Some m => io_ret (list_to_set (map p_id (cr_products m)))
  | None => io_ret ∅
  end.

(** [src/main.py]: the set consulted by [run_crawler], and its test
    [if product_id in existing_ids]. *)
Definition existing_ids (skip_existing : bool) : IO (gset string) :=
  if skip_existing then get_downloaded_product_ids else io_ret ∅.

Definition skips (ids : gset string) (product_id : string) : bool :=
  bool_decide (product_id ∈ ids).

End WithWorld.

(** The requests of a log that failed with an [httpx.HTTPError], and those
    that were answered. *)
Definition is_failure (entry : string * fetch_outcome) : bool :=
  match snd entry with HttpFailure _ => true | _ => false end.

Definition is_fetched (entry : string * fetch_outcome) : bool :=
  match snd entry with Fetched _ => true | _ => false end.

Definition failures (entries : list (string * fetch_outcome)) : nat :=
  length (List.filter is_failure entries).

(** The URL and the target of a task of the second loop. *)
Definition task_url (t : string * Pathlib.Path * string) : string := fst (fst t).

Definition task_target (t : string * Pathlib.Path * string) : string :=
  Pathlib.to_str (snd (fst t)).

Definition task_pair (t : string * Pathlib.Path * string) : string * string :=
  (task_url t, task_target t).

(** The outcomes with which [download_image] returns, [True] or [False];
    with the others it raises. *)
Definition returns (o : fetch_outcome) : bool :=
  match o with Fetched _ | HttpFailure _ => true | _ => false end.

End Downloader.

(** ** [src/crawler.py] *)

Module Crawler.

Definition BASE_URL : string := "https://ggstore.com".
Definition COLLECTION_URL : string := BASE_URL +:+ "/collections/all".

(** The listing url of a page: [f"{COLLECTION_URL}?page={page_num}"]. *)
Definition page_url (page_num : Z) : string :=
  COLLECTION_URL +:+ "?page=" +:+ pretty page_num.

(** The inner loop over the links of one page: [hrefs] holds the [href]
    attribute of each element matched by the selector. *)
Fixpoint collect_page (product_urls page_urls : list string)
    (hrefs : list (option string)) : list string :=
  match hrefs with
  | [] => page_urls
  | href :: hrefs' =>
      match href with
      | Some h =>
          if negb (String.eqb h "") && Str.contains "/products/" h
          then
            let full_url := if Str.startswith h "http" then h else BASE_URL +:+ h in
            if negb (bool_decide (full_url ∈ product_urls))
               && negb (bool_decide (full_url ∈ page_urls))
            then collect_page product_urls (page_urls ++ [full_url]) hrefs'
            else collect_page product_urls page_urls hrefs'
          else collect_page product_urls page_urls hrefs'
      | None => collect_page product_urls page_urls hrefs'
      end
  end.

(** The state of the [while True] loop; [fetched] lists the pages
    requested so far, oldest first. *)
Record Loop := mkLoop {
  product_urls : list string;
  page_num : Z;
  fetched : list Z }.

Inductive step : Type :=
| Next (st : Loop)
| Break (st : Loop)
| Fail (e : exn) (st : Loop).

Section WithBrowser.
(** What [page.goto] followed by [query_selector_all] gives for a listing
    page: the links found, or the navigation error raised. *)
Variable listing : Z → result (list (option string)).

(** One iteration of the loop body. *)
Definition body (st : Loop) : step :=
  let st := mkLoop (product_urls st) (page_num st) (fetched st ++ [page_num st]) in
  match listing (page_num st) with
  | Raise e => Fail e st
  | Ok product_links =>
      match product_links with
      | [] => Break st
      | _ =>
          match collect_page (product_urls st) [] product_links with
          | [] => Break st
          | page_urls =>
              let st' := mkLoop (product_urls st ++ page_urls) (page_num st + 1)
                           (fetched st) in
              if 50 <? page_num st' then Break st' else Next st'
          end
      end
  end.

(** The loop, run for at most [fuel] iterations; [None] when it has not
    stopped by then. *)
Fixpoint loop (fuel : nat) (st : Loop) : option (result (list string) * list Z) :=
  match fuel with
  | O => None
  | S fuel' =>
      match body st with
      | Next st' => loop fuel' st'
      | Break st' => Some (Ok (product_urls st'), fetched st')
      | Fail e st' => Some (Raise e, fetched st')
      end
  end.

(** [get_product_urls]; [started] is [self._page is not None]. *)
Definition get_product_urls (started : bool) (fuel : nat)
  : option (result (list string) * list Z) :=
  if negb started
  then Some (Raise (RuntimeError "Browser not started. Call start() first."), [])
  else loop fuel (mkLoop [] 1 []).

(** The URLs collected once pages 1 to [n] have been gone through, and
    whether page [n] ends the pagination: the navigation fails, the page has
    no product link, or none of its links is new. *)
Fixpoint collected (n : nat) : list string :=
  match n with
  | O => []
  | S k =>
      match listing (Z.of_nat n) with
      | Ok links => collected k ++ collect_page (collected k) [] links
      | Raise _ => collected k
      end
  end.

Definition is_nil {A} (l : list A) : bool :=
  match l with [] => true | _ => false end.

Definition stops_at (n : nat) : bool :=
  match listing (Z.of_nat n) with
  | Ok links => is_nil links || is_nil (collect_page (collected (n - 1)) [] links)
  | Raise _ => true
  end.

(** The pages 1 to [n], and what the call returns when page [n] is the
    last one it requests. *)
Definition pages_upto (n : nat) : list Z := map Z.of_nat (seq 1 n).

Definition result_at (n : nat) : result (list string) :=
  match listing (Z.of_nat n) with
  | Ok _ => Ok (collected n)
  | Raise e => Raise e
  end.

End WithBrowser.
End Crawler.

(** ** Oracles used to run the model on examples *)

Module Sample.

(** The five predefined entities of [html.entities.html5]. *)
Definition html5 (name : string) : option string :=
  if String.eqb name "amp;" || String.eqb name "amp" then Some "&"
  else if String.eqb name "lt;" || String.eqb name "lt" then Some "<"
  else if String.eqb name "gt;" || String.eqb name "gt" then Some ">"
  else if String.eqb name "quot;" || String.eqb name "quot"
  then Some (String Parser.dq EmptyString)
  else if String.eqb name "apos;" then Some "'"
  else None.

(** The Arabic-Indic digits, U+0660 to U+0669. *)
Definition arabic_indic (ch : string) : bool :=
  match ch with
  | String a (String b EmptyString) =>
      (nat_of_ascii a =? 217)%nat
      && (160 <=? nat_of_ascii b)%nat && (nat_of_ascii b <=? 169)%nat
  | _ => false
  end.

Definition lib : PyLib :=
  mkPyLib html5 (fun _ => false) (fun _ => false) arabic_indic.

Definition now_at (i : nat) : datetime := 1700000000000000 + Z.of_nat i * 1000000.

Definition uuid4_hex (i : nat) : string := "3f2a9c4e5b6d47e1a8c0d2f4b6a8c0e2".

(** A stand-in for the YAML dump: the product identifiers, one per line. *)
Definition yaml_dump (c : Ledger.StoreParserChecklist) : string :=
  Str.join (String (Str.chr 10) EmptyString) (map Ledger.pe_id (Ledger.products c)).

Definition parse_metadata (text : string) : result CrawlResult :=
  if String.eqb text "{}" then Ok (mkCrawlResult [] 0 0 0)
  else Raise (JSONDecodeError "Expecting value").

(** A network on which every second request fails. *)
Definition net (i : nat) (url : string) : Downloader.fetch_outcome :=
  if Nat.even i then Downloader.Fetched "image bytes"
  else Downloader.HttpFailure "503 Service Unavailable".

Definition downloader : Downloader.ImageDownloader :=
  Downloader.open_downloader "data/images" "data/metadata.json".

Definition empty_world : Downloader.World :=
  Downloader.mkWorld ∅ 0 0 [] (fun _ => None).

Definition five_urls : list string :=
  ["https://ggstore.com/cdn/shop/files/tee-1.jpg";
   "https://ggstore.com/cdn/shop/files/tee-2.jpg";
   "https://ggstore.com/cdn/shop/files/tee-3.png";
   "https://ggstore.com/cdn/shop/files/tee-4.webp";
   "https://ggstore.com/cdn/shop/files/tee-5.jpg"].

(** A fresh ledger, and the upserts used on it. *)
Definition ledger : Ledger.Manager := Ledger.fresh_manager now_at.

Definition upsert_tee (images_found images_saved : Z) (category : option string)
  : Ledger.operation :=
  Ledger.AddOrUpdateProduct "classic-tee" "Classic Tee"
    "https://ggstore.com/products/classic-tee" "JOB-001" Ledger.COMPLETED
    images_found images_saved (images_found - images_saved) (Some "$19.99") category.

Definition upsert_cap : Ledger.operation :=
  Ledger.AddOrUpdateProduct "cap-red" "Red Cap"
    "https://ggstore.com/products/cap-red" "JOB-001" Ledger.COMPLETED
    2 2 0 None (Some "CAPS").

(** Markup whose [srcset] lists the images z, m, z, a, m. *)
Definition gallery : string :=
  "<img srcset='//ggstore.com/cdn/shop/files/z.jpg?width=200 200w, //ggstore.com/cdn/shop/files/m.jpg?width=200 200w, //ggstore.com/cdn/shop/files/z.jpg?width=400 400w, //ggstore.com/cdn/shop/files/a.jpg?width=200 200w, //ggstore.com/cdn/shop/files/m.jpg?width=400 400w'>".

End Sample.

(** ** Notions used to state further properties *)

Module Bookkeeping.
Import Ledger.

(** The job counters agree with the job list: [stats.jobs.total] is the
    number of jobs, and [stats.jobs.pending] lies between 0 and it. *)
Definition jobs_counted (c : StoreParserChecklist) : Prop :=
  js_total (st_jobs (stats c)) = Z.of_nat (length (jobs c))
  ∧ 0 ≤ js_pending (st_jobs (stats c)) ≤ js_total (st_jobs (stats c)).

(** The operations by the collection they work on. *)
Definition is_job_op (op : operation) : bool :=
  match op with
  | CreateJob _ _ _ | StartJob _ _ | CompleteJob _ _ => true
  | _ => false
  end.

Definition is_error_op (op : operation) : bool :=
  match op with
  | LogError _ _ _ _ _ | ResolveError _ => true
  | _ => false
  end.

Definition is_session_op (op : operation) : bool :=
  match op with
  | StartSession _ | UpdateSessionProgress _ _ _ _ _ _ _ | EndSession _ => true
  | _ => false
  end.

(** Identifiers numbered from 1 in list order: the [i]-th is
    [f"{tag}{i:03d}"]. *)
Definition numbered (tag : string) (ids : list string) : Prop :=
  ids = map (fun i => tag +:+ format_0d 3 (Z.of_nat i + 1)) (seq 0 (length ids)).

(** The upserts of one product, and the image counts that an upsert
    passes. *)
Definition upserts_of (id : string) (op : operation) : bool :=
  match op with
  | AddOrUpdateProduct id' _ _ _ _ _ _ _ _ _ => String.eqb id' id
  | _ => false
  end.

Definition counts_of (op : operation) : option ProductImageStatus :=
  match op with
  | AddOrUpdateProduct _ _ _ _ status image_count downloaded_count failed_count _ _ =>
      Some (mkProductImageStatus image_count downloaded_count failed_count status)
  | _ => None
  end.

(** The product [id] has its entry at the end of the list, after the
    entries [before], crawled [k] times since the clock stood at [t0]. *)
Definition settled (now_at : nat → datetime) (id : string)
    (before : list ProductEntry) (t0 k : nat) (m : Manager) (e : ProductEntry)
  : Prop :=
  products (checklist m) = before ++ [e]
  ∧ has_product_id id e = true
  ∧ crawl_count <$> crawl_info e = Some (Z.of_nat k)
  ∧ first_seen <$> crawl_info e = Some (now_at t0)
  ∧ clock m = (t0 + 2 * k)%nat.

End Bookkeeping.

Module Storage.
Import Downloader.

Section WithDownloader.
Variable L : PyLib.
Variable self : ImageDownloader.

(** The file that [download_product_images] uses for the [i]-th URL of a
    product: [str(self.output_dir / self._get_filename(product_id, i, url))]. *)
Definition target (product_id : string) (i : Z) (url : string) : result string :=
  rmap (fun filename =>
          Pathlib.to_str (Pathlib.joinpath (output_dir self) (Pathlib.parse filename)))
    (_get_filename L product_id i url).

Fixpoint targets (product_id : string) (i : Z) (image_urls : list string)
  : list (result string) :=
  match image_urls with
  | [] => []
  | url :: image_urls' =>
      target product_id i url :: targets product_id (i + 1) image_urls'
  end.

(** The target is on disk. *)
Definition on_disk (w : World) (t : result string) : bool :=
  match t with
  | Ok p => bool_decide (is_Some (files w !! p))
  | Raise _ => false
  end.

(** The existence test of the target is answered: the URL parses, and the
    file is on disk or the OS does not refuse its path. *)
Definition answered (w : World) (t : result string) : bool :=
  match t with
  | Ok p =>
      bool_decide (is_Some (files w !! p))
      || negb (bool_decide (is_Some (refused w p)))
  | Raise _ => false
  end.

(** What a call of [download_product_images] is to do, told from its
    arguments, the world it starts in and the network alone: the URLs whose
    file is on disk; those whose file is missing, each with its target;
    the outcomes of the fetches of these, the [j]-th of which is the request
    number [n + j] when [n] requests were sent before; and the files once
    the answered ones are written. *)
Fixpoint found (w : World) (product_id : string) (i : Z) (image_urls : list string)
  : list string :=
  match image_urls with
  | [] => []
  | url :: image_urls' =>
      if on_disk w (target product_id i url)
      then url :: found w product_id (i + 1) image_urls'
      else found w product_id (i + 1) image_urls'
  end.

Fixpoint missing (w : World) (product_id : string) (i : Z) (image_urls : list string)
  : list (string * string) :=
  match image_urls with
  | [] => []
  | url :: image_urls' =>
      match target product_id i url with
      | Ok p =>
          if bool_decide (is_Some (files w !! p))
          then missing w product_id (i + 1) image_urls'
          else (url, p) :: missing w product_id (i + 1) image_urls'
      | Raise _ => missing w product_id (i + 1) image_urls'
      end
  end.

End WithDownloader.

Section Attempts.
Variable net : nat → string → fetch_outcome.

Fixpoint attempts (n : nat) (tasks : list (string * string))
  : list (string * fetch_outcome) :=
  match tasks with
  | [] => []
  | (url, _) :: tasks' => (url, net n url) :: attempts (S n) tasks'
  end.

Fixpoint stored (n : nat) (tasks : list (string * string))
    (fs : gmap string string) : gmap string string :=
  match tasks with
  | [] => fs
  | (url, p) :: tasks' =>
      stored (S n) tasks'
        match net n url with
        | Fetched content => <[p := content]> fs
        | _ => fs
        end
  end.

End Attempts.

(** [CrawlResult()] filled by successive [add_product] calls. *)
Definition add_products (r : CrawlResult) (ps : list Product) : CrawlResult :=
  fold_left add_product ps r.

Definition image_total (ps : list Product) : Z :=
  fold_right Z.add 0 (map (fun q => Z.of_nat (length (p_images q))) ps).

End Storage.

Module Listing.

(** A collected URL is absolute and is a product URL. *)
Definition product_link (u : string) : bool :=
  Str.startswith u "http" && Str.contains "/products/" u.

(** The URLs collected so far: no repeats, product links only. *)
Definition tidy_urls (urls : list string) : Prop :=
  NoDup urls ∧ Forall (fun u => product_link u = true) urls.

End Listing.

Module Slug.

(** The characters of a slug: no path, query, fragment or parameter
    delimiter, and none of the bytes that [urlsplit] removes. *)
Definition slug_char (c : ascii) : bool :=
  negb (Str.mem c "/?#;") && negb (Urllib.unsafe_url_byte c).

(** What may follow the slug: nothing, a slash, a query or a fragment. *)
Definition page_tail (rest : string) : bool :=
  match rest with
  | String "/" t => Str.stops (fun c => Str.mem c "?#") t
  | _ => Str.stops (fun c => Str.mem c "?#") rest
  end.

(** A lowercase letter of the ASCII range. *)
Definition is_lower_letter (c : ascii) : bool :=
  Str.is_ascii_alpha c && Ascii.eqb (lower_ascii c) c.

End Slug.

(** ** [scripts/deduplicate_images.py] *)

Module Dedup.


Record Merged := mkMerged {
  m_id : string;
  m_name : string;
  m_url : string;
  m_image_urls : list string;
  m_image_count : Z }.

(** The statistics returned, without [reduction_rate] (a formatted
    float). *)
Record Stats := mkStats {
  original_entries : Z;
  deduplicated_entries : Z;
  original_images : Z;
  unique_images : Z }.








Definition by_name (a b : Merged) : Prop := String.le (m_name a) (m_name b).

Global Instance by_name_dec : RelDecision by_name.
Proof. intros a b. unfold by_name. apply _. Defined.





End Dedup.

(** ** [src/main.py] *)

Module Main.

(** [str(e)]: the message an exception carries. *)
Definition str_exn (e : exn) : string :=
  match e with
  | RuntimeError msg | ValueError msg | IndexError msg | OSError msg
  | JSONDecodeError msg | ValidationError msg | PlaywrightError msg
  | KeyboardInterrupt msg | CancelledError msg => msg
  end.

(** The variables of [run_crawler] that change while it runs, with the
    ledger manager and the world the downloader works in. *)
Record Run := mkRun {
  checklist_mgr : Ledger.Manager;
  world : Downloader.World;
  crawl : CrawlResult;
  skipped_count : Z;
  crawled_count : Z }.

Definition set_mgr (m : Ledger.Manager) (st : Run) : Run :=
  mkRun m (world st) (crawl st) (skipped_count st) (crawled_count st).

Definition set_world (w : Downloader.World) (st : Run) : Run :=
  mkRun (checklist_mgr st) w (crawl st) (skipped_count st) (crawled_count st).

Section RunCrawler.
Variable L : PyLib.
(** The network and the clock of the downloader; [run_crawler] reads the
    same clock for [crawled_at]. *)
Variable net : nat → string → Downloader.fetch_outcome.
Variable now_at : nat → datetime.
Variable parse_metadata : string → result CrawlResult.
Variable dump_metadata : CrawlResult → string.
(** The clock, the identifiers and the YAML dump of the ledger. *)
Variable ledger_now_at : nat → datetime.
Variable uuid4_hex : nat → string.
Variable yaml_dump : Ledger.StoreParserChecklist → string.
(** The browser: what [crawler.start()] does, the listing pages, and what
    [get_product_html] gives for the [i]-th product URL. *)
Variable launch : result unit.
Variable listing : Z → result (list (option string)).
Variable product_html : Z → string → result string.

(** The arguments of [run_crawler]; [delay] is kept in milliseconds. *)
Variable output_dir : string.
Variable metadata_file : string.
Variable headless : bool.
Variable delay_millis : Z.
Variable skip_existing : bool.

Definition downloader : Downloader.ImageDownloader :=
  Downloader.open_downloader output_dir metadata_file.

Definition job_config : Ledger.JobConfig :=
  Ledger.mkJobConfig headless delay_millis 5 skip_existing output_dir metadata_file.

(** [checklist_mgr.update_session_progress] with the keywords that
    [run_crawler] passes. *)
Definition progress (discovered crawled skipped images : option Z)
    (last_product_url : option string) (st : Run) : Run :=
  set_mgr (snd (Ledger.update_session_progress ledger_now_at yaml_dump discovered
                  crawled skipped images None None last_product_url
                  (checklist_mgr st))) st.

(** The body of the inner [try] for the [i]-th URL: the exception that
    ends it, if any, and the state it leaves. *)
Definition try_product (job : string) (i : Z) (url : string) (st : Run)
  : option exn * Run :=
  match product_html i url with
  | Raise e => (Some e, st)
  | Ok html =>
      match Parser.parse_product L Parser.default_base_url html url with
      | Raise e => (Some e, st)
      | Ok product_data =>
          match Downloader.download_product_images L net now_at downloader
                  (Parser.id product_data) (Parser.image_urls product_data)
                  (world st) with
          | (Raise e, w) => (Some e, set_world w st)
          | (Ok images, w) =>
              let t := now_at (Downloader.clock w) in
              let w := Downloader.mkWorld (Downloader.files w) (Downloader.requests w)
                         (S (Downloader.clock w)) (Downloader.log w)
                         (Downloader.refused w) in
              let product :=
                mkProduct (Parser.id product_data) (Parser.name product_data)
                  (Parser.url product_data) (Parser.price product_data)
                  (Parser.category product_data) images t in
              let result := add_product (crawl st) product in
              let crawled_count := crawled_count st + 1 in
              let image_count := Z.of_nat (length (Parser.image_urls product_data)) in
              let downloaded_count := Z.of_nat (length images) in
              let m :=
                snd (Ledger.add_or_update_product ledger_now_at yaml_dump
                       (Parser.id product_data) (Parser.name product_data) url job
                       Ledger.COMPLETED image_count downloaded_count
                       (image_count - downloaded_count)
                       (Parser.price product_data) (Parser.category product_data)
                       (checklist_mgr st)) in
              let st := mkRun m w result (skipped_count st) crawled_count in
              let st := progress None (Some crawled_count) None
                          (Some (cr_total_images result)) (Some url) st in
              let st :=
                if i mod 10 =? 0
                then set_world
                       (snd (Downloader.save_metadata dump_metadata downloader result
                               (world st))) st
                else st in
              (None, st)
          end
      end
  end.

(** The loop [for i, url in enumerate(product_urls, 1)]: an exception of
    [_extract_product_id] ends it; an exception of the inner [try] is
    logged and the loop goes on when [except Exception] catches it, and
    ends the loop when it does not. *)
Fixpoint crawl_loop (job : string) (existing_ids : gset string) (i : Z)
    (product_urls : list string) (st : Run) : option exn * Run :=
  match product_urls with
  | [] => (None, st)
  | url :: product_urls' =>
      match Parser._extract_product_id L url with
      | Raise e => (Some e, st)
      | Ok product_id =>
          if Downloader.skips existing_ids product_id
          then
            let skipped_count := skipped_count st + 1 in
            let st := mkRun (checklist_mgr st) (world st) (crawl st) skipped_count
                        (crawled_count st) in
            let st := progress None None (Some skipped_count) None (Some url) st in
            crawl_loop job existing_ids (i + 1) product_urls' st
          else
            match try_product job i url st with
            | (None, st) => crawl_loop job existing_ids (i + 1) product_urls' st
            | (Some e, st) =>
                if is_exception e then
                  let m :=
                    snd (Ledger.log_error ledger_now_at yaml_dump job
                           Ledger.CRAWL_FAILED (str_exn e) (Some product_id)
                           (Some url) (checklist_mgr st)) in
                  crawl_loop job existing_ids (i + 1) product_urls' (set_mgr m st)
                else (Some e, st)
            end
      end
  end.

(** The body of the outer [try], down to the final [save_metadata]; [None]
    when the pagination has not stopped within its 50 pages. *)
Definition crawl_all (job : string) (st : Run) : option (option exn * Run) :=
  match Downloader.existing_ids parse_metadata downloader skip_existing (world st) with
  | (Raise e, w) => Some (Some e, set_world w st)
  | (Ok existing_ids, w) =>
      let st := set_world w st in
      match launch with
      | Raise e => Some (Some e, st)
      | Ok _ =>
          match Crawler.get_product_urls listing true 50 with
          | None => None
          | Some (Raise e, _) => Some (Some e, st)
          | Some (Ok product_urls, _) =>
              let st := progress (Some (Z.of_nat (length product_urls))) None None None
                          None st in
              match crawl_loop (job : string) existing_ids 1 product_urls st with
              | (Some e, st) => Some (Some e, st)
              | (None, st) =>
                  Some (None,
                        set_world
                          (snd (Downloader.save_metadata dump_metadata downloader
                                  (crawl st) (world st))) st)
              end
          end
      end
  end.

(** The end of a run that went through, and of one that was cut short. *)
Definition job_succeeded (st : Run) : Ledger.JobResult :=
  Ledger.mkJobResult true (cr_total_products (crawl st)) (cr_total_images (crawl st))
    (cr_total_products (crawl st)) (cr_total_images (crawl st)) (skipped_count st) 0
    None.

Definition job_failed (e : exn) : Ledger.JobResult :=
  Ledger.mkJobResult false 0 0 0 0 0 0 (Some (str_exn e)).

Definition finish (job : string) (st : Run) : Ledger.Manager :=
  let m := snd (Ledger.complete_job ledger_now_at yaml_dump job (job_succeeded st)
                  (checklist_mgr st)) in
  let m := snd (Ledger.sync_from_metadata ledger_now_at yaml_dump (crawl st) m) in
  snd (Ledger.end_session ledger_now_at yaml_dump Ledger.COMPLETED m).

Definition abandon (job : string) (e : exn) (st : Run) : Ledger.Manager :=
  let m := snd (Ledger.complete_job ledger_now_at yaml_dump job (job_failed e)
                  (checklist_mgr st)) in
  snd (Ledger.end_session ledger_now_at yaml_dump Ledger.FAILED m).

(** The state in which the outer [try] is entered: the job is created and
    started, the session is open, the result is empty. *)
Definition prepare (m : Ledger.Manager) (w : Downloader.World) : Ledger.CrawlJob * Run :=
  let r := Ledger.create_job ledger_now_at yaml_dump Ledger.FULL_CRAWL (Some job_config)
             "high" m in
  let m := snd (Ledger.start_session ledger_now_at uuid4_hex yaml_dump "crawler-agent"
                  (snd r)) in
  let m := snd (Ledger.start_job ledger_now_at yaml_dump (Ledger.job_id (fst r))
                  "crawler-agent" m) in
  let crawled_at := now_at (Downloader.clock w) in
  let w := Downloader.mkWorld (Downloader.files w) (Downloader.requests w)
             (S (Downloader.clock w)) (Downloader.log w) (Downloader.refused w) in
  (fst r, mkRun m w (mkCrawlResult [] crawled_at 0 0) 0 0).

(** [run_crawler], from the manager that [ChecklistManager(checklist_file)]
    gives and the world as it is: what it returns or raises, and the manager
    and the world it leaves.  The handler of the outer [try] runs for the
    exceptions that [except Exception] catches; the others pass it. *)
Definition run_crawler (m : Ledger.Manager) (w : Downloader.World)
  : option (result CrawlResult * Ledger.Manager * Downloader.World) :=
  let (job, st) := prepare m w in
  match crawl_all (Ledger.job_id job) st with
  | None => None
  | Some (None, st) => Some (Ok (crawl st), finish (Ledger.job_id job) st, world st)
  | Some (Some e, st) =>
      Some (Raise e,
            (if is_exception e then abandon (Ledger.job_id job) e st
             else checklist_mgr st),
            world st)
  end.

End RunCrawler.

(** An error entry as the loop logs it for the job [job]. *)
Definition crawl_failure (job : string) (e : Ledger.ErrorEntry) : Prop :=
  Ledger.err_job_id e = job ∧ Ledger.err_type e = Ledger.CRAWL_FAILED
  ∧ Ledger.resolved e = false.

(** The totals of a result are those of its list. *)
Definition totals_ok (r : CrawlResult) : Prop :=
  cr_total_products r = Z.of_nat (length (cr_products r))
  ∧ cr_total_images r = Storage.image_total (cr_products r).

(** From [st] to [st'] the loop has gone through [k] URLs: each has added
    a product that was not to be skipped, or has been skipped, or has left
    an error; the jobs, the status of the session and the sync record are
    as they were. *)
Definition advanced (job : string) (ids : gset string) (k : nat) (st st' : Run)
  : Prop :=
  let c := Ledger.checklist (checklist_mgr st) in
  let c' := Ledger.checklist (checklist_mgr st') in
  Ledger.jobs c' = Ledger.jobs c
  ∧ Ledger.cs_status <$> Ledger.current_session c'
    = Ledger.cs_status <$> Ledger.current_session c
  ∧ Ledger.metadata_sync c' = Ledger.metadata_sync c
  ∧ (totals_ok (crawl st) → totals_ok (crawl st'))
  ∧ ∃ new failed,
      cr_products (crawl st') = cr_products (crawl st) ++ new
      ∧ Forall (fun p => Downloader.skips ids (p_id p) = false) new
      ∧ Ledger.errors c' = Ledger.errors c ++ failed
      ∧ Forall (crawl_failure job) failed
      ∧ skipped_count st ≤ skipped_count st'
      ∧ Z.of_nat k
        = Z.of_nat (length new) + (skipped_count st' - skipped_count st)
          + Z.of_nat (length failed).

End Main.

(** ** Further examples *)

Module Fixture.

(** A job from its creation to its successful end. *)
Definition job_done : Ledger.JobResult := Ledger.mkJobResult true 2 5 2 5 0 0 None.

Definition job_ops : list Ledger.operation :=
  [Ledger.CreateJob Ledger.FULL_CRAWL None "high";
   Ledger.StartJob "JOB-001" "crawler-agent";
   Ledger.CompleteJob "JOB-001" job_done].

(** A fresh ledger in which the first job has been created and started. *)
Definition started_ledger : Ledger.Manager :=
  Ledger.run Sample.now_at Sample.uuid4_hex Sample.yaml_dump
    [Ledger.CreateJob Ledger.FULL_CRAWL None "high";
     Ledger.StartJob "JOB-001" "crawler-agent"] Sample.ledger.

Definition started_job : Ledger.CrawlJob :=
  Ledger.mkCrawlJob "JOB-001" Ledger.FULL_CRAWL Ledger.IN_PROGRESS "high"
    (Ledger.mkJobExecution (Some "crawler-agent") (Some (Sample.now_at 3)) None None)
    Ledger.default_JobConfig None [].

(** A network without failures, and a downloader outside [async with]. *)
Definition net_ok (i : nat) (url : string) : Downloader.fetch_outcome :=
  Downloader.Fetched "image bytes".

Definition idle_downloader : Downloader.ImageDownloader :=
  Downloader.mkImageDownloader (Pathlib.parse "data/images")
    (Pathlib.parse "data/metadata.json") 5 false.

Definition two_urls : list string :=
  ["https://ggstore.com/cdn/shop/files/tee-1.jpg";
   "https://ggstore.com/cdn/shop/files/tee-2.PNG?width=400"].

Definition bad_urls : list string :=
  ["https://ggstore.com/cdn/shop/files/tee-1.jpg";
   "http://[ggstore.com/cdn/shop/files/tee-2.jpg"].

(** A disk that holds the two images of the product. *)
Definition stocked_world : Downloader.World :=
  Downloader.mkWorld
    (<["data/images/classic-tee_01.jpg" := "image bytes"]>
       {[ "data/images/classic-tee_02.png" := "image bytes" ]}) 0 0 []
    (fun _ => None).

(** A crawl result of one product, with stand-ins for the JSON encoding
    and decoding that agree on it. *)
Definition tee : Product :=
  mkProduct "classic-tee" "Classic Tee" "https://ggstore.com/products/classic-tee"
    (Some "$19.99") None [] 1700000000000000.

Definition one_product : CrawlResult :=
  add_product (mkCrawlResult [] 1700000000000000 0 0) tee.

Definition dump_ids (r : CrawlResult) : string :=
  Str.join "," (map p_id (cr_products r)).

Definition read_back (text : string) : result CrawlResult :=
  if String.eqb text "classic-tee" then Ok one_product
  else Raise (JSONDecodeError "Expecting value").

(** A shop of one listing page. *)
Definition listing (page : Z) : result (list (option string)) :=
  if page =? 1
  then Ok [Some "/products/classic-tee"; Some "https://ggstore.com/products/cap-red";
           Some "/products/classic-tee"; None; Some "/collections/all"]
  else Ok [].

(** The price 12.50 with its first two digits in the Arabic-Indic script
    (U+0661, U+0662), and a page that shows it. *)
Definition arabic_price : string :=
  String (Str.chr 217) (String (Str.chr 161)
    (String (Str.chr 217) (String (Str.chr 162) ".50"))).

Definition arabic_page : string :=
  "<span class='price'>$" +:+ arabic_price +:+ " USD</span>".

(** A file system that refuses a path with a name of more than 255 bytes,
    as [os.stat] does with [ENAMETOOLONG]; a name of 300 bytes; a product
    with that name, and a downloader whose metadata file has it. *)
Definition errno36 (p : string) : string :=
  "[Errno 36] File name too long: '" +:+ p +:+ "'".

Definition name_too_long (p : string) : option string :=
  if existsb (fun x => (255 <? String.length x)%nat) (Pathlib.parts (Pathlib.parse p))
  then Some (errno36 p) else None.

Definition strict_world : Downloader.World :=
  Downloader.mkWorld ∅ 0 0 [] name_too_long.

Definition long_name : string := string_of_list_ascii (repeat "a"%char 300).

Definition long_metadata : Downloader.ImageDownloader :=
  Downloader.open_downloader "data/images" ("data/" +:+ long_name +:+ ".json").

(** Runs of the crawler on the fresh ledger.  In the first, the page of
    the first product is served and that of the second times out. *)
Definition product_html (i : Z) (url : string) : result string :=
  if i =? 1 then Ok Sample.gallery
  else Raise (PlaywrightError "Timeout 30000ms exceeded.").

Definition run_on (listing : Z → result (list (option string)))
    (product_html : Z → string → result string) (w : Downloader.World)
  : option (result CrawlResult * Ledger.Manager * Downloader.World) :=
  Main.run_crawler Sample.lib net_ok Sample.now_at read_back dump_ids Sample.now_at
    Sample.uuid4_hex Sample.yaml_dump (Ok tt) listing product_html
    "data/images" "data/metadata.json" true 1500 true Sample.ledger w.


(** In the second, the metadata lists the first product and every page is
    served. *)
Definition saved_world : Downloader.World :=
  Downloader.mkWorld {[ "data/metadata.json" := "classic-tee" ]} 0 0 []
    (fun _ => None).

Definition second_run := run_on listing (fun _ _ => Ok Sample.gallery) saved_world.




(** What a run has returned and left. *)
Definition crawled (o : option (result CrawlResult * Ledger.Manager * Downloader.World))
  : CrawlResult :=
  match o with
  | Some (Ok r, _, _) => r
  | _ => mkCrawlResult [] 0 0 0
  end.

Definition ledger_after
    (o : option (result CrawlResult * Ledger.Manager * Downloader.World))
  : Ledger.Manager :=
  match o with
  | Some (_, m, _) => m
  | None => Sample.ledger
  end.

Definition world_after
    (o : option (result CrawlResult * Ledger.Manager * Downloader.World))
  : Downloader.World :=
  match o with
  | Some (_, _, w) => w
  | None => Sample.empty_world
  end.

End Fixture.

(** * Properties *)

(** ** Lists scanned for their first match *)

Section FirstMatch.
Context {A : Type} (p : A → bool).

Lemma find_none_filter (l : list A) : find p l = None → List.filter p l = [].
Proof.
  induction l as [|x l IH]; simpl; [done|].
  destruct (p x); [done|]. exact IH.
Qed.

Lemma find_app_none (l l' : list A) : find p l = None → find p (l ++ l') = find p l'.
Proof.
  induction l as [|x l IH]; simpl; [done|].
  destruct (p x); [done|]. exact IH.
Qed.

Lemma update_first_app_none (f : A → A) (l l' : list A) :
  find p l = None →
  Ledger.update_first p f (l ++ l') = l ++ Ledger.update_first p f l'.
Proof.
  induction l as [|x l IH]; simpl; [done|].
  destruct (p x); [done|]. intros H. by rewrite IH.
Qed.

Lemma update_first_length (f : A → A) (l : list A) :
  length (Ledger.update_first p f l) = length l.
Proof.
  induction l as [|x l IH]; simpl; [done|].
  destruct (p x); simpl; by rewrite ?IH.
Qed.

End FirstMatch.

(** ** The ledger *)

Module LedgerFacts.
Import Ledger.

Section Facts.
Variable now_at : nat → datetime.
Variable uuid4_hex : nat → string.
Variable yaml_dump : StoreParserChecklist → string.

Abbreviation upsert := (add_or_update_product now_at yaml_dump).

(** The effect of an upsert on an identifier not yet in the ledger. *)
Lemma upsert_new (m : Manager) (id name url job : string) (status : JobStatus)
    (total done failed : Z) (price' category' : option string) :
  _find_product id (checklist m) = None →
  let r := upsert id name url job status total done failed price' category' m in
  let e := new_entry id name url status job total done failed price' category'
             (now_at (clock m)) in
  fst r = e
  ∧ products (checklist (snd r)) = products (checklist m) ++ [e]
  ∧ clock (snd r) = S (S (clock m))
  ∧ total_products (stats (checklist (snd r)))
    = Z.of_nat (length (products (checklist m) ++ [e]))
  ∧ by_category (stats (checklist (snd r)))
    = match category' with
      | Some cat => if truthy category'
                    then bump_category cat (by_category (stats (checklist m)))
                    else by_category (stats (checklist m))
      | None => by_category (stats (checklist m))
      end.
Proof.
  intros Hnew. unfold _find_product in Hnew.
  unfold add_or_update_product, bind, get_checklist, datetime_now, _find_product.
  simpl. rewrite Hnew.
  destruct category' as [cat|]; [destruct (truthy (Some cat))|]; simpl; auto.
Qed.

(** The effect of an upsert on an identifier already in the ledger. *)
Lemma upsert_existing (m : Manager) (e0 : ProductEntry) (id name url job : string)
    (status : JobStatus) (total done failed : Z) (price' category' : option string) :
  _find_product id (checklist m) = Some e0 →
  let r := upsert id name url job status total done failed price' category' m in
  let e := update_entry status job total done failed price' category'
             (now_at (clock m)) e0 in
  fst r = e
  ∧ products (checklist (snd r))
    = update_first (has_product_id id) (fun _ => e) (products (checklist m))
  ∧ clock (snd r) = S (S (clock m))
  ∧ stats (checklist (snd r)) = stats (checklist m).
Proof.
  intros Hold. unfold _find_product in Hold.
  unfold add_or_update_product, bind, get_checklist, datetime_now, _find_product.
  simpl. rewrite Hold. simpl. auto.
Qed.

(** C1.  Two upserts of an identifier the ledger has not seen leave one
    entry with that identifier: it is the entry returned by the second
    call, its crawl count is 2, its last-crawled stamp is the clock reading
    of the second call, and its image counts are the second call's. *)
Theorem upsert_twice_converges
    (m : Manager) (id : string)
    (name1 url1 job1 : string) (status1 : JobStatus) (total1 done1 failed1 : Z)
    (price1 category1 : option string)
    (name2 url2 job2 : string) (status2 : JobStatus) (total2 done2 failed2 : Z)
    (price2 category2 : option string) :
  _find_product id (checklist m) = None →
  let r1 := upsert id name1 url1 job1 status1 total1 done1 failed1
              price1 category1 m in
  let r2 := upsert id name2 url2 job2 status2 total2 done2 failed2
              price2 category2 (snd r1) in
  let e := fst r2 in
  List.filter (has_product_id id) (products (checklist (snd r2))) = [e]
  ∧ length (products (checklist (snd r2))) = S (length (products (checklist m)))
  ∧ crawl_count <$> crawl_info e = Some 2
  ∧ last_crawled <$> crawl_info e = Some (now_at (clock (snd r1)))
  ∧ first_seen <$> crawl_info e = Some (now_at (clock m))
  ∧ img_total (images e) = total2
  ∧ img_downloaded (images e) = done2
  ∧ img_failed (images e) = failed2.
Proof.
  intros Hnew r1 r2 e.
  destruct (upsert_new m id name1 url1 job1 status1 total1 done1 failed1
              price1 category1 Hnew) as (He1 & Hps1 & Hck1 & _).
  fold r1 in He1, Hps1, Hck1.
  set (e1 := new_entry id name1 url1 status1 job1 total1 done1 failed1 price1
               category1 (now_at (clock m))) in *.
  assert (Hid1 : has_product_id id e1 = true) by apply String.eqb_refl.
  assert (Hfind : _find_product id (checklist (snd r1)) = Some e1).
  { unfold _find_product in *. rewrite Hps1, (find_app_none _ _ _ Hnew).
    simpl. by rewrite Hid1. }
  destruct (upsert_existing (snd r1) e1 id name2 url2 job2 status2 total2 done2
              failed2 price2 category2 Hfind) as (He2 & Hps2 & _).
  fold r2 in He2, Hps2. fold e in He2.
  unfold _find_product in Hnew.
  rewrite Hps2, Hps1, (update_first_app_none _ _ _ _ Hnew). simpl.
  rewrite Hid1, List.filter_app, (find_none_filter _ _ Hnew). simpl.
  rewrite <- He2.
  assert (Hid2 : has_product_id id e = true) by (rewrite He2; apply String.eqb_refl).
  rewrite Hid2, length_app. simpl.
  split; [reflexivity|]. split; [lia|].
  rewrite He2. simpl. repeat split; reflexivity.
Qed.

(** *** Durability *)

Lemma save_durable (m : Manager) : durable yaml_dump (snd (save now_at yaml_dump m)).
Proof. reflexivity. Qed.

(** C4 (amended).  Every ledger operation that goes past its guard - for
    [update_session_progress] an active session, for [start_job] and
    [complete_job] a job that is found, for [resolve_error] an error that is
    found, no condition for the others - leaves in the ledger file the
    dump of the checklist it leaves in memory. *)
Theorem mutation_is_durable (op : operation) (m : Manager) :
  takes_effect op m = true →
  durable yaml_dump (exec now_at uuid4_hex yaml_dump op m).
Proof.
  destruct op; simpl; intros Heff; unfold durable.
  - reflexivity.
  - apply bool_decide_eq_true in Heff. destruct Heff as [s Hs].
    unfold update_session_progress, bind, get_checklist. rewrite Hs. reflexivity.
  - unfold end_session, bind, get_checklist.
    destruct (current_session (checklist m)); reflexivity.
  - reflexivity.
  - apply bool_decide_eq_true in Heff. destruct Heff as [j Hj].
    unfold start_job, bind, get_checklist. rewrite Hj. reflexivity.
  - apply bool_decide_eq_true in Heff. destruct Heff as [j Hj].
    unfold complete_job, bind, get_checklist. rewrite Hj.
    destruct (success res); [destruct (job_type j)|]; reflexivity.
  - unfold add_or_update_product, bind, get_checklist.
    destruct (_find_product id (checklist m)); simpl; [reflexivity|].
    destruct category' as [cat|]; [destruct (truthy (Some cat))|]; reflexivity.
  - reflexivity.
  - apply bool_decide_eq_true in Heff. destruct Heff as [e He].
    unfold resolve_error, bind, get_checklist. rewrite He. reflexivity.
  - reflexivity.
Qed.

(** *** Statistics *)

Lemma count_update_first (cat id : string) (e0 e : ProductEntry)
    (ps : list ProductEntry) :
  find (has_product_id id) ps = Some e0 →
  category e = category e0 →
  length (List.filter (carries cat)
            (update_first (has_product_id id) (fun _ => e) ps))
  = length (List.filter (carries cat) ps).
Proof.
  intros Hfind Hcat. induction ps as [|x ps IH]; simpl in *; [done|].
  destruct (has_product_id id x).
  - injection Hfind as ->. simpl.
    replace (carries cat e) with (carries cat e0)
      by (unfold carries; by rewrite Hcat).
    by destruct (carries cat e0).
  - simpl. destruct (carries cat x); simpl; by rewrite IH.
Qed.

Lemma histogram_bump (cat cat' : string) (h : gmap string Z) :
  default 0 (bump_category cat h !! cat')
  = default 0 (h !! cat') + (if String.eqb cat cat' then 1 else 0).
Proof.
  unfold bump_category. destruct (String.eqb_spec cat cat') as [->|Hne].
  - rewrite lookup_insert_eq. destruct (h !! cat') as [n|] eqn:Hn; simpl.
    + by rewrite Hn.
    + by rewrite lookup_insert_eq.
  - rewrite lookup_insert_ne by done.
    destruct (h !! cat); [|rewrite lookup_insert_ne by done]; lia.
Qed.

(** One upsert keeps the product total equal to the length of the list,
    and keeps the histogram of the non-empty categories when it does not
    change the category of an existing entry. *)
Lemma upsert_keeps_stats (m : Manager) (id name url job : string)
    (status : JobStatus) (total done failed : Z) (price' category' : option string) :
  let op := AddOrUpdateProduct id name url job status total done failed
              price' category' in
  let m' := exec now_at uuid4_hex yaml_dump op m in
  (total_products (stats (checklist m)) = Z.of_nat (length (products (checklist m))) →
   total_products (stats (checklist m')) = Z.of_nat (length (products (checklist m'))))
  ∧ (keeps_category op m = true →
     ∀ cat, cat ≠ "" →
       histogram cat (checklist m) = count_category cat (checklist m) →
       histogram cat (checklist m') = count_category cat (checklist m')).
Proof.
  intros op m'. subst op m'. simpl.
  destruct (_find_product id (checklist m)) as [e0|] eqn:Hfind.
  - destruct (upsert_existing m e0 id name url job status total done failed
                price' category' Hfind) as (_ & Hps & _ & Hst).
    split.
    + intros Htot. rewrite Hst, Hps, update_first_length. exact Htot.
    + intros Hkeep cat _ Hcat. unfold histogram, count_category.
      rewrite Hst, Hps. unfold _find_product in Hfind.
      rewrite (count_update_first cat id e0 _ _ Hfind); [exact Hcat|].
      simpl. destruct (truthy category') eqn:Htr; [|done].
      simpl in Hkeep. apply bool_decide_eq_true in Hkeep. by rewrite Hkeep.
  - destruct (upsert_new m id name url job status total done failed
                price' category' Hfind) as (_ & Hps & _ & Htot' & Hcat').
    split.
    + intros _. by rewrite Htot', Hps.
    + intros _ cat Hne Hcat. unfold histogram, count_category in *.
      rewrite Hcat', Hps, List.filter_app, length_app, Nat2Z.inj_add, <- Hcat.
      simpl. unfold carries. simpl.
      destruct category' as [c|]; simpl; [|lia].
      destruct (String.eqb_spec c "") as [->|Hc]; simpl.
      * destruct cat; [done|simpl; lia].
      * rewrite histogram_bump. destruct (String.eqb c cat); simpl; lia.
Qed.

(** C6 (amended).  From a ledger whose product total is the length of its
    product list, any sequence of upserts keeps it so; a non-empty category
    that the histogram counted rightly at the start is still counted rightly
    after any sequence of upserts none of which passes to an entry already
    present a category other than the one it carries; a metadata sync sets
    the product total to the total of the crawl result, and touches neither
    the product list nor the histogram. *)
Theorem stats_after_mutations (m : Manager) (ops : list operation) (r : CrawlResult) :
  total_products (stats (checklist m)) = Z.of_nat (length (products (checklist m))) →
  forallb is_upsert ops = true →
  let m' := run now_at uuid4_hex yaml_dump ops m in
  let m'' := exec now_at uuid4_hex yaml_dump (SyncFromMetadata r) m' in
  total_products (stats (checklist m')) = Z.of_nat (length (products (checklist m')))
  ∧ (category_stable now_at uuid4_hex yaml_dump ops m = true →
     ∀ cat, cat ≠ "" →
       histogram cat (checklist m) = count_category cat (checklist m) →
       histogram cat (checklist m') = count_category cat (checklist m'))
  ∧ total_products (stats (checklist m'')) = cr_total_products r
  ∧ products (checklist m'') = products (checklist m')
  ∧ by_category (stats (checklist m'')) = by_category (stats (checklist m')).
Proof.
  intros Htot Hups m' m''. subst m' m''.
  split; [|split; [|simpl; tauto]].
  - revert m Htot. induction ops as [|op ops IH]; intros m Htot; [done|].
    simpl in Hups. apply andb_true_iff in Hups as [Hop Hups]. simpl.
    apply IH; [done|]. destruct op; try discriminate Hop.
    by apply upsert_keeps_stats.
  - revert m Htot. induction ops as [|op ops IH]; intros m Htot Hst cat Hne Hcat;
      [done|].
    simpl in Hups. apply andb_true_iff in Hups as [Hop Hups].
    simpl in Hst. apply andb_true_iff in Hst as [Hk Hst]. simpl.
    destruct op; try discriminate Hop.
    apply IH; try done.
    + by apply upsert_keeps_stats.
    + by apply upsert_keeps_stats.
Qed.

End Facts.

(** The theorem of C1 at a fresh ledger: a first crawl that saved 3 of 5
    images, then a second one that saved all 5. *)
Lemma upsert_twice_converges_witness :
  _find_product "classic-tee" (checklist Sample.ledger) = None
  ∧ let r1 := add_or_update_product Sample.now_at Sample.yaml_dump
                "classic-tee" "Classic Tee"
                "https://ggstore.com/products/classic-tee" "JOB-001" COMPLETED
                5 3 2 (Some "$19.99") (Some "TEES") Sample.ledger in
    let r2 := add_or_update_product Sample.now_at Sample.yaml_dump
                "classic-tee" "Classic Tee"
                "https://ggstore.com/products/classic-tee" "JOB-002" COMPLETED
                5 5 0 (Some "$19.99") (Some "TEES") (snd r1) in
    List.filter (has_product_id "classic-tee") (products (checklist (snd r2)))
    = [fst r2]
    ∧ crawl_count <$> crawl_info (fst r2) = Some 2
    ∧ img_downloaded (images (fst r2)) = 5.
Proof.
  split; [reflexivity|].
  pose proof (upsert_twice_converges Sample.now_at Sample.yaml_dump Sample.ledger
                "classic-tee" "Classic Tee"
                "https://ggstore.com/products/classic-tee" "JOB-001" COMPLETED
                5 3 2 (Some "$19.99") (Some "TEES") "Classic Tee"
                "https://ggstore.com/products/classic-tee" "JOB-002" COMPLETED
                5 5 0 (Some "$19.99") (Some "TEES") eq_refl) as H.
  cbn zeta in *. tauto.
Defined.

(** C4, as stated, fails: [start_job] on an identifier that is not in the
    ledger returns without saving, and a fresh ledger has no file yet. *)
Lemma start_job_unknown_not_durable :
  ¬ durable Sample.yaml_dump
      (exec Sample.now_at Sample.uuid4_hex Sample.yaml_dump
         (StartJob "JOB-001" "crawler-agent") Sample.ledger).
Proof. unfold durable. vm_compute. discriminate. Qed.

(** The theorem of C4 at [start_job] on a job that was created. *)
Lemma mutation_is_durable_witness :
  let m := exec Sample.now_at Sample.uuid4_hex Sample.yaml_dump
             (CreateJob FULL_CRAWL None "high") Sample.ledger in
  takes_effect (StartJob "JOB-001" "crawler-agent") m = true
  ∧ durable Sample.yaml_dump
      (exec Sample.now_at Sample.uuid4_hex Sample.yaml_dump
         (StartJob "JOB-001" "crawler-agent") m).
Proof.
  intros m. split; [reflexivity|].
  apply (mutation_is_durable Sample.now_at Sample.uuid4_hex Sample.yaml_dump).
  reflexivity.
Defined.

(** C6, as stated, fails: [sync_from_metadata] takes the product total
    from the crawl result.  A run that skips the one product of the ledger
    returns an empty result, and the sync sets the total to 0 while the
    product list holds one entry. *)
Lemma sync_overwrites_product_total :
  ¬ stats_integrity
      (checklist
         (run Sample.now_at Sample.uuid4_hex Sample.yaml_dump
            [Sample.upsert_tee 5 3 (Some "TEES");
             SyncFromMetadata (mkCrawlResult [] 1700000000000000 0 0)]
            Sample.ledger)).
Proof.
  intros [H _]. vm_compute in H. discriminate H.
Qed.

(** The update branch of [add_or_update_product] sets the category of the
    entry and leaves out what the creation branch does under
    [# Update category stats]: a product first filed under TEES and then
    upserted under SALE leaves the histogram at one TEES product, while no
    entry carries TEES any more. *)
Lemma recategorised_product_breaks_histogram :
  ¬ stats_integrity
      (checklist
         (run Sample.now_at Sample.uuid4_hex Sample.yaml_dump
            [Sample.upsert_tee 5 3 (Some "TEES"); Sample.upsert_tee 5 5 (Some "SALE")]
            Sample.ledger)).
Proof.
  intros [_ H]. specialize (H "TEES"). vm_compute in H. discriminate H.
Qed.

(** The theorem of C6 at a fresh ledger, two products with their
    categories, a re-crawl that passes no category, and the sync of a run
    that found nothing new. *)
Lemma stats_after_mutations_witness :
  let ops := [Sample.upsert_tee 5 3 (Some "TEES"); Sample.upsert_cap;
              Sample.upsert_tee 5 5 None] in
  let m' := run Sample.now_at Sample.uuid4_hex Sample.yaml_dump ops Sample.ledger in
  let m'' := exec Sample.now_at Sample.uuid4_hex Sample.yaml_dump
               (SyncFromMetadata (mkCrawlResult [] 1700000000000000 0 0)) m' in
  total_products (stats (checklist Sample.ledger))
  = Z.of_nat (length (products (checklist Sample.ledger)))
  ∧ forallb is_upsert ops = true
  ∧ category_stable Sample.now_at Sample.uuid4_hex Sample.yaml_dump ops Sample.ledger
    = true
  ∧ histogram "TEES" (checklist Sample.ledger)
    = count_category "TEES" (checklist Sample.ledger)
  ∧ histogram "CAPS" (checklist Sample.ledger)
    = count_category "CAPS" (checklist Sample.ledger)
  ∧ total_products (stats (checklist m')) = 2
  ∧ histogram "TEES" (checklist m') = 1
  ∧ count_category "TEES" (checklist m') = 1
  ∧ histogram "CAPS" (checklist m') = count_category "CAPS" (checklist m')
  ∧ total_products (stats (checklist m'')) = 0
  ∧ length (products (checklist m'')) = 2%nat.
Proof.
  intros ops m' m''.
  assert (Hstable : category_stable Sample.now_at Sample.uuid4_hex Sample.yaml_dump
                      ops Sample.ledger = true) by (vm_compute; reflexivity).
  destruct (stats_after_mutations Sample.now_at Sample.uuid4_hex Sample.yaml_dump
              Sample.ledger ops (mkCrawlResult [] 1700000000000000 0 0)
              eq_refl eq_refl) as (Htotal & Hhist & Hsync & Hproducts & _).
  assert (Htees : "TEES" ≠ "") by discriminate.
  assert (Hcaps : "CAPS" ≠ "") by discriminate.
  pose proof (Hhist Hstable "TEES" Htees eq_refl) as H1.
  pose proof (Hhist Hstable "CAPS" Hcaps eq_refl) as H2.
  split; [reflexivity|]. split; [reflexivity|]. split; [exact Hstable|].
  split; [reflexivity|]. split; [reflexivity|].
  split; [etransitivity; [exact Htotal|vm_compute; reflexivity]|].
  split; [etransitivity; [exact H1|vm_compute; reflexivity]|].
  split; [vm_compute; reflexivity|]. split; [exact H2|].
  split; [exact Hsync|].
  etransitivity; [exact (f_equal (@length _) Hproducts)|vm_compute; reflexivity].
Defined.

End LedgerFacts.

(** ** Pagination *)

Module CrawlerFacts.
Import Crawler.

Section Facts.
Variable listing : Z → result (list (option string)).

Lemma pages_upto_S (n : nat) : pages_upto (S n) = pages_upto n ++ [Z.of_nat (S n)].
Proof. unfold pages_upto. by rewrite seq_S, map_app. Qed.

Lemma stops_at_S (q : nat) :
  stops_at listing (S q)
  = match listing (Z.of_nat (S q)) with
    | Ok links => is_nil links || is_nil (collect_page (collected listing q) [] links)
    | Raise _ => true
    end.
Proof. unfold stops_at. by rewrite Nat.sub_succ, Nat.sub_0_r. Qed.

(** One iteration at page [q + 1], entered with the URLs of the pages
    before it. *)
Lemma body_at (q : nat) :
  body listing (mkLoop (collected listing q) (Z.of_nat (S q)) (pages_upto q))
  = if stops_at listing (S q) then
      match listing (Z.of_nat (S q)) with
      | Ok _ => Break (mkLoop (collected listing (S q)) (Z.of_nat (S q))
                         (pages_upto (S q)))
      | Raise e => Fail e (mkLoop (collected listing q) (Z.of_nat (S q))
                             (pages_upto (S q)))
      end
    else
      let st := mkLoop (collected listing (S q)) (Z.of_nat (S (S q)))
                  (pages_upto (S q)) in
      if (49 <=? q)%nat then Break st else Next st.
Proof.
  rewrite stops_at_S. unfold body. cbn [product_urls page_num fetched collected].
  rewrite <- pages_upto_S.
  destruct (listing (Z.of_nat (S q))) as [links|e]; [|done].
  destruct links as [|l links]; [by rewrite app_nil_r|].
  cbn [is_nil orb].
  destruct (collect_page (collected listing q) [] (l :: links)) as [|u us];
    [by rewrite app_nil_r|].
  cbn [is_nil]. replace (Z.of_nat (S q) + 1) with (Z.of_nat (S (S q))) by lia.
  destruct (Nat.leb_spec 49 q).
  - replace (50 <? Z.of_nat (S (S q))) with true by (symmetry; apply Z.ltb_lt; lia).
    done.
  - replace (50 <? Z.of_nat (S (S q))) with false by (symmetry; apply Z.ltb_ge; lia).
    done.
Qed.

(** The loop entered at page [q + 1] stops at some page [n] between
    [q + 1] and 50. *)
Lemma loop_from (d : nat) : ∀ (q extra : nat),
  (q + d = 49)%nat →
  (∀ k, (1 ≤ k ≤ q)%nat → stops_at listing k = false) →
  ∃ n, (S q ≤ n ≤ 50)%nat
    ∧ loop listing (S d + extra)
        (mkLoop (collected listing q) (Z.of_nat (S q)) (pages_upto q))
      = Some (result_at listing n, pages_upto n)
    ∧ (∀ k, (1 ≤ k < n)%nat → stops_at listing k = false)
    ∧ ((n < 50)%nat → stops_at listing n = true).
Proof.
  induction d as [|d IH]; intros q extra Hd Hbefore.
  - (* page 50 *)
    exists (S q). split; [lia|]. split; [|split; [intros; apply Hbefore; lia|lia]].
    cbn [loop Nat.add]. rewrite body_at. unfold result_at.
    destruct (stops_at listing (S q)) eqn:Hstop.
    + by destruct (listing (Z.of_nat (S q))).
    + rewrite stops_at_S in Hstop.
      destruct (listing (Z.of_nat (S q))); [|done].
      cbn zeta. destruct (Nat.leb_spec 49 q); [done|lia].
  - destruct (stops_at listing (S q)) eqn:Hstop.
    + exists (S q). split; [lia|]. split; [|split; [intros; apply Hbefore; lia|done]].
      cbn [loop Nat.add]. rewrite body_at, Hstop. unfold result_at.
      by destruct (listing (Z.of_nat (S q))).
    + destruct (IH (S q) extra) as (n & Hn & Hloop & Hk & Hlast); [lia| |].
      { intros k Hk. destruct (decide (k = S q)) as [->|]; [done|]. apply Hbefore. lia. }
      exists n. split; [lia|]. split; [|done].
      rewrite <- Hloop. cbn [loop Nat.add]. rewrite body_at, Hstop. cbn zeta.
      destruct (Nat.leb_spec 49 q); [lia|done].
Qed.

(** C8.  [get_product_urls] terminates whatever the listing pages hold:
    with the browser started it requests the pages 1 to [n] in order for
    some [n] of at most 50 and then returns (50 iterations of the loop are
    always enough); no page before [n] has ended the pagination, and when
    [n] is below 50 page [n] did - its navigation failed, it had no
    product link, or none of its links was new.  Without a started browser
    it raises before any request. *)
Theorem pagination_terminates (extra : nat) :
  (∃ n, (1 ≤ n ≤ 50)%nat
     ∧ get_product_urls listing true (50 + extra)
       = Some (result_at listing n, pages_upto n)
     ∧ length (pages_upto n) = n
     ∧ (∀ k, (1 ≤ k < n)%nat → stops_at listing k = false)
     ∧ ((n < 50)%nat → stops_at listing n = true))
  ∧ get_product_urls listing false (50 + extra)
    = Some (Raise (RuntimeError "Browser not started. Call start() first."), []).
Proof.
  split; [|done].
  destruct (loop_from 49 0 extra) as (n & Hn & Hloop & Hk & Hlast); [lia| |].
  { intros k Hk. lia. }
  exists n. split; [lia|]. split; [exact Hloop|]. split; [|done].
  unfold pages_upto. by rewrite length_map, length_seq.
Qed.

End Facts.
End CrawlerFacts.

(** ** The download manager *)

Module DownloaderFacts.
Import Downloader Storage.

Section Metadata.
Variable parse_metadata : string → result CrawlResult.
Variable self : ImageDownloader.

(** C10.  When the metadata file does not exist and the existence test of
    its path is answered, or when decoding or validating its text raises an
    [Exception], [load_metadata] returns [None] and raises nothing,
    [get_downloaded_product_ids] returns the empty set, and a run with
    skip-existing enabled skips no product. *)
Theorem unreadable_metadata_skips_nothing (w : World) :
  (files w !! Pathlib.to_str (metadata_file self) = None
   ∧ refused w (Pathlib.to_str (metadata_file self)) = None)
  ∨ (∃ text e, files w !! Pathlib.to_str (metadata_file self) = Some text
               ∧ parse_metadata text = Raise e ∧ is_exception e = true) →
  load_metadata parse_metadata self w = (Ok None, w)
  ∧ get_downloaded_product_ids parse_metadata self w = (Ok ∅, w)
  ∧ existing_ids parse_metadata self true w = (Ok ∅, w)
  ∧ ∀ product_id, skips ∅ product_id = false.
Proof.
  intros H.
  assert (Hload : load_metadata parse_metadata self w = (Ok None, w)).
  { unfold load_metadata, io_bind, path_exists, io_ret.
    destruct H as [[Hfile Hstat]|(text & e & Hfile & Hparse & He)].
    - by rewrite Hfile, Hstat.
    - rewrite Hfile. cbn [negb]. by rewrite Hfile, Hparse, He. }
  assert (Hids : get_downloaded_product_ids parse_metadata self w = (Ok ∅, w)).
  { unfold get_downloaded_product_ids, io_bind. by rewrite Hload. }
  split; [exact Hload|]. split; [exact Hids|]. split; [exact Hids|].
  intros product_id. unfold skips. apply bool_decide_eq_false. set_solver.
Qed.

End Metadata.

(** *** What the world of a call decides *)

Section Plan.
Variable L : PyLib.
Variable self : ImageDownloader.

Lemma found_files (w w' : World) (product_id : string) (urls : list string) :
  files w' = files w →
  ∀ i, found L self w' product_id i urls = found L self w product_id i urls.
Proof.
  intros Hfiles. induction urls as [|u urls IH]; intros i; [done|].
  cbn [found]. unfold on_disk. rewrite Hfiles. by rewrite IH.
Qed.

Lemma missing_files (w w' : World) (product_id : string) (urls : list string) :
  files w' = files w →
  ∀ i, missing L self w' product_id i urls = missing L self w product_id i urls.
Proof.
  intros Hfiles. induction urls as [|u urls IH]; intros i; [done|].
  cbn [missing]. rewrite Hfiles. by rewrite IH.
Qed.

Lemma answered_files (w w' : World) (t : result string) :
  files w' = files w → refused w' = refused w → answered w' t = answered w t.
Proof. intros Hfiles Hrefused. unfold answered. by rewrite Hfiles, Hrefused. Qed.

Lemma answered_all_files (w w' : World) (ts : list (result string)) :
  files w' = files w → refused w' = refused w →
  forallb (answered w') ts = forallb (answered w) ts.
Proof.
  intros Hfiles Hrefused. induction ts as [|t ts IH]; [done|].
  cbn [forallb]. by rewrite IH, (answered_files w w').
Qed.

(** Under the existence tests that are answered, the URLs found and the
    URLs missing are the URLs, each once. *)
Lemma found_missing (w : World) (product_id : string) (urls : list string) :
  ∀ i, forallb (answered w) (targets L self product_id i urls) = true →
       found L self w product_id i urls
         ++ (fst <$> missing L self w product_id i urls) ≡ₚ urls.
Proof.
  induction urls as [|u urls IH]; intros i; [done|].
  cbn [targets forallb found missing]. intros [Hu Hall]%andb_true_iff.
  specialize (IH (i + 1) Hall). unfold on_disk.
  destruct (target L self product_id i u) as [p|e]; [|done].
  destruct (bool_decide (is_Some (files w !! p))).
  - simpl. by rewrite IH.
  - rewrite fmap_cons. cbn [fst]. rewrite <- IH at 3. symmetry.
    apply Permutation_middle.
Qed.

End Plan.

Section Facts.
Variable L : PyLib.
Variable net : nat → string → fetch_outcome.
Variable now_at : nat → datetime.
Variable self : ImageDownloader.

(** The first loop: a record for every URL found, a task for every URL
    missing, nothing sent and nothing written. *)
Lemma scan_existing_plan (product_id : string) (urls : list string) :
  ∀ i images tasks w,
    forallb (answered w) (targets L self product_id i urls) = true →
    ∃ images' tasks' w',
      scan_existing L now_at self product_id i urls images tasks w
      = (Ok (images ++ images', tasks ++ tasks'), w')
      ∧ original_url <$> images' = found L self w product_id i urls
      ∧ task_pair <$> tasks' = missing L self w product_id i urls
      ∧ files w' = files w ∧ requests w' = requests w ∧ log w' = log w
      ∧ refused w' = refused w.
Proof.
  induction urls as [|u urls IH]; intros i images tasks w.
  { intros _. exists [], [], w. simpl. unfold io_ret. by rewrite !app_nil_r. }
  cbn [targets forallb found missing scan_existing].
  intros [Hu Hall]%andb_true_iff. unfold target, on_disk in *.
  unfold io_bind at 1, io_lift.
  destruct (_get_filename L product_id i u) as [filename|e]; [|done].
  cbn [rmap] in *.
  set (filepath := Pathlib.joinpath _ _) in *.
  unfold io_bind at 1, path_exists. unfold answered in Hu.
  destruct (files w !! Pathlib.to_str filepath) as [content|] eqn:Hfile.
  - rewrite (bool_decide_eq_true_2 _ (mk_is_Some _ _ eq_refl)).
    unfold io_bind at 1, make_image, io_bind at 1, datetime_now, io_ret.
    set (image := mkProductImage _ _ _ _).
    set (w1 := mkWorld _ _ _ _ _).
    assert (Hall1 : forallb (answered w1) (targets L self product_id (i + 1) urls)
                    = true).
    { by rewrite (answered_all_files w w1). }
    destruct (IH (i + 1) (images ++ [image]) tasks w1 Hall1)
      as (images' & tasks' & w' & Heq & Hfound & Hmissing & Hf & Hr & Hl & Hs).
    exists (image :: images'), tasks', w'.
    rewrite Heq, <- app_assoc. split; [done|].
    rewrite (found_files L self w w1) in Hfound by done.
    rewrite (missing_files L self w w1) in Hmissing by done.
    split; [by rewrite fmap_cons, Hfound|]. by repeat split.
  - assert (Hno : ¬ is_Some (None : option string)) by (intros [? ?]; done).
    rewrite (bool_decide_eq_false_2 _ Hno) in *. cbn [orb] in Hu.
    apply negb_true_iff, bool_decide_eq_false in Hu.
    destruct (refused w (Pathlib.to_str filepath)) as [msg|] eqn:Hstat;
      [exfalso; apply Hu; eauto|].
    destruct (IH (i + 1) images (tasks ++ [(u, filepath, filename)]) w Hall)
      as (images' & tasks' & w' & Heq & Hfound & Hmissing & Hrest).
    exists images', ((u, filepath, filename) :: tasks'), w'.
    rewrite Heq, <- app_assoc. split; [done|]. split; [done|].
    split; [by rewrite fmap_cons, Hmissing|]. exact Hrest.
Qed.

(** The second loop: one request per task, in order; a record and a file
    for each request that is answered, none for one that fails. *)
Lemma run_tasks_plan (tasks : list (string * Pathlib.Path * string)) :
  started self = true →
  ∀ images w,
    forallb (fun a => returns (snd a))
      (attempts net (requests w) (task_pair <$> tasks)) = true →
    ∃ images' w',
      run_tasks net now_at self tasks images w = (Ok (images ++ images'), w')
      ∧ original_url <$> images'
        = fst <$> List.filter is_fetched
                    (attempts net (requests w) (task_pair <$> tasks))
      ∧ log w' = log w ++ attempts net (requests w) (task_pair <$> tasks)
      ∧ files w' = stored net (requests w) (task_pair <$> tasks) (files w)
      ∧ requests w' = (requests w + length tasks)%nat
      ∧ refused w' = refused w.
Proof.
  intros Hstarted.
  induction tasks as [|[[u filepath] filename] tasks IH]; intros images w.
  { intros _. exists [], w. simpl. unfold io_ret.
    rewrite !app_nil_r. by rewrite Nat.add_0_r. }
  rewrite fmap_cons. cbn [task_pair task_url task_target fst snd attempts stored
    forallb run_tasks].
  intros [Hout Hall]%andb_true_iff.
  unfold io_bind at 1, download_image. rewrite Hstarted. cbn [negb].
  destruct (net (requests w) u) as [content|msg partial|msg|e] eqn:Hnet;
    try discriminate Hout.
  - unfold io_bind at 1, make_image, io_bind at 1, datetime_now, io_ret.
    cbn [files requests clock log refused].
    set (image := mkProductImage _ _ _ _).
    match goal with
    | |- context [run_tasks _ _ _ _ _ ?w1] =>
        destruct (IH (images ++ [image]) w1 Hall)
          as (images' & w' & Heq & Hurls & Hlog & Hfiles & Hreq & Hrefused)
    end.
    cbn [files requests clock log refused] in *.
    exists (image :: images'), w'. rewrite Heq, <- app_assoc.
    split; [done|].
    split; [cbn [List.filter is_fetched snd]; by rewrite !fmap_cons, Hurls|].
    split; [by rewrite Hlog, <- app_assoc|].
    split; [done|]. split; [rewrite Hreq; simpl; lia|done].
  - match goal with
    | |- context [run_tasks _ _ _ _ _ ?w1] =>
        destruct (IH images w1 Hall)
          as (images' & w' & Heq & Hurls & Hlog & Hfiles & Hreq & Hrefused)
    end.
    cbn [files requests clock log refused] in *.
    exists images', w'. rewrite Heq.
    split; [done|].
    split; [cbn [List.filter is_fetched snd]; exact Hurls|].
    split; [by rewrite Hlog, <- app_assoc|].
    split; [done|]. split; [rewrite Hreq; simpl; lia|done].
Qed.

Lemma attempts_urls (n : nat) (tasks : list (string * string)) :
  fst <$> attempts net n tasks = fst <$> tasks.
Proof.
  revert n. induction tasks as [|[u p] tasks IH]; intros n; [done|].
  cbn [attempts]. by rewrite !fmap_cons, IH.
Qed.

Lemma attempts_count (n : nat) (tasks : list (string * string)) :
  forallb (fun a => returns (snd a)) (attempts net n tasks) = true →
  (length (List.filter is_fetched (attempts net n tasks))
   + failures (attempts net n tasks) = length tasks)%nat.
Proof.
  revert n. induction tasks as [|[u p] tasks IH]; intros n; [done|].
  cbn [attempts forallb snd]. intros [Hout Hall]%andb_true_iff.
  specialize (IH (S n) Hall). unfold failures in *.
  cbn [List.filter is_fetched is_failure snd].
  destruct (net n u); try discriminate Hout; simpl; lia.
Qed.

Lemma outcome_unique (new : list (string * fetch_outcome)) (u : string)
    (a b : fetch_outcome) :
  NoDup (fst <$> new) → (u, a) ∈ new → (u, b) ∈ new → a = b.
Proof.
  induction new as [|[v c] new IH]; intros Hnd Ha Hb; [by apply elem_of_nil in Ha|].
  rewrite fmap_cons in Hnd. apply NoDup_cons in Hnd as [Hv Hnd].
  apply elem_of_cons in Ha as [Ha|Ha]; apply elem_of_cons in Hb as [Hb|Hb].
  - congruence.
  - injection Ha as <- <-. exfalso. apply Hv.
    apply list_elem_of_fmap. by exists (u, b).
  - injection Hb as <- <-. exfalso. apply Hv.
    apply list_elem_of_fmap. by exists (u, a).
  - by apply IH.
Qed.

(** C3.  With the client started, every URL accepted by [urlparse], the
    existence test of every target answered, and every fetch that is
    attempted - one for each missing file, in order, the first being the
    next request - either answered and written or failed with an
    [httpx.HTTPError]: [download_product_images] raises nothing and returns
    as many records as there are URLs less the fetches that fail.  The
    records are those of the URLs whose file was on disk, in order, followed
    by those of the URLs whose fetch was answered, in order; the answered
    fetches are written to their targets; and in a sequence without repeats
    no URL whose fetch failed has a record. *)
Theorem partial_failure_containment (product_id : string) (urls : list string)
    (w : World) :
  let tasks := missing L self w product_id 1 urls in
  let tried := attempts net (requests w) tasks in
  started self = true →
  forallb (answered w) (targets L self product_id 1 urls) = true →
  forallb (fun a => returns (snd a)) tried = true →
  ∃ images w',
    download_product_images L net now_at self product_id urls w = (Ok images, w')
    ∧ original_url <$> images
      = found L self w product_id 1 urls ++ (fst <$> List.filter is_fetched tried)
    ∧ (length images + failures tried = length urls)%nat
    ∧ log w' = log w ++ tried
    ∧ files w' = stored net (requests w) tasks (files w)
    ∧ (NoDup urls →
       ∀ u msg, (u, HttpFailure msg) ∈ tried → u ∉ original_url <$> images).
Proof.
  intros tasks tried Hstarted Hanswered Hreturns.
  unfold download_product_images, io_bind.
  destruct (scan_existing_plan product_id urls 1 [] [] w Hanswered)
    as (images0 & tasks0 & w0 & -> & Hfound & Hmissing & Hfiles0 & Hreq0 & Hlog0 & _).
  cbn [fst snd app]. fold tasks in Hmissing.
  assert (Htried : attempts net (requests w0) (task_pair <$> tasks0) = tried)
    by (by rewrite Hmissing, Hreq0).
  destruct (run_tasks_plan tasks0 Hstarted images0 w0)
    as (images1 & w' & -> & Hurls & Hlog & Hfiles & _); [by rewrite Htried|].
  rewrite Htried in Hurls, Hlog. rewrite Hmissing, Hreq0, Hfiles0 in Hfiles.
  rewrite Hlog0 in Hlog.
  pose proof (found_missing L self w product_id urls 1 Hanswered) as Hperm.
  fold tasks in Hperm.
  assert (Himages : original_url <$> images0 ++ images1
                    = found L self w product_id 1 urls
                        ++ (fst <$> List.filter is_fetched tried))
    by (by rewrite fmap_app, Hfound, Hurls).
  exists (images0 ++ images1), w'.
  split; [done|]. split; [exact Himages|]. split; [|split; [exact Hlog|split]].
  - rewrite <- (length_fmap original_url), Himages, length_app, length_fmap.
    pose proof (Permutation_length Hperm) as Hlen.
    rewrite length_app, length_fmap in Hlen.
    pose proof (attempts_count (requests w) tasks Hreturns) as Hcount.
    fold tried in Hcount.
    lia.
  - exact Hfiles.
  - intros Hnd u msg Hfail. rewrite <- Hperm in Hnd.
    apply NoDup_app in Hnd as (_ & Hdisj & Hnd).
    rewrite <- (attempts_urls (requests w)) in Hnd, Hdisj. fold tried in Hnd, Hdisj.
    rewrite Himages. intros [Hin|Hin]%elem_of_app.
    + apply (Hdisj u Hin). apply list_elem_of_fmap. by exists (u, HttpFailure msg).
    + apply list_elem_of_fmap in Hin as ([v o] & Hv & Hin). simpl in Hv. subst v.
      apply list_elem_of_In, List.filter_In in Hin as [Hin Ho].
      apply list_elem_of_In in Hin.
      pose proof (outcome_unique tried u _ _ Hnd Hfail Hin) as <-.
      discriminate Ho.
Qed.

End Facts.

(** The theorem of C10 where no metadata file exists. *)
Lemma unreadable_metadata_skips_nothing_witness :
  files Sample.empty_world !! Pathlib.to_str (metadata_file Sample.downloader) = None
  ∧ refused Sample.empty_world (Pathlib.to_str (metadata_file Sample.downloader))
    = None
  ∧ get_downloaded_product_ids Sample.parse_metadata Sample.downloader
      Sample.empty_world
    = (Ok ∅, Sample.empty_world).
Proof.
  split; [reflexivity|]. split; [reflexivity|].
  apply (unreadable_metadata_skips_nothing Sample.parse_metadata Sample.downloader
           Sample.empty_world).
  left. split; reflexivity.
Defined.

(** C10 as it is written fails where no metadata file exists and the OS
    refuses to look at its path, here for a name of 300 bytes: the
    existence test raises, and so do [load_metadata] and
    [get_downloaded_product_ids]. *)
Lemma refused_metadata_path_raises :
  files Fixture.strict_world !! Pathlib.to_str (metadata_file Fixture.long_metadata)
  = None
  ∧ load_metadata Sample.parse_metadata Fixture.long_metadata Fixture.strict_world
    = (Raise (OSError (Fixture.errno36
                         (Pathlib.to_str (metadata_file Fixture.long_metadata)))),
       Fixture.strict_world)
  ∧ get_downloaded_product_ids Sample.parse_metadata Fixture.long_metadata
      Fixture.strict_world
    = (Raise (OSError (Fixture.errno36
                         (Pathlib.to_str (metadata_file Fixture.long_metadata)))),
       Fixture.strict_world).
Proof. split; [reflexivity|]. split; vm_compute; reflexivity. Qed.

(** The theorem of C3 at five URLs, no file on disk, and a network on
    which every second request fails: three records. *)
Lemma partial_failure_containment_witness :
  started Sample.downloader = true
  ∧ forallb (answered Sample.empty_world)
      (targets Sample.lib Sample.downloader "classic-tee" 1 Sample.five_urls) = true
  ∧ failures (attempts Sample.net 0
                (missing Sample.lib Sample.downloader Sample.empty_world
                   "classic-tee" 1 Sample.five_urls)) = 2%nat
  ∧ ∃ images w',
      download_product_images Sample.lib Sample.net Sample.now_at Sample.downloader
        "classic-tee" Sample.five_urls Sample.empty_world
      = (Ok images, w')
      ∧ length images = 3%nat.
Proof.
  assert (Hanswered : forallb (answered Sample.empty_world)
            (targets Sample.lib Sample.downloader "classic-tee" 1 Sample.five_urls)
          = true) by (vm_compute; reflexivity).
  assert (Hfail : failures (attempts Sample.net 0
                    (missing Sample.lib Sample.downloader Sample.empty_world
                       "classic-tee" 1 Sample.five_urls)) = 2%nat)
    by (vm_compute; reflexivity).
  split; [reflexivity|]. split; [exact Hanswered|]. split; [exact Hfail|].
  destruct (partial_failure_containment Sample.lib Sample.net Sample.now_at
              Sample.downloader "classic-tee" Sample.five_urls Sample.empty_world
              eq_refl Hanswered)
    as (images & w' & Hrun & _ & Hlen & _); [vm_compute; reflexivity|].
  exists images, w'. split; [exact Hrun|].
  change (requests Sample.empty_world) with 0%nat in Hlen. rewrite Hfail in Hlen.
  change (length Sample.five_urls) with 5%nat in Hlen. lia.
Defined.

(** C3 as it is written fails for a product identifier of 300 bytes: the
    fetch of its one image would be answered, and the existence test of the
    target raises before it is sent. *)
Lemma long_product_id_raises :
  Fixture.net_ok 0 "https://ggstore.com/cdn/shop/files/tee-1.jpg"
  = Fetched "image bytes"
  ∧ ∃ msg,
      download_product_images Sample.lib Fixture.net_ok Sample.now_at
        Sample.downloader Fixture.long_name
        ["https://ggstore.com/cdn/shop/files/tee-1.jpg"] Fixture.strict_world
      = (Raise (OSError msg), Fixture.strict_world).
Proof. split; [reflexivity|]. eexists. vm_compute. reflexivity. Qed.

End DownloaderFacts.

(** ** Texts *)

Module StrFacts.
Import Str.

Lemma app_cons (c : ascii) (s t : string) : String c s +:+ t = String c (s +:+ t).
Proof. done. Qed.

Lemma app_nil_r (s : string) : s +:+ "" = s.
Proof. induction s as [|c s IH]; [done|]. by rewrite app_cons, IH. Qed.

Lemma app_assoc (a b c : string) : (a +:+ b) +:+ c = a +:+ b +:+ c.
Proof. induction a as [|x a IH]; [done|]. by rewrite !app_cons, IH. Qed.

Lemma app_nil_l (s : string) : "" +:+ s = s.
Proof. done. Qed.

Lemma free_app (p : ascii → bool) (a b : string) :
  free p (a +:+ b) = free p a && free p b.
Proof.
  induction a as [|x a IH]; [done|]. rewrite app_cons. unfold free in *.
  cbn [forallb]. rewrite IH. by rewrite andb_assoc.
Qed.

Lemma free_cons (p : ascii → bool) (c : ascii) (s : string) :
  free p (String c s) = negb (p c) && free p s.
Proof. done. Qed.

Lemma break_eq (p : ascii → bool) (s : string) :
  fst (break p s) +:+ snd (break p s) = s.
Proof.
  induction s as [|c s IH]; [done|]. cbn [break].
  destruct (p c); [done|]. destruct (break p s) as [a b]. cbn [fst snd] in *.
  by rewrite app_cons, IH.
Qed.

Lemma break_free (p : ascii → bool) (s : string) : free p (fst (break p s)) = true.
Proof.
  induction s as [|c s IH]; [done|]. cbn [break].
  destruct (p c) eqn:Hc; [done|]. destruct (break p s) as [a b]. cbn in *.
  by rewrite Hc, IH.
Qed.

Lemma break_stops (p : ascii → bool) (s : string) : stops p (snd (break p s)) = true.
Proof.
  induction s as [|c s IH]; [done|]. cbn [break].
  destruct (p c) eqn:Hc; [done|]. by destruct (break p s) as [a b].
Qed.

Lemma break_app (p : ascii → bool) (a b : string) :
  free p a = true → stops p b = true → break p (a +:+ b) = (a, b).
Proof.
  induction a as [|x a IH]; intros Ha Hb.
  - rewrite app_nil_l. destruct b as [|c b]; [done|]. cbn [break stops] in *.
    by rewrite Hb.
  - rewrite free_cons in Ha. apply andb_true_iff in Ha as [Hx Ha].
    rewrite app_cons. cbn [break]. apply negb_true_iff in Hx. rewrite Hx.
    by rewrite (IH Ha Hb).
Qed.

Lemma break_free_all (p : ascii → bool) (s : string) :
  free p s = true → break p s = (s, "").
Proof. intros H. rewrite <- (app_nil_r s) at 1. by apply break_app. Qed.

Lemma remove_free (p : ascii → bool) (s : string) : free p s = true → remove p s = s.
Proof.
  induction s as [|c s IH]; [done|]. rewrite free_cons. intros [Hc Hs]%andb_true_iff.
  cbn [remove]. apply negb_true_iff in Hc. by rewrite Hc, IH.
Qed.

Lemma free_remove (p : ascii → bool) (s : string) : free p (remove p s) = true.
Proof.
  induction s as [|c s IH]; [done|]. cbn [remove]. destruct (p c) eqn:Hc; [done|].
  by rewrite free_cons, Hc.
Qed.

Lemma lstrip_stops (p : ascii → bool) (s : string) :
  stops (fun c => negb (p c)) (lstrip p s) = true.
Proof.
  induction s as [|c s IH]; [done|]. cbn [lstrip]. destruct (p c) eqn:Hc; [done|].
  cbn [stops]. by rewrite Hc.
Qed.

Lemma lstrip_id (p : ascii → bool) (s : string) :
  stops (fun c => negb (p c)) s = true → lstrip p s = s.
Proof. destruct s as [|c s]; [done|]. cbn [stops lstrip]. by intros ->%negb_true_iff. Qed.

Lemma free_drop (p : ascii → bool) (n : nat) (s : string) :
  free p s = true → free p (drop n s) = true.
Proof.
  revert s. induction n as [|n IH]; intros [|c s]; try done.
  rewrite free_cons. intros [_ Hs]%andb_true_iff. by apply IH.
Qed.

Lemma free_break (p q : ascii → bool) (s : string) :
  free p s = true →
  free p (fst (break q s)) = true ∧ free p (snd (break q s)) = true.
Proof.
  intros H. rewrite <- (break_eq q s), free_app in H.
  by apply andb_true_iff in H.
Qed.

(** Two ways of cutting one text. *)
Lemma app_eq_app (a b c d : string) :
  a +:+ b = c +:+ d →
  (∃ e, c = a +:+ e ∧ b = e +:+ d) ∨ (∃ e, a = c +:+ e ∧ d = e +:+ b).
Proof.
  revert c. induction a as [|x a IH]; intros c H.
  - left. exists c. by rewrite !app_nil_l in *.
  - destruct c as [|y c].
    + right. exists (String x a). by rewrite !app_nil_l in *.
    + rewrite !app_cons in H. injection H as -> H.
      destruct (IH c H) as [(e & -> & ->)|(e & -> & ->)].
      * left. by exists e.
      * right. by exists e.
Qed.

Lemma stops_app (p : ascii → bool) (a b : string) :
  a ≠ "" → stops p (a +:+ b) = stops p a.
Proof. by destruct a. Qed.

End StrFacts.

(** ** URL parsing *)

Module UrlFacts.
Import Str Urllib StrFacts.

Lemma is_char_eq (c d : ascii) : is_char c d = true → d = c.
Proof. unfold is_char. by intros ->%Ascii.eqb_eq. Qed.

Lemma split_once_free (c : ascii) (s : string) :
  free (is_char c) s = true → split_once c s = (s, "").
Proof. intros H. unfold split_once. by rewrite break_free_all. Qed.

Lemma split_once_app (c : ascii) (a b : string) :
  free (is_char c) a = true → split_once c (a +:+ String c b) = (a, b).
Proof.
  intros H. unfold split_once. rewrite break_app; [done|done|].
  cbn [stops]. unfold is_char. apply Ascii.eqb_refl.
Qed.

Lemma split_once_spec (c : ascii) (s : string) :
  free (is_char c) (fst (split_once c s)) = true
  ∧ (s = fst (split_once c s) ∧ snd (split_once c s) = ""
     ∨ s = fst (split_once c s) +:+ String c (snd (split_once c s))).
Proof.
  unfold split_once. pose proof (break_eq (is_char c) s) as Heq.
  pose proof (break_free (is_char c) s) as Hfree.
  pose proof (break_stops (is_char c) s) as Hstop.
  destruct (break (is_char c) s) as [a b]. cbn [fst snd] in *.
  destruct b as [|d b].
  - rewrite app_nil_r in Heq. subst a. split; [done|]. by left.
  - cbn [stops] in Hstop. apply is_char_eq in Hstop as ->. cbn [fst snd].
    split; [done|]. by right.
Qed.

(** *** [rbreak] *)

Lemma rbreak_eq (p : ascii → bool) (s : string) :
  fst (rbreak p s) +:+ snd (rbreak p s) = s.
Proof.
  induction s as [|c s IH]; [done|]. cbn [rbreak].
  destruct (rbreak p s) as [h t]. cbn [fst snd] in IH.
  destruct h as [|x h].
  - rewrite app_nil_l in IH. subst t. by destruct (p c).
  - cbn [fst snd]. by rewrite app_cons, IH.
Qed.

Lemma rbreak_free (p : ascii → bool) (s : string) : free p (snd (rbreak p s)) = true.
Proof.
  induction s as [|c s IH]; [done|]. cbn [rbreak].
  destruct (rbreak p s) as [h t]. cbn [fst snd] in IH.
  destruct h as [|x h]; [|done].
  destruct (p c) eqn:Hc; [done|]. cbn [snd]. by rewrite free_cons, Hc.
Qed.

Lemma rbreak_free_all (p : ascii → bool) (s : string) :
  free p s = true → rbreak p s = ("", s).
Proof.
  induction s as [|c s IH]; [done|]. rewrite free_cons.
  intros [Hc Hs]%andb_true_iff. cbn [rbreak]. rewrite (IH Hs).
  apply negb_true_iff in Hc. by rewrite Hc.
Qed.

Lemma rbreak_app (p : ascii → bool) (h : string) (c : ascii) (t : string) :
  p c = true → free p t = true →
  rbreak p (h +:+ String c t) = (h +:+ String c "", t).
Proof.
  intros Hc Ht. induction h as [|x h IH].
  - rewrite !app_nil_l. cbn [rbreak]. by rewrite (rbreak_free_all p t Ht), Hc.
  - rewrite !app_cons. cbn [rbreak]. rewrite IH.
    destruct h; by rewrite ?app_nil_l, ?app_cons.
Qed.

(** The head returned by [rbreak] is empty or ends with a separator. *)
Lemma rbreak_head (p : ascii → bool) (s : string) :
  fst (rbreak p s) = ""
  ∨ ∃ h c, fst (rbreak p s) = h +:+ String c "" ∧ p c = true.
Proof.
  induction s as [|c s IH]; [by left|]. cbn [rbreak].
  destruct (rbreak p s) as [h t]. cbn [fst] in IH.
  destruct h as [|x h].
  - destruct (p c) eqn:Hc; [|by left]. right. by exists "", c.
  - right. destruct IH as [?|(h' & c' & Hh & Hc')]; [done|].
    exists (String c h'), c'. cbn [fst]. by rewrite Hh.
Qed.

(** The last segment of a text is the last segment of any of its
    suffixes that starts with a separator. *)
Lemma rbreak_suffix (p : ascii → bool) (pre : string) (c : ascii) (s : string) :
  p c = true →
  snd (rbreak p (pre +:+ String c s)) = snd (rbreak p (String c s)).
Proof.
  intros Hc. pose proof (rbreak_eq p s) as Heq.
  pose proof (rbreak_free p s) as Hfree.
  destruct (rbreak_head p s) as [Hh|(h & c' & Hh & Hc')];
    destruct (rbreak p s) as [h0 t]; cbn [fst snd] in *; subst h0.
  - rewrite app_nil_l in Heq. subst t.
    rewrite (rbreak_app p pre c s Hc Hfree).
    by rewrite <- (app_nil_l (String c s)), (rbreak_app p "" c s Hc Hfree).
  - rewrite <- Heq, app_assoc, app_cons, app_nil_l.
    rewrite <- (app_cons c h), <- (app_assoc pre).
    by rewrite !rbreak_app.
Qed.

(** *** Path parameters *)

Lemma join_params_cons (path params : string) :
  join_params path params
  = if negb (String.eqb params "") then path +:+ String ";" params else path.
Proof. done. Qed.

(** Splitting a path and joining it again: the result is a prefix of the
    path, it is tidy, and it is the path itself when the path is tidy. *)
Lemma splitparams_join (pth : string) :
  let url := join_params (fst (_splitparams pth)) (snd (_splitparams pth)) in
  tidy url = true
  ∧ (∃ z, pth = url +:+ z)
  ∧ (tidy pth = true → url = pth).
Proof.
  unfold _splitparams, tidy.
  pose proof (rbreak_eq (is_char "/") pth) as Heq.
  pose proof (rbreak_free (is_char "/") pth) as Hfree.
  pose proof (rbreak_head (is_char "/") pth) as Hhead.
  destruct (rbreak (is_char "/") pth) as [h t] eqn:Hrb. cbn [fst snd] in *.
  pose proof (break_eq (is_char ";") t) as Hbeq.
  pose proof (break_free (is_char ";") t) as Hbfree.
  pose proof (break_stops (is_char ";") t) as Hbstop.
  destruct (break (is_char ";") t) as [a b] eqn:Hbr. cbn [fst snd] in *.
  destruct b as [|c b].
  - cbn [fst snd]. rewrite join_params_cons. cbn [String.eqb negb].
    rewrite Hrb. cbn [snd]. rewrite Hbr. cbn [snd].
    split; [done|]. split; [|done]. exists "". by rewrite app_nil_r.
  - cbn [stops] in Hbstop. apply is_char_eq in Hbstop as ->.
    cbn [fst snd]. rewrite join_params_cons.
    destruct b as [|c b].
    + cbn [String.eqb negb].
      assert (Ha : free (is_char "/") a = true).
      { rewrite <- Hbeq, free_app in Hfree. by apply andb_true_iff in Hfree as [? _]. }
      assert (Hrb' : rbreak (is_char "/") (h +:+ a) = (h, a)).
      { destruct Hhead as [->|(h' & c' & -> & Hc')].
        - rewrite app_nil_l. by apply rbreak_free_all.
        - rewrite app_assoc, app_cons, app_nil_l. by rewrite rbreak_app. }
      rewrite Hrb'. cbn [snd]. rewrite (break_free_all _ _ Hbfree). cbn [snd].
      split; [done|]. split; [|done].
      exists ";". by rewrite app_assoc, Hbeq.
    + assert (Hjoin : (h +:+ a) +:+ String ";" (String c b) = pth).
      { by rewrite app_assoc, Hbeq. }
      replace (negb (String ";" (String c b) =? "")%string) with true by done.
      replace (negb (String c b =? "")%string) with true by done.
      rewrite Hjoin, Hrb. cbn [snd]. rewrite Hbr. cbn [snd].
      split; [done|]. split; [|done]. exists "". by rewrite app_nil_r.
Qed.

(** *** Characters *)

Lemma lower_facts (c : ascii) :
  unsafe_url_byte (lower_ascii c) = unsafe_url_byte c
  ∧ lower_ascii (lower_ascii c) = lower_ascii c
  ∧ is_ascii (lower_ascii c) = is_ascii c
  ∧ is_ascii_alpha (lower_ascii c) = is_ascii_alpha c
  ∧ (mem c scheme_chars = true → mem (lower_ascii c) scheme_chars = true).
Proof.
  destruct c as [[] [] [] [] [] [] [] []]; vm_compute; repeat split; auto.
Qed.

Lemma scheme_char_facts (c : ascii) :
  mem c scheme_chars = true →
  is_char ":" c = false ∧ is_char "#" c = false ∧ unsafe_url_byte c = false.
Proof.
  destruct c as [[] [] [] [] [] [] [] []]; vm_compute; intros H; repeat split;
    auto; discriminate H.
Qed.

Lemma alpha_not_c0 (c : ascii) :
  is_ascii_alpha c = true → c0_control_or_space c = false.
Proof. destruct c as [[] [] [] [] [] [] [] []]; vm_compute; auto. Qed.

Lemma delim_facts (c : ascii) :
  mem c "/?#" = true →
  c0_control_or_space c = false ∧ is_ascii_alpha c = false
  ∧ (is_char "?" c = false → is_char "#" c = false → c = "/"%char).
Proof.
  destruct c as [[] [] [] [] [] [] [] []]; vm_compute; intros H; repeat split;
    auto; discriminate.
Qed.

Lemma unsafe_is_c0 (c : ascii) :
  unsafe_url_byte c = true → c0_control_or_space c = true.
Proof. destruct c as [[] [] [] [] [] [] [] []]; vm_compute; auto. Qed.

(** *** Cleaning *)

Lemma clean_free (x : string) : free unsafe_url_byte (clean x) = true.
Proof. apply free_remove. Qed.

Lemma clean_stops (x : string) :
  stops (fun c => negb (c0_control_or_space c)) (clean x) = true.
Proof.
  unfold clean. pose proof (lstrip_stops c0_control_or_space x) as H.
  destruct (lstrip c0_control_or_space x) as [|c s]; [done|].
  cbn [stops] in H. cbn [remove].
  destruct (unsafe_url_byte c) eqn:Hc; [|done].
  apply unsafe_is_c0 in Hc. by rewrite Hc in H.
Qed.

Lemma clean_id (s : string) :
  free unsafe_url_byte s = true →
  stops (fun c => negb (c0_control_or_space c)) s = true →
  clean s = s.
Proof. intros Hf Hs. unfold clean. by rewrite lstrip_id, remove_free. Qed.

(** *** Schemes *)

Lemma free_str_lower_unsafe (s : string) :
  free unsafe_url_byte (str_lower s) = free unsafe_url_byte s.
Proof.
  induction s as [|c s IH]; [done|]. unfold str_lower in *. cbn [str_map].
  rewrite !free_cons, IH. by destruct (lower_facts c) as (-> & _).
Qed.

Lemma scheme_like_free (head : string) :
  forallb (fun c => mem c scheme_chars) head = true →
  free (is_char ":") head = true ∧ free (is_char "#") head = true.
Proof.
  induction head as [|c s IH]; [done|]. cbn [forallb].
  intros [Hc Hs]%andb_true_iff. rewrite !free_cons.
  destruct (scheme_char_facts c Hc) as (-> & -> & _). by destruct (IH Hs) as [-> ->].
Qed.

Lemma scheme_like_chars (head : string) :
  scheme_like head = true → forallb (fun c => mem c scheme_chars) head = true.
Proof. destruct head; [done|]. unfold scheme_like. by intros [_ ?]%andb_true_iff. Qed.

Lemma split_scheme_found (d head rest : string) :
  scheme_like head = true →
  split_scheme d (head +:+ String ":" rest) = (str_lower head, rest).
Proof.
  intros Hlike. pose proof (scheme_like_chars head Hlike) as Hchars.
  destruct (scheme_like_free head Hchars) as [Hcolon _].
  unfold split_scheme. rewrite break_app; [|done|done].
  destruct head as [|c0 head]; [done|]. unfold scheme_like in Hlike.
  by rewrite Hlike.
Qed.

Lemma split_scheme_cases (d y : string) :
  split_scheme d y = (d, y)
  ∨ ∃ head y1, y = head +:+ String ":" y1 ∧ scheme_like head = true
               ∧ split_scheme d y = (str_lower head, y1).
Proof.
  unfold split_scheme. pose proof (break_eq (is_char ":") y) as Heq.
  pose proof (break_stops (is_char ":") y) as Hstop.
  destruct (break (is_char ":") y) as [head tail]. cbn [fst snd] in *.
  destruct head as [|c0 head]; [by left|]. destruct tail as [|c tail]; [by left|].
  cbn [stops] in Hstop. apply is_char_eq in Hstop as ->.
  destruct (is_ascii c0 && is_ascii_alpha c0
            && forallb (fun c => mem c scheme_chars) (String c0 head)) eqn:Hlike;
    [|by left].
  right. exists (String c0 head), tail. by rewrite Heq.
Qed.

Lemma scheme_chars_lower (s : string) :
  forallb (fun c => mem c scheme_chars) s = true →
  forallb (fun c => mem c scheme_chars) (str_map lower_ascii s) = true.
Proof.
  induction s as [|c s IH]; [done|]. cbn [forallb str_map].
  intros [Hc Hs]%andb_true_iff. destruct (lower_facts c) as (_ & _ & _ & _ & Hl).
  by rewrite (Hl Hc), (IH Hs).
Qed.

Lemma str_lower_idem (s : string) : str_lower (str_lower s) = str_lower s.
Proof.
  unfold str_lower. induction s as [|c s IH]; [done|]. cbn [str_map].
  destruct (lower_facts c) as (_ & -> & _). by rewrite IH.
Qed.

Lemma scheme_like_lower (head : string) :
  scheme_like head = true → valid_scheme (str_lower head) = true.
Proof.
  intros Hlike. unfold valid_scheme. rewrite str_lower_idem, String.eqb_refl, andb_true_r.
  pose proof (scheme_chars_lower head (scheme_like_chars head Hlike)) as Hchars.
  destruct head as [|c0 head]; [done|]. unfold scheme_like in *.
  apply andb_true_iff in Hlike as [[Ha Hb]%andb_true_iff _].
  unfold str_lower. cbn [str_map] in *.
  destruct (lower_facts c0) as (_ & _ & -> & -> & _). by rewrite Ha, Hb, Hchars.
Qed.

Lemma split_scheme_nonalpha (d : string) (c : ascii) (s : string) :
  is_ascii_alpha c = false → split_scheme d (String c s) = (d, String c s).
Proof.
  intros Hc. unfold split_scheme. cbn [break].
  destruct (is_char ":" c); [done|].
  destruct (break (is_char ":") s) as [a [|x b]]; [done|].
  by rewrite Hc, andb_false_r.
Qed.

Lemma mem_free (c : ascii) (s : string) : free (is_char c) s = negb (mem c s).
Proof.
  induction s as [|d s IH]; [done|]. rewrite free_cons, IH. cbn [mem].
  unfold is_char. by rewrite negb_orb.
Qed.

Lemma splitparams_no_semicolon (pth : string) :
  mem ";" pth = false → _splitparams pth = (pth, "").
Proof.
  intros Hmem. unfold _splitparams.
  pose proof (rbreak_eq (is_char "/") pth) as Heq.
  destruct (rbreak (is_char "/") pth) as [h t]. cbn [fst snd] in Heq.
  assert (Ht : free (is_char ";") t = true).
  { pose proof (mem_free ";" pth) as Hf. rewrite Hmem, <- Heq, free_app in Hf.
    by apply andb_true_iff in Hf as [_ ?]. }
  by rewrite (break_free_all _ _ Ht).
Qed.

(** *** The anatomy of a parse *)

Section Parse.
Variable L : PyLib.

Lemma split_netloc_cases (y1 nl y2 : string) :
  split_netloc L y1 = Ok (nl, y2) →
  (nl = "" ∧ y2 = y1 ∧ startswith y1 "//" = false)
  ∨ (y1 = String "/" (String "/" (nl +:+ y2))
     ∧ free (fun c => mem c "/?#") nl = true
     ∧ stops (fun c => mem c "/?#") y2 = true).
Proof.
  unfold split_netloc. destruct (startswith y1 "//") eqn:Hpre.
  - pose proof (break_eq (fun c => mem c "/?#") (drop 2 y1)) as Heq.
    pose proof (break_free (fun c => mem c "/?#") (drop 2 y1)) as Hfree.
    pose proof (break_stops (fun c => mem c "/?#") (drop 2 y1)) as Hstop.
    destruct (break _ (drop 2 y1)) as [a b]. cbn [fst snd] in *.
    destruct (check_brackets L a); cbn [rbind]; [|done].
    intros [= <- <-]. right. split; [|done].
    unfold startswith in Hpre. destruct y1 as [|c1 [|c2 y]]; try done.
    { cbn [String.prefix] in Hpre. by destruct (ascii_dec "/" c1). }
    cbn [String.prefix] in Hpre.
    destruct (ascii_dec "/" c1) as [E1|]; [|done].
    destruct (ascii_dec "/" c2) as [E2|]; [|done].
    subst c1 c2. cbn [drop] in Heq. by rewrite Heq.
  - intros [= <- <-]. by left.
Qed.

Lemma split_netloc_built (nl rest : string) :
  free (fun c => mem c "/?#") nl = true →
  stops (fun c => mem c "/?#") rest = true →
  split_netloc L (String "/" (String "/" (nl +:+ rest)))
  = (try! _ := check_brackets L nl in Ok (nl, rest)).
Proof.
  intros Hnl Hrest. unfold split_netloc.
  replace (startswith (String "/" (String "/" (nl +:+ rest))) "//") with true
    by (by destruct (nl +:+ rest)).
  cbn [drop]. by rewrite break_app.
Qed.

Lemma urlparse_anatomy (x : string) (r : ParseResult) :
  urlparse L x "" = Ok r →
  ∃ y1 y2,
    split_scheme "" (clean x) = (scheme r, y1)
    ∧ split_netloc L y1 = Ok (netloc r, y2)
    ∧ fragment r = snd (split_once "#" y2)
    ∧ query r = snd (split_once "?" (fst (split_once "#" y2)))
    ∧ (path r, params r)
      = let pth := fst (split_once "?" (fst (split_once "#" y2))) in
        if in_list (scheme r) uses_params then _splitparams pth else (pth, "").
Proof.
  unfold urlparse, urlsplit.
  replace (remove unsafe_url_byte (strip c0_control_or_space "")) with "" by done.
  destruct (split_scheme "" (clean x)) as [sch y1] eqn:Hsch.
  destruct (split_netloc L y1) as [[nl y2]|e] eqn:Hnl; cbn [rbind]; [|done].
  destruct (split_once "#" y2) as [y3 frag] eqn:Hfrag.
  destruct (split_once "?" y3) as [pth qry] eqn:Hqry.
  destruct (_checknetloc L nl); cbn [rbind]; [|done].
  cbn [scheme path]. intros Hr. exists y1, y2.
  rewrite Hfrag. cbn [fst snd]. rewrite Hqry. cbn [fst snd]. cbv zeta.
  destruct (in_list sch uses_params) eqn:Hup; cbn [andb] in Hr.
  - destruct (mem ";" pth) eqn:Hsemi.
    + destruct (_splitparams pth) as [u p] eqn:Hsp. injection Hr as <-.
      cbn [scheme netloc path params query fragment]. by rewrite Hup.
    + injection Hr as <-.
      cbn [scheme netloc path params query fragment].
      by rewrite Hup, splitparams_no_semicolon.
  - injection Hr as <-.
    cbn [scheme netloc path params query fragment]. by rewrite Hup.
Qed.

Lemma with_fragment_app (a b frag : string) :
  with_fragment (a +:+ b) frag = a +:+ with_fragment b frag.
Proof. unfold with_fragment. destruct (negb _); by rewrite ?app_assoc. Qed.

Lemma with_fragment_cases (url frag : string) :
  (frag = "" ∧ with_fragment url frag = url)
  ∨ (frag ≠ "" ∧ with_fragment url frag = url +:+ String "#" frag).
Proof.
  unfold with_fragment. destruct (String.eqb_spec frag "") as [->|Hne]; cbn [negb].
  - by left.
  - by right.
Qed.

Lemma free_prefix (p : ascii → bool) (s a z : string) :
  s = a +:+ z → free p s = true → free p a = true.
Proof. intros -> H. rewrite free_app in H. by apply andb_true_iff in H as [? _]. Qed.

Lemma free_suffix (p : ascii → bool) (s a z : string) :
  s = a +:+ z → free p s = true → free p z = true.
Proof. intros -> H. rewrite free_app in H. by apply andb_true_iff in H as [_ ?]. Qed.

(** What a successful parse says about the URL that [geturl] rebuilds
    from it once the query is dropped. *)
Lemma first_parse_shape (x : string) (r : ParseResult) :
  urlparse L x "" = Ok r →
  let url := join_params (path r) (params r) in
  let n0 := with_fragment url (fragment r) in
  (free unsafe_url_byte (scheme r) = true ∧ free unsafe_url_byte (netloc r) = true
   ∧ free unsafe_url_byte url = true ∧ free unsafe_url_byte (fragment r) = true)
  ∧ (scheme r = "" ∨ valid_scheme (scheme r) = true)
  ∧ free (fun c => mem c "/?#") (netloc r) = true
  ∧ (free (is_char "?") url = true ∧ free (is_char "#") url = true)
  ∧ (netloc r ≠ "" → stops (is_char "/") url = true)
  ∧ (in_list (scheme r) uses_params = true → tidy url = true)
  ∧ (scheme r = "" → netloc r = "" →
     fst (split_scheme "" n0) = ""
     ∧ stops (fun c => negb (c0_control_or_space c)) n0 = true).
Proof.
  intros Hparse url n0.
  destruct (urlparse_anatomy x r Hparse) as (y1 & y2 & Hsch & Hnl & Hfrag & Hqry & Hpp).
  pose proof (clean_free x) as Hyf. pose proof (clean_stops x) as Hys.
  set (y := clean x) in *.
  set (y3 := fst (split_once "#" y2)) in *.
  set (pth := fst (split_once "?" y3)) in *.
  destruct (split_once_spec "#" y2) as [Hy3hash Hy2]. fold y3 in Hy3hash, Hy2.
  rewrite <- Hfrag in Hy2.
  destruct (split_once_spec "?" y3) as [Hpthq Hy3]. fold pth in Hpthq, Hy3.
  rewrite <- Hqry in Hy3.
  assert (Hn0def : n0 = with_fragment url (fragment r)) by done.
  assert (Hudef : url = join_params (path r) (params r)) by done.
  clearbody n0 url y y3 pth.
  (* the joined path is a prefix of the path that was split *)
  assert (Hurl : (∃ z, pth = url +:+ z)
                 ∧ (in_list (scheme r) uses_params = true → tidy url = true)).
  { cbv zeta in Hpp. destruct (in_list (scheme r) uses_params).
    - destruct (splitparams_join pth) as (Ht & Hz & _). rewrite <- Hpp in Ht, Hz.
      cbn [fst snd] in Ht, Hz. rewrite <- Hudef in Ht, Hz. by split.
    - injection Hpp as Hp Hq. rewrite Hp, Hq in Hudef. subst url.
      split; [|done]. exists "". by rewrite app_nil_r. }
  destruct Hurl as [(z & Hz) Htidy].
  assert (Hy3pth : ∃ w, y3 = pth +:+ w).
  { destruct Hy3 as [[-> _]| ->]; [exists ""; by rewrite app_nil_r|by eexists]. }
  assert (Hy2y3 : ∃ w, y2 = y3 +:+ w).
  { destruct Hy2 as [[-> _]| ->]; [exists ""; by rewrite app_nil_r|by eexists]. }
  assert (Hy2url : ∃ w, y2 = url +:+ w).
  { destruct Hy3pth as [w1 H1], Hy2y3 as [w2 H2]. exists (z +:+ w1 +:+ w2).
    by rewrite H2, H1, Hz, !app_assoc. }
  (* the scheme *)
  assert (Hscheme : (scheme r = "" ∧ y1 = y ∧ split_scheme "" y = ("", y))
                    ∨ (valid_scheme (scheme r) = true
                       ∧ ∃ head, y = head +:+ String ":" y1
                                 ∧ scheme r = str_lower head)).
  { destruct (split_scheme_cases "" y) as [Hno|(head & y1' & Hy & Hlike & Hfound)].
    - rewrite Hsch in Hno. injection Hno as Hs Hy1. left. by rewrite Hsch, Hs, Hy1.
    - rewrite Hsch in Hfound. injection Hfound as Hs Hy1. right. split.
      + rewrite Hs. by apply scheme_like_lower.
      + exists head. by rewrite Hy1, Hs. }
  assert (Hfree1 : free unsafe_url_byte (scheme r) = true
                   ∧ free unsafe_url_byte y1 = true).
  { destruct Hscheme as [(-> & -> & _)|(_ & head & Hy & ->)]; [done|].
    rewrite Hy, free_app, free_cons in Hyf.
    apply andb_true_iff in Hyf as [Hh [_ Hy1]%andb_true_iff].
    by rewrite free_str_lower_unsafe. }
  destruct Hfree1 as [Hschf Hy1f].
  (* the network location *)
  pose proof (split_netloc_cases y1 _ _ Hnl) as Hnetloc.
  assert (Hfree2 : free unsafe_url_byte (netloc r) = true
                   ∧ free unsafe_url_byte y2 = true).
  { destruct Hnetloc as [(-> & -> & _)|(Hy1 & _)]; [done|].
    rewrite Hy1, !free_cons, free_app in Hy1f.
    by apply andb_true_iff in Hy1f as [_ [_ ?%andb_true_iff]%andb_true_iff]. }
  destruct Hfree2 as [Hnlf Hy2f].
  assert (Hfragf : free unsafe_url_byte (fragment r) = true).
  { destruct Hy2 as [[_ ->]|Hy2]; [done|].
    rewrite Hy2, free_app, free_cons in Hy2f.
    by apply andb_true_iff in Hy2f as [_ [_ ?]%andb_true_iff]. }
  destruct Hy2url as [w Hw].
  assert (Hurlf : free unsafe_url_byte url = true) by exact (free_prefix _ _ _ _ Hw Hy2f).
  assert (Hurlq : free (is_char "?") url = true) by exact (free_prefix _ _ _ _ Hz Hpthq).
  assert (Hurlh : free (is_char "#") url = true).
  { destruct Hy3pth as [w1 H1]. apply (free_prefix _ _ _ _ Hz).
    exact (free_prefix _ _ _ _ H1 Hy3hash). }
  (* a URL that follows a network location starts with a slash *)
  assert (Hslash : stops (fun c => mem c "/?#") y2 = true → stops (is_char "/") url = true
                   ∧ stops (fun c => negb (is_ascii_alpha c)) url = true
                   ∧ stops (fun c => negb (c0_control_or_space c)) url = true).
  { intros Hstop. destruct url as [|c u] eqn:Hu; [done|].
    rewrite Hw, app_cons in Hstop. cbn [stops] in *.
    rewrite free_cons in Hurlq, Hurlh.
    apply andb_true_iff in Hurlq as [Hq%negb_true_iff _].
    apply andb_true_iff in Hurlh as [Hh%negb_true_iff _].
    destruct (delim_facts c Hstop) as (-> & -> & Hc). by rewrite (Hc Hq Hh). }
  split; [done|]. split; [destruct Hscheme as [(? & _)|(? & _)]; auto|].
  split; [by destruct Hnetloc as [(-> & _)|(_ & ? & _)]|].
  split; [done|]. split.
  { intros Hne. destruct Hnetloc as [(? & _)|(_ & _ & Hstop)]; [done|].
    by apply Hslash. }
  split; [done|].
  intros Hs0 Hnl0.
  destruct Hscheme as [(_ & Hy1 & Hnone)|(Hvalid & _)];
    [|by rewrite Hs0 in Hvalid].
  rewrite Hy1 in *.
  assert (Hn0 : ∀ c s, url = String c s → n0 = String c (with_fragment s (fragment r))).
  { intros c s Hu. rewrite Hn0def, Hu. unfold with_fragment.
    by destruct (negb _). }
  destruct Hnetloc as [(_ & Hy2y & _)|(Hy & _ & Hstop)].
  - (* no leading double slash *)
    rewrite Hy2y in Hw. split.
    + destruct (split_scheme_cases "" n0) as [->|(head & n1 & Hn & Hlike & _)]; [done|].
      exfalso.
      assert (Hy : ∃ rest, y = head +:+ String ":" rest).
      { rewrite Hn0def in Hn.
        destruct (with_fragment_cases url (fragment r)) as [[_ Hwf]|[_ Hwf]];
          rewrite Hwf in Hn.
        - exists (n1 +:+ w). by rewrite Hw, Hn, app_assoc, app_cons.
        - symmetry in Hn.
          destruct (scheme_like_free head (scheme_like_chars head Hlike)) as [_ Hhash].
          destruct (app_eq_app _ _ _ _ Hn) as [(e & Hu & He)|(e & Hh & He)].
          + destruct e as [|c e]; [by rewrite app_nil_l in He|].
            rewrite app_cons in He. injection He as -> He.
            exists (e +:+ w). by rewrite Hw, Hu, app_assoc, app_cons.
          + destruct e as [|c e]; [by rewrite app_nil_l in He|].
            rewrite app_cons in He. injection He as <- He.
            rewrite Hh, free_app, free_cons in Hhash.
            by apply andb_true_iff in Hhash as [_ ?]. }
      destruct Hy as [rest Hy].
      rewrite Hy, (split_scheme_found "" head rest Hlike) in Hnone.
      injection Hnone as Hl _. destruct head; [done|]. done.
    + destruct url as [|c u] eqn:Hu.
      * rewrite Hn0def. unfold with_fragment. by destruct (negb _).
      * rewrite (Hn0 c u eq_refl). cbn [stops].
        rewrite Hw, app_cons in Hys. exact Hys.
  - (* an empty network location *)
    destruct (Hslash Hstop) as (_ & Halpha & Hc0).
    destruct url as [|c u] eqn:Hu.
    + rewrite Hn0def. unfold with_fragment. destruct (negb _); [|done].
      rewrite app_nil_l, app_cons, app_nil_l. split; [|done].
      by rewrite split_scheme_nonalpha.
    + rewrite (Hn0 c u eq_refl). cbn [stops] in *. split; [|done].
      rewrite split_scheme_nonalpha; [done|]. by apply negb_true_iff.
Qed.

Lemma free_with_fragment (url frag : string) :
  free unsafe_url_byte url = true → free unsafe_url_byte frag = true →
  free unsafe_url_byte (with_fragment url frag) = true.
Proof.
  intros Hu Hf. unfold with_fragment. destruct (negb _); [|done].
  by rewrite free_app, Hu, app_cons, app_nil_l, free_cons, Hf.
Qed.

Lemma valid_scheme_facts (sch : string) :
  valid_scheme sch = true →
  scheme_like sch = true ∧ str_lower sch = sch
  ∧ stops (fun c => negb (c0_control_or_space c)) sch = true ∧ sch ≠ "".
Proof.
  unfold valid_scheme. intros [Hlike Hlow%String.eqb_eq]%andb_true_iff.
  split; [done|]. split; [done|]. destruct sch as [|c0 s]; [done|]. split; [|done].
  unfold scheme_like in Hlike.
  apply andb_true_iff in Hlike as [[_ Ha]%andb_true_iff _].
  cbn [stops]. by rewrite (alpha_not_c0 c0 Ha).
Qed.

(** Parsing a URL put together from a scheme, a network location, a path
    that is empty or starts with a slash, and a fragment. *)
Lemma reparse_built (sch nl u frag : string) :
  valid_scheme sch = true → in_list sch uses_params = true →
  free unsafe_url_byte sch = true → free unsafe_url_byte nl = true →
  free unsafe_url_byte u = true → free unsafe_url_byte frag = true →
  free (fun c => mem c "/?#") nl = true →
  stops (is_char "/") u = true →
  free (is_char "?") u = true → free (is_char "#") u = true →
  urlparse L (sch +:+ String ":" (String "/" (String "/" (nl +:+ with_fragment u frag)))) ""
  = (try! _ := check_brackets L nl in
     try! _ := _checknetloc L nl in
     Ok (mkParseResult sch nl (fst (_splitparams u)) (snd (_splitparams u)) "" frag)).
Proof.
  intros Hvalid Hup Hschf Hnlf Huf Hfragf Hnl Hslash Hq Hh.
  destruct (valid_scheme_facts sch Hvalid) as (Hlike & Hlow & Hc0 & Hne).
  set (wf := with_fragment u frag).
  set (n := sch +:+ String ":" (String "/" (String "/" (nl +:+ wf)))).
  assert (Hclean : clean n = n).
  { apply clean_id.
    - subst n wf. rewrite free_app, !free_cons, free_app, Hschf, Hnlf.
      by rewrite free_with_fragment.
    - subst n. by rewrite stops_app. }
  assert (Hwf : stops (fun c => mem c "/?#") wf = true).
  { subst wf. destruct u as [|c u'].
    - unfold with_fragment. by destruct (negb _).
    - cbn [stops] in Hslash. apply is_char_eq in Hslash as ->.
      unfold with_fragment. by destruct (negb _). }
  assert (Hsplit : split_once "#" wf = (u, frag)).
  { subst wf. destruct (with_fragment_cases u frag) as [[-> ->]|[_ ->]].
    - by apply split_once_free.
    - by apply split_once_app. }
  unfold urlparse, urlsplit. rewrite Hclean.
  replace (remove unsafe_url_byte (strip c0_control_or_space "")) with "" by done.
  subst n. rewrite (split_scheme_found "" sch _ Hlike), Hlow.
  rewrite (split_netloc_built nl wf Hnl Hwf).
  destruct (check_brackets L nl); cbn [rbind]; [|done].
  rewrite Hsplit, (split_once_free "?" u Hq).
  destruct (_checknetloc L nl); cbn [rbind]; [|done].
  cbn [scheme path]. rewrite Hup. cbn [andb].
  destruct (mem ";" u) eqn:Hsemi.
  - by destruct (_splitparams u).
  - by rewrite splitparams_no_semicolon.
Qed.

(** Putting such a parse together again. *)
Lemma unparse_built (sch nl u frag : string) :
  sch ≠ "" → nl ≠ "" → stops (is_char "/") u = true → tidy u = true →
  urlunparse
    (replace_query ""
       (mkParseResult sch nl (fst (_splitparams u)) (snd (_splitparams u)) "" frag))
  = sch +:+ String ":" (String "/" (String "/" (nl +:+ with_fragment u frag))).
Proof.
  intros Hsch Hnl Hslash Htidy.
  destruct (splitparams_join u) as (_ & _ & Hjoin). specialize (Hjoin Htidy).
  unfold urlunparse, replace_query. cbn [scheme netloc path params query fragment].
  change (if negb (snd (_splitparams u) =? "")%string
          then fst (_splitparams u) +:+ ";" +:+ snd (_splitparams u)
          else fst (_splitparams u))
    with (join_params (fst (_splitparams u)) (snd (_splitparams u))).
  rewrite Hjoin. unfold urlunsplit.
  apply String.eqb_neq in Hsch, Hnl. rewrite Hsch, Hnl. cbn [negb orb String.eqb].
  replace (negb (u =? "")%string && negb (take 1 u =? "/")%string) with false.
  2:{ destruct u as [|c u']; [done|]. cbn [stops] in Hslash.
      apply is_char_eq in Hslash as ->. by destruct u'. }
  unfold with_fragment.
  destruct (negb (frag =? "")%string);
    by rewrite ?app_assoc, ?app_cons, ?app_nil_l.
Qed.

Lemma geturl_unfold (r : ParseResult) :
  urlunparse (replace_query "" r)
  = urlunsplit (scheme r) (netloc r) (join_params (path r) (params r)) ""
      (fragment r).
Proof. done. Qed.

Lemma with_scheme_cases (sch url : string) :
  (sch = "" ∧ with_scheme sch url = url)
  ∨ (sch ≠ "" ∧ with_scheme sch url = sch +:+ String ":" url).
Proof.
  unfold with_scheme. destruct (String.eqb_spec sch "") as [->|Hne]; cbn [negb].
  - by left.
  - by right.
Qed.

(** The two forms [urlunsplit] gives a URL without a query: with the
    double slash of a network location, or the path alone. *)
Lemma urlunsplit_cases (sch nl url frag : string) :
  (∃ url', stops (is_char "/") url' = true
           ∧ (url' = url ∨ url' = String "/" url)
           ∧ (stops (is_char "/") url = true → url' = url)
           ∧ urlunsplit sch nl url "" frag
             = with_scheme sch
                 (String "/" (String "/" (nl +:+ with_fragment url' frag))))
  ∨ (nl = ""
     ∧ (sch = "" ∨ in_list sch uses_netloc = false ∨ take 2 url = "//")
     ∧ urlunsplit sch nl url "" frag = with_scheme sch (with_fragment url frag)).
Proof.
  unfold urlunsplit. cbn [String.eqb negb].
  destruct (negb (nl =? "")%string
            || negb (sch =? "")%string && in_list sch uses_netloc
               && negb (take 2 url =? "//")%string) eqn:Hcond.
  - left.
    exists (if negb (url =? "")%string && negb (take 1 url =? "/")%string
            then "/" +:+ url else url).
    split; [|split; [|split]].
    + destruct url as [|c u]; [done|]. cbn [String.eqb negb andb].
      destruct (String.eqb_spec (take 1 (String c u)) "/") as [Heq|Hne]; cbn [negb].
      * cbn [take] in Heq. destruct u; by injection Heq as ->.
      * done.
    + destruct (negb (url =? "")%string && negb (take 1 url =? "/")%string);
        [by right|by left].
    + intros Hs. destruct url as [|c u]; [done|]. cbn [stops] in Hs.
      apply is_char_eq in Hs as ->. by destruct u.
    + unfold with_scheme, with_fragment.
      destruct (negb (sch =? "")%string), (negb (frag =? "")%string);
        by rewrite ?app_assoc, ?app_cons, ?app_nil_l.
  - right. apply orb_false_iff in Hcond as [Hnl Hrest].
    apply negb_false_iff, String.eqb_eq in Hnl. split; [done|]. split.
    + destruct (String.eqb_spec sch "") as [?|_]; [by left|]. cbn [negb andb] in Hrest.
      destruct (in_list sch uses_netloc); [|by right; left]. cbn [andb] in Hrest.
      right; right. by apply negb_false_iff, String.eqb_eq in Hrest.
    + unfold with_scheme, with_fragment.
      destruct (negb (sch =? "")%string), (negb (frag =? "")%string);
        by rewrite ?app_assoc, ?app_cons, ?app_nil_l.
Qed.

(** The URL rebuilt from a parse is clean, and its scheme is found again. *)
Lemma geturl_clean_scheme (x : string) (r : ParseResult) :
  urlparse L x "" = Ok r →
  let n := urlunparse (replace_query "" r) in
  clean n = n ∧ fst (split_scheme "" n) = scheme r.
Proof.
  intros Hparse n.
  destruct (first_parse_shape x r Hparse)
    as ((Hschf & Hnlf & Hurlf & Hfragf) & Hsch & _ & _ & _ & _ & Hnone).
  subst n. rewrite geturl_unfold.
  set (url := join_params (path r) (params r)) in *.
  assert (Hbody : ∀ body,
            free unsafe_url_byte body = true →
            (scheme r = "" →
             fst (split_scheme "" body) = ""
             ∧ stops (fun c => negb (c0_control_or_space c)) body = true) →
            clean (with_scheme (scheme r) body) = with_scheme (scheme r) body
            ∧ fst (split_scheme "" (with_scheme (scheme r) body)) = scheme r).
  { intros body Hbf Hb0.
    destruct (with_scheme_cases (scheme r) body) as [[Hs ->]|[Hs ->]].
    - destruct (Hb0 Hs) as [Hb1 Hb2]. rewrite Hs. split; [by apply clean_id|done].
    - destruct Hsch as [?|Hvalid]; [done|].
      destruct (valid_scheme_facts _ Hvalid) as (Hlike & Hlow & Hc0 & _).
      split.
      + apply clean_id.
        * by rewrite free_app, free_cons, Hschf, Hbf.
        * by rewrite stops_app.
      + by rewrite (split_scheme_found "" _ _ Hlike), Hlow. }
  destruct (urlunsplit_cases (scheme r) (netloc r) url (fragment r))
    as [(url' & _ & Hurl' & _ & ->)|(Hnl & _ & ->)].
  - apply Hbody.
    + rewrite !free_cons, free_app, Hnlf. cbn [negb andb].
      apply free_with_fragment; [|done]. by destruct Hurl' as [->| ->].
    + intros _. by rewrite split_scheme_nonalpha.
  - apply Hbody; [by apply free_with_fragment|]. intros Hs. by apply Hnone.
Qed.

Lemma with_fragment_cons (c : ascii) (s frag : string) :
  with_fragment (String c s) frag = String c (with_fragment s frag).
Proof. unfold with_fragment. by destruct (negb _). Qed.

Lemma http_scheme_facts (sch : string) :
  sch = "http" ∨ sch = "https" →
  valid_scheme sch = true ∧ in_list sch uses_params = true
  ∧ in_list sch uses_netloc = true ∧ sch ≠ "".
Proof. by intros [-> | ->]. Qed.

Lemma tidy_suffix (pre b : string) :
  stops (is_char "/") b = true → tidy (pre +:+ b) = true → tidy b = true.
Proof.
  destruct b as [|c b]; [done|]. cbn [stops]. intros ->%is_char_eq.
  unfold tidy. by rewrite rbreak_suffix.
Qed.

Lemma take_two_slashes (url : string) :
  take 2 url = "//" → ∃ u, url = String "/" (String "/" u).
Proof.
  destruct url as [|c1 [|c2 u]]; try done. cbn [take].
  intros [= -> ->]. by exists u.
Qed.

(** A URL rebuilt from a parse, when it parses again with the scheme
    [http] or [https] and a network location, is rebuilt from that second
    parse unchanged. *)
Lemma geturl_fixpoint (x : string) (r r2 : ParseResult) :
  urlparse L x "" = Ok r →
  urlparse L (urlunparse (replace_query "" r)) "" = Ok r2 →
  scheme r2 = "http" ∨ scheme r2 = "https" → netloc r2 ≠ "" →
  urlunparse (replace_query "" r2) = urlunparse (replace_query "" r)
  ∧ ∃ rest, urlunparse (replace_query "" r) = scheme r2 +:+ String ":" rest.
Proof.
  intros Hparse Hparse2 Hhttp Hnl2.
  destruct (geturl_clean_scheme x r Hparse) as [Hclean Hs]. cbv zeta in Hclean, Hs.
  destruct (urlparse_anatomy _ r2 Hparse2) as (y1 & _ & Hs2 & _).
  rewrite Hclean in Hs2. rewrite Hs2 in Hs. cbn [fst] in Hs.
  rewrite Hs in *. clear Hs Hs2 Hclean y1.
  destruct (http_scheme_facts _ Hhttp) as (Hvalid & Hup & Hun & Hne).
  destruct (first_parse_shape x r Hparse)
    as ((Hschf & Hnlf & Hurlf & Hfragf) & _ & Hnl & (Hq & Hh) & Hslash & Htidy & _).
  cbv zeta in *. specialize (Htidy Hup).
  rewrite (geturl_unfold r) in *.
  set (url := join_params (path r) (params r)) in *.
  destruct (urlunsplit_cases (scheme r) (netloc r) url (fragment r))
    as [(url' & Hs' & Hurl' & Hsame & Heq)|(Hnl0 & Hcase & Heq)];
    rewrite Heq in *; clear Heq.
  - destruct (with_scheme_cases (scheme r)
                (String "/" (String "/" (netloc r +:+ with_fragment url' (fragment r)))))
      as [[? _]|[_ Hws]]; [done|]. rewrite Hws in *. clear Hws.
    assert (Hfacts : free unsafe_url_byte url' = true
                     ∧ free (is_char "?") url' = true
                     ∧ free (is_char "#") url' = true).
    { destruct Hurl' as [->| ->]; [done|]. by rewrite !free_cons, Hurlf, Hq, Hh. }
    destruct Hfacts as (Hu'f & Hq' & Hh').
    rewrite reparse_built in Hparse2 by done.
    destruct (check_brackets L (netloc r)); cbn [rbind] in Hparse2; [|done].
    destruct (_checknetloc L (netloc r)); cbn [rbind] in Hparse2; [|done].
    injection Hparse2 as <-. cbn [netloc scheme] in *.
    rewrite (Hsame (Hslash Hnl2)) in *. split; [|by eexists].
    by apply unparse_built.
  - destruct Hcase as [?|[Hno|Htwo]]; [done|by rewrite Hun in Hno|].
    destruct (take_two_slashes url Htwo) as [u Hu]. clearbody url. subst url.
    destruct (with_scheme_cases (scheme r)
                (with_fragment (String "/" (String "/" u)) (fragment r)))
      as [[? _]|[_ Hws]]; [done|]. rewrite Hws in *. clear Hws.
    rewrite !with_fragment_cons in *.
    pose proof (break_eq (fun c => mem c "/?#") u) as Heq.
    pose proof (break_free (fun c => mem c "/?#") u) as Hafree.
    pose proof (break_stops (fun c => mem c "/?#") u) as Hbstop.
    rewrite !free_cons in Hurlf, Hq, Hh. cbn [negb andb] in Hurlf, Hq, Hh.
    change (negb (is_char "?" "/")) with true in Hq.
    change (negb (is_char "#" "/")) with true in Hh.
    change (negb (unsafe_url_byte "/")) with true in Hurlf.
    cbn [andb] in Hurlf, Hq, Hh.
    destruct (free_break unsafe_url_byte (fun c => mem c "/?#") u Hurlf) as [Haf Hbf].
    destruct (free_break (is_char "?") (fun c => mem c "/?#") u Hq) as [_ Hbq].
    destruct (free_break (is_char "#") (fun c => mem c "/?#") u Hh) as [_ Hbh].
    destruct (break (fun c => mem c "/?#") u) as [a b]. cbn [fst snd] in *.
    assert (Hbslash : stops (is_char "/") b = true).
    { destruct b as [|c b']; [done|]. cbn [stops] in *.
      rewrite free_cons in Hbq, Hbh.
      apply andb_true_iff in Hbq as [Hcq%negb_true_iff _].
      apply andb_true_iff in Hbh as [Hch%negb_true_iff _].
      destruct (delim_facts c Hbstop) as (_ & _ & Hc). by rewrite (Hc Hcq Hch). }
    rewrite <- Heq in *. rewrite with_fragment_app in *.
    rewrite reparse_built in Hparse2 by done.
    destruct (check_brackets L a); cbn [rbind] in Hparse2; [|done].
    destruct (_checknetloc L a); cbn [rbind] in Hparse2; [|done].
    injection Hparse2 as <-. cbn [netloc scheme] in *.
    split; [|by eexists]. apply unparse_built; [done|done|done|].
    apply (tidy_suffix (String "/" (String "/" a))); [done|].
    by rewrite !app_cons.
Qed.

End Parse.
End UrlFacts.

(** ** The extractor *)

Module ParserFacts.
Import Parser.

(** *** Identifier extraction *)

Lemma replace_go_nonempty (old new : string) (c : ascii) (s : string) :
  new ≠ "" → Str.replace_go old new 0 (String c s) ≠ "".
Proof.
  intros Hnew. cbn [Str.replace_go].
  destruct (String.prefix old (String c s)); [|done].
  destruct new; [done|]. discriminate.
Qed.

Lemma replace_empty_iff (s : string) : Str.replace "/" "-" s = "" ↔ s = "".
Proof.
  split; [|by intros ->].
  destruct s as [|c s]; [done|]. intros H. by apply replace_go_nonempty in H.
Qed.

Section Facts.
Variable L : PyLib.

(** C7 (amended).  For every URL that [urlparse] accepts,
    [_extract_product_id] returns the path segment that follows the first
    [products] segment when there is one, and otherwise the path with its
    outer slashes stripped and its inner slashes replaced by dashes; the
    result is empty exactly when that following segment is empty or the
    stripped path is empty. *)
Theorem product_id_shape (url : string) (parsed : Urllib.ParseResult) :
  Urllib.urlparse L url "" = Ok parsed →
  let stripped := Str.strip (Ascii.eqb "/") (Urllib.path parsed) in
  let parts := Str.split "/" stripped in
  ∃ s, _extract_product_id L url = Ok s
    ∧ match Str.index "products" parts with
      | Some idx =>
          if (idx + 1 <? length parts)%nat
          then parts !! (idx + 1)%nat = Some s
          else s = Str.replace "/" "-" stripped
      | None => s = Str.replace "/" "-" stripped
      end
    ∧ (s = "" ↔
       stripped = ""
       ∨ ∃ idx, Str.index "products" parts = Some idx
                ∧ parts !! (idx + 1)%nat = Some "").
Proof.
  intros Hparse stripped parts. unfold _extract_product_id. rewrite Hparse.
  cbn [rbind]. fold stripped. fold parts.
  assert (Hstripped : stripped = "" → Str.index "products" parts = None).
  { intros Hs. subst parts. by rewrite Hs. }
  destruct (Str.index "products" parts) as [idx|] eqn:Hidx.
  - destruct (Nat.ltb_spec (idx + 1) (length parts)) as [Hlt|Hge].
    + exists (nth (idx + 1) parts ""). split; [done|].
      assert (Hnth : parts !! (idx + 1)%nat = Some (nth (idx + 1) parts "")).
      { destruct (lookup_lt_is_Some_2 parts (idx + 1)%nat Hlt) as [x Hx].
        by rewrite (nth_lookup_Some _ _ "" _ Hx). }
      split; [done|]. split.
      * intros Hs. right. exists idx. by rewrite Hnth, Hs.
      * intros [Hs|(idx' & Hidx' & Hnth')]; [by specialize (Hstripped Hs)|].
        injection Hidx' as <-. rewrite Hnth in Hnth'. by injection Hnth'.
    + exists (Str.replace "/" "-" stripped). split; [done|]. split; [done|].
      rewrite replace_empty_iff. split; [by left|].
      intros [Hs|(idx' & Hidx' & Hnth')]; [done|].
      injection Hidx' as <-. apply lookup_lt_Some in Hnth'. lia.
  - exists (Str.replace "/" "-" stripped). split; [done|]. split; [done|].
    rewrite replace_empty_iff. split; [by left|].
    by intros [Hs|(idx' & Hidx' & _)].
Qed.

(** *** Image URL harvesting *)

Variable base_url : string.

Abbreviation add_set := (fun (s : gset string) (u : string) => s ∪ {[ u ]}).
Abbreviation add_list := (fun (l : list string) (u : string) => l ++ [u]).

Lemma harvest_agree (s : gset string) (l : list string) (u : string) :
  s = list_to_set l →
  agree (harvest L base_url add_set s u) (harvest L base_url add_list l u).
Proof.
  intros ->. unfold harvest.
  destruct (_is_product_image L u) as [[|]|e]; cbn [rbind agree]; [|done..].
  destruct (_normalize_url L base_url u) as [n|e]; cbn [rbind agree]; [|done].
  by rewrite list_to_set_snoc_L.
Qed.

Lemma harvest_all_agree (urls : list string) : ∀ (s : gset string) (l : list string),
  s = list_to_set l →
  agree (harvest_all L base_url add_set s urls) (harvest_all L base_url add_list l urls).
Proof.
  induction urls as [|u urls IH]; intros s l Hsl; cbn [harvest_all]; [done|].
  pose proof (harvest_agree s l u Hsl) as Hu.
  destruct (harvest L base_url add_set s u) as [s'|e],
           (harvest L base_url add_list l u) as [l'|e']; cbn [rbind agree] in *;
    try done.
  by apply IH.
Qed.

Lemma harvest_srcset_agree (srcs : list string) : ∀ (s : gset string) (l : list string),
  s = list_to_set l →
  agree (harvest_srcset L base_url add_set s srcs)
        (harvest_srcset L base_url add_list l srcs).
Proof.
  induction srcs as [|src srcs IH]; intros s l Hsl; cbn [harvest_srcset]; [done|].
  destruct (srcset_candidate src) as [u|e]; cbn [rbind agree]; [|done].
  pose proof (harvest_agree s l u Hsl) as Hu.
  destruct (harvest L base_url add_set s u) as [s'|e],
           (harvest L base_url add_list l u) as [l'|e']; cbn [rbind agree] in *;
    try done.
  by apply IH.
Qed.

Lemma harvest_srcsets_agree (srcsets : list string) :
  ∀ (s : gset string) (l : list string),
  s = list_to_set l →
  agree (harvest_srcsets L base_url add_set s srcsets)
        (harvest_srcsets L base_url add_list l srcsets).
Proof.
  induction srcsets as [|srcset srcsets IH]; intros s l Hsl; cbn [harvest_srcsets];
    [done|].
  pose proof (harvest_srcset_agree (Str.split "," srcset) s l Hsl) as Hu.
  destruct (harvest_srcset L base_url add_set s _) as [s'|e],
           (harvest_srcset L base_url add_list l _) as [l'|e']; cbn [rbind agree] in *;
    try done.
  by apply IH.
Qed.

Lemma scan_agree (html : string) :
  agree (scan L base_url add_set ∅ html) (scan L base_url add_list [] html).
Proof.
  unfold scan.
  pose proof (harvest_srcsets_agree (Re.finditer srcset_pattern html) ∅ [] eq_refl) as H1.
  destruct (harvest_srcsets L base_url add_set ∅ _) as [s1|e],
           (harvest_srcsets L base_url add_list [] _) as [l1|e']; cbn [rbind agree] in *;
    try done.
  pose proof (harvest_all_agree (Re.finditer src_pattern html) s1 l1 H1) as H2.
  destruct (harvest_all L base_url add_set s1 _) as [s2|e],
           (harvest_all L base_url add_list l1 _) as [l2|e']; cbn [rbind agree] in *;
    try done.
  pose proof (harvest_all_agree (Re.finditer data_src_pattern html) s2 l2 H2) as H3.
  destruct (harvest_all L base_url add_set s2 _) as [s3|e],
           (harvest_all L base_url add_list l2 _) as [l3|e']; cbn [rbind agree] in *;
    try done.
  by apply harvest_all_agree.
Qed.

Lemma first_seen_elem (l : list string) (u : string) : u ∈ first_seen l ↔ u ∈ l.
Proof.
  induction l as [|x l IH]; cbn [first_seen]; [done|].
  rewrite !elem_of_cons, <- IH, (list_elem_of_In (List.filter _ _) u),
    List.filter_In, <- list_elem_of_In.
  destruct (String.eqb_spec u x) as [->|Hne]; [tauto|]. cbn [negb]. tauto.
Qed.

Lemma first_seen_NoDup (l : list string) : NoDup (first_seen l).
Proof.
  induction l as [|x l IH]; cbn [first_seen]; [constructor|].
  apply NoDup_cons. split.
  - rewrite list_elem_of_In, List.filter_In, String.eqb_refl. cbn [negb].
    by intros [_ ?].
  - apply NoDup_ListNoDup, List.NoDup_filter. by apply NoDup_ListNoDup.
Qed.

(** C2 (amended).  The image-URL list is deduplicated after
    canonicalization and sorted in ascending code-point order, whatever the
    order of detection: when the scan raises nothing, the list holds each
    canonical URL that the scan detected exactly once - it is a permutation
    of the first-seen deduplication of the detection sequence - and it is
    ascending; when the scan raises, the extraction raises the same
    exception. *)
Theorem image_urls_sorted_dedup (html : string) :
  match _extract_image_urls L base_url html, encounters L base_url html with
  | Ok l, Ok enc =>
      l = sorted (list_to_set enc)
      ∧ NoDup l
      ∧ StronglySorted String.le l
      ∧ (∀ u, u ∈ l ↔ u ∈ enc)
      ∧ l ≡ₚ first_seen enc
  | Raise e, Raise e' => e = e'
  | _, _ => False
  end.
Proof.
  unfold _extract_image_urls, encounters.
  pose proof (scan_agree html) as H.
  destruct (scan L base_url add_set ∅ html) as [s|e],
           (scan L base_url add_list [] html) as [enc|e']; cbn [rbind agree] in *;
    try done.
  subst s. unfold sorted.
  set (l := merge_sort String.le (elements (list_to_set enc))).
  assert (Hperm : l ≡ₚ elements (list_to_set (C:=gset string) enc))
    by apply merge_sort_Permutation.
  assert (Hnd : NoDup l) by (rewrite Hperm; apply NoDup_elements).
  assert (Hin : ∀ u, u ∈ l ↔ u ∈ enc).
  { intros u. by rewrite Hperm, elem_of_elements, elem_of_list_to_set. }
  split; [done|]. split; [done|]. split; [|split; [done|]].
  - apply StronglySorted_merge_sort; apply _.
  - apply NoDup_Permutation; [done|apply first_seen_NoDup|].
    intros u. by rewrite Hin, first_seen_elem.
Qed.

(** C5.  A [srcset] value that ends with a comma makes the extraction
    raise: the empty candidate after the comma has no first word. *)
Theorem trailing_comma_srcset_raises :
  parse_product L base_url
    "<img srcset='//ggstore.com/cdn/shop/files/tee.jpg?width=200 200w, //ggstore.com/cdn/shop/files/tee.jpg?width=400 400w,'>"
    "https://ggstore.com/products/classic-tee"
  = Raise (IndexError "list index out of range").
Proof. vm_compute. reflexivity. Qed.

(** *** Canonicalization *)

(** C9 (amended).  Canonicalization is idempotent on the canonical URLs
    that hold no character reference left to decode and that parse as an
    [http] or [https] URL with a network location: when [_normalize_url]
    returns [n] for some input, [html.unescape] leaves [n] unchanged, and
    [urlparse] splits [n] into the scheme [http] or [https] and a
    non-empty network location, then [_normalize_url] returns [n] for
    [n]. *)
Theorem normalize_idempotent_on_http (u n : string) (r2 : Urllib.ParseResult) :
  _normalize_url L base_url u = Ok n →
  Html.unescape L n = Ok n →
  Urllib.urlparse L n "" = Ok r2 →
  Urllib.scheme r2 = "http" ∨ Urllib.scheme r2 = "https" →
  Urllib.netloc r2 ≠ "" →
  _normalize_url L base_url n = Ok n.
Proof.
  intros Hnorm Hplain Hparse2 Hhttp Hnl2.
  unfold _normalize_url in Hnorm.
  destruct (Html.unescape L u) as [x0|]; cbn [rbind] in Hnorm; [|done].
  destruct (if Str.startswith x0 "//" then Ok ("https:" +:+ x0)
            else if negb (Str.startswith x0 "http") then Urllib.urljoin L base_url x0
                 else Ok x0) as [x|]; cbn [rbind] in Hnorm; [|done].
  destruct (Urllib.urlparse L x "") as [r|] eqn:Hparse; cbn [rbind] in Hnorm; [|done].
  injection Hnorm as Hn. rewrite <- Hn in Hparse2.
  destruct (UrlFacts.geturl_fixpoint L x r r2 Hparse Hparse2 Hhttp Hnl2)
    as [Hfix [rest Hrest]].
  rewrite Hn in Hparse2, Hfix, Hrest.
  unfold _normalize_url. rewrite Hplain. cbn [rbind].
  assert (Hpre : Str.startswith n "//" = false ∧ Str.startswith n "http" = true).
  { rewrite Hrest.
    destruct Hhttp as [-> | ->];
      rewrite !StrFacts.app_cons, StrFacts.app_nil_l; done. }
  destruct Hpre as [-> ->]. cbn [negb rbind]. rewrite Hparse2. cbn [rbind].
  by rewrite Hfix.
Qed.

End Facts.

(** C7, as stated, fails: the identifier of the site root is empty. *)
Lemma root_url_has_empty_id :
  _extract_product_id Sample.lib "https://ggstore.com/" = Ok "".
Proof. vm_compute. reflexivity. Qed.

(** The theorem of C7 at a product URL with a query. *)
Lemma product_id_shape_witness :
  Urllib.urlparse Sample.lib "https://ggstore.com/products/classic-tee?variant=9" ""
  = Ok (Urllib.mkParseResult "https" "ggstore.com" "/products/classic-tee" ""
          "variant=9" "")
  ∧ ∃ s, _extract_product_id Sample.lib
           "https://ggstore.com/products/classic-tee?variant=9" = Ok s
         ∧ (s = "" ↔
            Str.strip (Ascii.eqb "/") "/products/classic-tee" = ""
            ∨ ∃ idx,
                Str.index "products"
                  (Str.split "/" (Str.strip (Ascii.eqb "/") "/products/classic-tee"))
                = Some idx
                ∧ Str.split "/" (Str.strip (Ascii.eqb "/") "/products/classic-tee")
                    !! (idx + 1)%nat = Some "").
Proof.
  split; [reflexivity|].
  destruct (product_id_shape Sample.lib
              "https://ggstore.com/products/classic-tee?variant=9"
              (Urllib.mkParseResult "https" "ggstore.com" "/products/classic-tee" ""
                 "variant=9" "") eq_refl) as (s & Hs & _ & Hempty).
  exists s. split; [exact Hs|exact Hempty].
Defined.

(** C2, as stated, fails: the images are detected in the order z, m, z,
    a, m; their first-seen order is z, m, a, and the list returned is a, m,
    z. *)
Lemma encounter_order_not_preserved :
  encounters Sample.lib default_base_url Sample.gallery
  = Ok ["https://ggstore.com/cdn/shop/files/z.jpg";
        "https://ggstore.com/cdn/shop/files/m.jpg";
        "https://ggstore.com/cdn/shop/files/z.jpg";
        "https://ggstore.com/cdn/shop/files/a.jpg";
        "https://ggstore.com/cdn/shop/files/m.jpg"]
  ∧ _extract_image_urls Sample.lib default_base_url Sample.gallery
    = Ok ["https://ggstore.com/cdn/shop/files/a.jpg";
          "https://ggstore.com/cdn/shop/files/m.jpg";
          "https://ggstore.com/cdn/shop/files/z.jpg"]
  ∧ _extract_image_urls Sample.lib default_base_url Sample.gallery
    ≠ rmap first_seen (encounters Sample.lib default_base_url Sample.gallery).
Proof.
  split; [vm_compute; reflexivity|]. split; [vm_compute; reflexivity|].
  vm_compute. discriminate.
Qed.

(** C9, as stated, fails: a doubly escaped ampersand is decoded one level
    by each canonicalization. *)
Lemma double_escape_not_idempotent :
  _normalize_url Sample.lib default_base_url
    "https://ggstore.com/cdn/shop/files/a&amp;amp;b.jpg"
  = Ok "https://ggstore.com/cdn/shop/files/a&amp;b.jpg"
  ∧ _normalize_url Sample.lib default_base_url
      "https://ggstore.com/cdn/shop/files/a&amp;b.jpg"
    = Ok "https://ggstore.com/cdn/shop/files/a&b.jpg"
  ∧ rbind (_normalize_url Sample.lib default_base_url
             "https://ggstore.com/cdn/shop/files/a&amp;amp;b.jpg")
      (_normalize_url Sample.lib default_base_url)
    ≠ _normalize_url Sample.lib default_base_url
        "https://ggstore.com/cdn/shop/files/a&amp;amp;b.jpg".
Proof.
  split; [vm_compute; reflexivity|]. split; [vm_compute; reflexivity|].
  vm_compute. discriminate.
Qed.

(** The theorem of C9 at a protocol-relative CDN URL with a width
    parameter. *)
Lemma normalize_idempotent_on_http_witness :
  _normalize_url Sample.lib default_base_url
    "//ggstore.com/cdn/shop/products/tee.jpg?width=500"
  = Ok "https://ggstore.com/cdn/shop/products/tee.jpg"
  ∧ _normalize_url Sample.lib default_base_url
      "https://ggstore.com/cdn/shop/products/tee.jpg"
    = Ok "https://ggstore.com/cdn/shop/products/tee.jpg".
Proof.
  split; [vm_compute; reflexivity|].
  apply (normalize_idempotent_on_http Sample.lib default_base_url
           "//ggstore.com/cdn/shop/products/tee.jpg?width=500"
           "https://ggstore.com/cdn/shop/products/tee.jpg"
           (Urllib.mkParseResult "https" "ggstore.com" "/cdn/shop/products/tee.jpg"
              "" "" "")).
  - vm_compute; reflexivity.
  - vm_compute; reflexivity.
  - vm_compute; reflexivity.
  - right; reflexivity.
  - discriminate.
Defined.

End ParserFacts.

(** * Further properties *)

Module FormatFacts.
Import Ledger Bookkeeping.

(** *** Numbered identifiers *)

Lemma pretty_N_go_head (x : N) : ∀ s,
  (0 < x)%N → ∃ c t, pretty_N_go x s = String c t ∧ c ≠ "0"%char.
Proof.
  induction (N.lt_wf_0 x) as [x _ IH]; intros s Hx.
  rewrite pretty_N_go_step by done.
  destruct (decide (x `div` 10 = 0)%N) as [Hz|Hnz].
  - rewrite Hz, pretty_N_go_0. eexists _, _. split; [done|].
    assert (x < 10)%N by (apply N.div_small_iff in Hz; lia).
    rewrite N.mod_small by done.
    destruct x as [|p]; [lia|].
    do 4 (destruct p as [p|p|]; try done); lia.
  - apply IH; [by apply N.div_lt|by apply N.neq_0_lt_0].
Qed.

Lemma pretty_pos_head (n : Z) :
  0 < n → ∃ c t, pretty n = String c t ∧ c ≠ "0"%char.
Proof.
  destruct n as [|p|p]; try lia. intros _.
  unfold pretty, pretty_Z, pretty, pretty_positive, pretty, pretty_N.
  rewrite decide_False by done. by apply pretty_N_go_head.
Qed.

Lemma zero_pad_inj (k1 k2 : nat) (d1 d2 : string) :
  (∃ c t, d1 = String c t ∧ c ≠ "0"%char) →
  (∃ c t, d2 = String c t ∧ c ≠ "0"%char) →
  zero_pad k1 d1 = zero_pad k2 d2 → d1 = d2.
Proof.
  intros (c1 & t1 & -> & H1) (c2 & t2 & -> & H2).
  revert k2. induction k1 as [|k1 IH]; intros [|k2]; simpl; try done.
  - by intros [= -> _].
  - by intros [= <- _].
  - intros [= H]. by apply (IH k2).
Qed.

Lemma format_0d_inj (w : nat) (a b : Z) :
  0 < a → 0 < b → format_0d w a = format_0d w b → a = b.
Proof.
  intros Ha Hb H. apply (inj pretty).
  apply (zero_pad_inj _ _ _ _ (pretty_pos_head a Ha) (pretty_pos_head b Hb) H).
Qed.

Lemma str_app_inv_head (tag x y : string) : tag +:+ x = tag +:+ y → x = y.
Proof.
  induction tag as [|c tag IH]; [done|].
  rewrite !StrFacts.app_cons. intros [= H]. by apply IH.
Qed.

Lemma numbered_lookup (tag : string) (ids : list string) (i : nat) (x : string) :
  numbered tag ids → ids !! i = Some x →
  x = tag +:+ format_0d 3 (Z.of_nat i + 1) ∧ (i < length ids)%nat.
Proof.
  unfold numbered. intros Hnum Hi.
  pose proof (lookup_lt_Some _ _ _ Hi) as Hlt. split; [|done].
  rewrite Hnum in Hi. change map with (@fmap list _) in Hi.
  rewrite list_lookup_fmap, lookup_seq_lt in Hi by done.
  simpl in Hi. by injection Hi as <-.
Qed.

Lemma numbered_snoc (tag : string) (ids : list string) :
  numbered tag ids →
  numbered tag (ids ++ [tag +:+ format_0d 3 (Z.of_nat (length ids) + 1)]).
Proof.
  unfold numbered. intros Hnum. rewrite length_app. simpl.
  rewrite Nat.add_1_r, seq_S, map_app. simpl. by rewrite <- Hnum.
Qed.

Lemma numbered_NoDup (tag : string) (ids : list string) :
  numbered tag ids → NoDup ids.
Proof.
  unfold numbered. intros ->. change map with (@fmap list _).
  apply NoDup_fmap_2_strong; [|apply NoDup_seq].
  intros i j _ _ H. apply str_app_inv_head, format_0d_inj in H; lia.
Qed.

Lemma numbered_fresh (tag : string) (ids : list string) :
  numbered tag ids →
  tag +:+ format_0d 3 (Z.of_nat (length ids) + 1) ∉ ids.
Proof.
  intros Hnum (i & Hi)%list_elem_of_lookup_1.
  destruct (numbered_lookup _ _ _ _ Hnum Hi) as [H Hlt].
  apply str_app_inv_head, format_0d_inj in H; lia.
Qed.

Lemma update_first_fmap_pres {A B} (p : A → bool) (f : A → A) (g : A → B) (l : list A) :
  (∀ x, g (f x) = g x) → g <$> update_first p f l = g <$> l.
Proof.
  intros Hg. induction l as [|x l IH]; simpl; [done|].
  destruct (p x); by rewrite !fmap_cons, ?Hg, ?IH.
Qed.

Lemma find_fresh {A} (g : A → string) (id : string) (l : list A) :
  id ∉ g <$> l → find (fun x => String.eqb (g x) id) l = None.
Proof.
  induction l as [|x l IH]; [done|]. rewrite fmap_cons, not_elem_of_cons.
  intros [Hne Hl]. simpl. apply not_eq_sym, String.eqb_neq in Hne. rewrite Hne.
  by apply IH.
Qed.

Lemma update_first_fmap {A B} (p : A → bool) (g : A → B) (x0 x1 : A) (l : list A) :
  find p l = Some x0 → g x1 = g x0 →
  g <$> update_first p (fun _ => x1) l = g <$> l.
Proof.
  intros Hfind Hg. induction l as [|x l IH]; simpl in *; [done|].
  destruct (p x).
  - injection Hfind as ->. by rewrite !fmap_cons, Hg.
  - by rewrite !fmap_cons, IH.
Qed.

Lemma update_first_lookup {A} (p : A → bool) (f : A → A) (l : list A) (i : nat) (x : A) :
  l !! i = Some x → p x = false → update_first p f l !! i = Some x.
Proof.
  revert i. induction l as [|y l IH]; intros i Hi Hx; [done|]. simpl.
  destruct i as [|i]; simpl in *.
  - injection Hi as ->. by rewrite Hx.
  - destruct (p y); [done|]. simpl. by apply IH.
Qed.

End FormatFacts.

Module BookFacts.
Import Ledger Bookkeeping FormatFacts.

Section Facts.
Variable now_at : nat → datetime.
Variable uuid4_hex : nat → string.
Variable yaml_dump : StoreParserChecklist → string.

Abbreviation exec' := (exec now_at uuid4_hex yaml_dump).
Abbreviation run' := (run now_at uuid4_hex yaml_dump).

Lemma run_app (ops ops' : list operation) (m : Manager) :
  run' (ops ++ ops') m = run' ops' (run' ops m).
Proof. unfold run. by rewrite fold_left_app. Qed.

Lemma run_cons (op : operation) (ops : list operation) (m : Manager) :
  run' (op :: ops) m = run' ops (exec' op m).
Proof. done. Qed.

(** An invariant of every operation is an invariant of every run. *)
Lemma run_invariant (P : Manager → Prop) :
  (∀ op m, P m → P (exec' op m)) →
  ∀ ops m, P m → P (run' ops m).
Proof.
  intros Hstep ops. induction ops as [|op ops IH]; intros m Hm; [done|].
  rewrite run_cons. by apply IH, Hstep.
Qed.

Lemma exec_jobs_counted (op : operation) (m : Manager) :
  jobs_counted (checklist m) → jobs_counted (checklist (exec' op m)).
Proof.
  unfold jobs_counted. intros [Htot Hpend]. destruct op; simpl.
  - done.
  - unfold update_session_progress, bind, get_checklist.
    by destruct (current_session (checklist m)).
  - unfold end_session, bind, get_checklist.
    by destruct (current_session (checklist m)).
  - rewrite length_app. simpl. lia.
  - unfold start_job, bind, get_checklist.
    destruct (_find_job id (checklist m)); [|done]. simpl.
    destruct (Z.ltb_spec 0 (js_pending (st_jobs (stats (checklist m))))); simpl;
      rewrite update_first_length; lia.
  - unfold complete_job, bind, get_checklist.
    destruct (_find_job id (checklist m)) as [j|]; [|done]. simpl.
    destruct (success res); [destruct (job_type j)|]; simpl;
      rewrite update_first_length; lia.
  - unfold add_or_update_product, bind, get_checklist.
    destruct (_find_product id (checklist m)); simpl; [done|].
    destruct category' as [cat|]; [destruct (truthy (Some cat))|]; done.
  - done.
  - unfold resolve_error, bind, get_checklist.
    by destruct (find (has_error_id id) (errors (checklist m))).
  - done.
Qed.

(** X1.  The job counters follow the job list over every sequence of
    operations: [stats.jobs.total] stays the number of jobs, and
    [stats.jobs.pending] stays between 0 and it. *)
Theorem job_counters_kept (ops : list operation) (m : Manager) :
  jobs_counted (checklist m) → jobs_counted (checklist (run' ops m)).
Proof.
  apply (run_invariant (fun m => jobs_counted (checklist m))).
  intros op m'. apply exec_jobs_counted.
Qed.

(** X2.  An operation that stops at its guard - [update_session_progress]
    without a session, [start_job] or [complete_job] on an unknown job,
    [resolve_error] on an unknown error - leaves the manager as it was:
    nothing changes in memory, nothing is written, the clock is not read. *)
Theorem failed_guard_changes_nothing (op : operation) (m : Manager) :
  takes_effect op m = false → exec' op m = m.
Proof.
  destruct op; simpl; intros H; try discriminate;
    apply bool_decide_eq_false in H.
  - unfold update_session_progress, bind, get_checklist.
    destruct (current_session (checklist m)); [|done]. exfalso. apply H. eauto.
  - unfold start_job, bind, get_checklist.
    destruct (_find_job id (checklist m)); [|done]. exfalso. apply H. eauto.
  - unfold complete_job, bind, get_checklist.
    destruct (_find_job id (checklist m)); [|done]. exfalso. apply H. eauto.
  - unfold resolve_error, bind, get_checklist.
    destruct (find (has_error_id id) (errors (checklist m))); [|done].
    exfalso. apply H. eauto.
Qed.

Lemma exec_frame (op : operation) (m : Manager) :
  let c := checklist m in
  let c' := checklist (exec' op m) in
  (is_upsert op = false → products c' = products c)
  ∧ (is_job_op op = false → jobs c' = jobs c)
  ∧ (is_error_op op = false → errors c' = errors c)
  ∧ (is_session_op op = false → current_session c' = current_session c)
  ∧ created_at c' = created_at c.
Proof.
  destruct op; simpl.
  - done.
  - unfold update_session_progress, bind, get_checklist.
    by destruct (current_session (checklist m)).
  - unfold end_session, bind, get_checklist.
    by destruct (current_session (checklist m)).
  - done.
  - unfold start_job, bind, get_checklist.
    destruct (_find_job id (checklist m)); [|done]. simpl.
    by destruct (0 <? js_pending (st_jobs (stats (checklist m)))).
  - unfold complete_job, bind, get_checklist.
    destruct (_find_job id (checklist m)) as [j|]; [|done]. simpl.
    by destruct (success res); [destruct (job_type j)|].
  - unfold add_or_update_product, bind, get_checklist.
    destruct (_find_product id (checklist m)); simpl; [done|].
    by destruct category' as [cat|]; [destruct (truthy (Some cat))|].
  - done.
  - unfold resolve_error, bind, get_checklist.
    by destruct (find (has_error_id id) (errors (checklist m))).
  - done.
Qed.

(** X3.  Each ledger operation keeps to its own collection: only upserts
    change the product list, only [create_job], [start_job] and [complete_job]
    change the job list, only [log_error] and [resolve_error] change the error
    list, only the session operations change the current session, and none
    changes [created_at]. *)
Theorem operations_keep_to_their_collection (op : operation) (m : Manager) :
  let c := checklist m in
  let c' := checklist (exec' op m) in
  (is_upsert op = false → products c' = products c)
  ∧ (is_job_op op = false → jobs c' = jobs c)
  ∧ (is_error_op op = false → errors c' = errors c)
  ∧ (is_session_op op = false → current_session c' = current_session c)
  ∧ created_at c' = created_at c.
Proof. apply exec_frame. Qed.

(** *** Re-crawls of one product *)

Section Reruns.
Variable id : string.
(** The entries that precede the product's own. *)
Variable before : list ProductEntry.
Hypothesis Hbefore : find (has_product_id id) before = None.

Lemma rerun_first (op : operation) (m : Manager) :
  products (checklist m) = before →
  upserts_of id op = true →
  ∃ e, settled now_at id before (clock m) 1 (exec' op m) e
    ∧ last_crawled <$> crawl_info e = Some (now_at (clock m))
    ∧ Some (images e) = counts_of op.
Proof.
  intros Hps Hop. destruct op; try discriminate. simpl in Hop.
  apply String.eqb_eq in Hop. subst id0.
  assert (Hfind : _find_product id (checklist m) = None)
    by (unfold _find_product; by rewrite Hps).
  destruct (LedgerFacts.upsert_new now_at yaml_dump m id name url job status
              image_count downloaded_count failed_count price' category' Hfind)
    as (_ & Hps' & Hclock & _).
  exists (new_entry id name url status job image_count downloaded_count failed_count
            price' category' (now_at (clock m))).
  split; [|split; [reflexivity|reflexivity]].
  unfold settled. simpl. rewrite Hps', Hps, Hclock.
  split; [reflexivity|]. split; [apply String.eqb_refl|].
  split; [done|]. split; [done|]. lia.
Qed.

Lemma rerun_next (op : operation) (t0 k : nat) (m : Manager) (e : ProductEntry) :
  settled now_at id before t0 k m e →
  upserts_of id op = true →
  ∃ e', settled now_at id before t0 (S k) (exec' op m) e'
    ∧ last_crawled <$> crawl_info e' = Some (now_at (clock m))
    ∧ Some (images e') = counts_of op.
Proof.
  intros (Hps & Hid & Hcount & Hfirst & Hclock) Hop.
  destruct op; try discriminate. simpl in Hop.
  apply String.eqb_eq in Hop. subst id0.
  assert (Hfind : _find_product id (checklist m) = Some e).
  { unfold _find_product. rewrite Hps, find_app_none by done. simpl. by rewrite Hid. }
  destruct (LedgerFacts.upsert_existing now_at yaml_dump m e id name url job status
              image_count downloaded_count failed_count price' category' Hfind)
    as (_ & Hps' & Hclock' & _).
  exists (update_entry status job image_count downloaded_count failed_count
            price' category' (now_at (clock m)) e).
  split; [|split; [|reflexivity]].
  - unfold settled. simpl. rewrite Hps', Hps, Hclock'.
    rewrite update_first_app_none by done. simpl. rewrite Hid.
    split; [reflexivity|]. split; [exact Hid|].
    destruct (crawl_info e) as [ci|]; [|done]. simpl in *.
    injection Hcount as ->. injection Hfirst as ->.
    split; [f_equal; lia|]. split; [done|]. lia.
  - simpl. destruct (crawl_info e) as [ci|]; [done|discriminate].
Qed.

Lemma rerun_chain (ops : list operation) (last : operation) (m : Manager) :
  products (checklist m) = before →
  forallb (upserts_of id) (ops ++ [last]) = true →
  ∃ e, settled now_at id before (clock m) (S (length ops)) (run' (ops ++ [last]) m) e
    ∧ last_crawled <$> crawl_info e = Some (now_at (clock m + 2 * length ops))
    ∧ Some (images e) = counts_of last.
Proof.
  intros Hps. revert last. induction ops as [|op ops IH] using rev_ind; intros last Hall.
  - simpl in Hall. apply andb_true_iff in Hall as [Hlast _].
    destruct (rerun_first last m Hps Hlast) as (e & Hset & Hlast' & Himg).
    exists e. simpl. rewrite Nat.add_0_r. done.
  - rewrite forallb_app in Hall. apply andb_true_iff in Hall as [Hops Hlast].
    simpl in Hlast. apply andb_true_iff in Hlast as [Hlast _].
    destruct (IH op Hops) as (e & Hset & _ & _).
    rewrite run_app. cbn [run fold_left].
    destruct (rerun_next last _ _ _ e Hset Hlast) as (e' & Hset' & Hlast' & Himg).
    exists e'. rewrite length_app. simpl.
    replace (length ops + 1)%nat with (S (length ops)) by lia.
    split; [exact Hset'|]. split; [|exact Himg].
    rewrite Hlast'. destruct Hset as (_ & _ & _ & _ & ->). do 2 f_equal; lia.
Qed.

End Reruns.

(** X4.  Any number of crawls of one product converge: after one or more
    upserts of an identifier that the ledger did not hold, the product list is
    the list before with one entry added at its end; that entry is the only
    one with the identifier, its crawl count is the number of upserts, its
    first-seen stamp is the clock reading of the first upsert, its
    last-crawled stamp that of the last, and its image counts are those of the
    last. *)
Theorem reruns_converge (id : string) (ops : list operation) (last : operation)
    (m : Manager) :
  _find_product id (checklist m) = None →
  forallb (upserts_of id) (ops ++ [last]) = true →
  let m' := run' (ops ++ [last]) m in
  ∃ e, List.filter (has_product_id id) (products (checklist m')) = [e]
    ∧ products (checklist m') = products (checklist m) ++ [e]
    ∧ crawl_count <$> crawl_info e = Some (Z.of_nat (length ops) + 1)
    ∧ first_seen <$> crawl_info e = Some (now_at (clock m))
    ∧ last_crawled <$> crawl_info e = Some (now_at (clock m + 2 * length ops))
    ∧ Some (images e) = counts_of last.
Proof.
  intros Hfind Hall m'. unfold _find_product in Hfind.
  destruct (rerun_chain id (products (checklist m)) Hfind ops last m eq_refl Hall)
    as (e & (Hps & Hid & Hcount & Hfirst & _) & Hlast & Himg).
  exists e. subst m'. rewrite Hps, List.filter_app. simpl. rewrite Hid.
  rewrite (find_none_filter _ _ Hfind). simpl.
  split; [done|]. split; [done|]. split; [|done].
  rewrite Hcount. f_equal. lia.
Qed.

(** *** What an upsert leaves alone *)

(** X5.  An upsert never removes, reorders or rewrites the entries of other
    products: the identifiers of the list are those before, followed by the
    new one when the product was unknown, and every entry with another
    identifier stays at its position unchanged. *)
Theorem upsert_leaves_other_entries (m : Manager) (id name url job : string)
    (status : JobStatus) (total done failed : Z) (price' category' : option string) :
  let m' := exec' (AddOrUpdateProduct id name url job status total done failed
                     price' category') m in
  pe_id <$> products (checklist m')
  = (pe_id <$> products (checklist m))
      ++ match _find_product id (checklist m) with Some _ => [] | None => [id] end
  ∧ ∀ i e, products (checklist m) !! i = Some e → pe_id e ≠ id →
           products (checklist m') !! i = Some e.
Proof.
  intros m'. subst m'. simpl.
  destruct (_find_product id (checklist m)) as [e0|] eqn:Hfind.
  - destruct (LedgerFacts.upsert_existing now_at yaml_dump m e0 id name url job status
                total done failed price' category' Hfind) as (_ & Hps & _).
    rewrite Hps. split.
    + rewrite app_nil_r. by apply (update_first_fmap _ _ e0).
    + intros i e Hi Hne. apply update_first_lookup; [done|].
      unfold has_product_id. by apply String.eqb_neq.
  - destruct (LedgerFacts.upsert_new now_at yaml_dump m id name url job status
                total done failed price' category' Hfind) as (_ & Hps & _).
    rewrite Hps. split; [by rewrite fmap_app|].
    intros i e Hi _. by apply lookup_app_l_Some.
Qed.

Lemma exec_job_ids (op : operation) (m : Manager) :
  job_id <$> jobs (checklist (exec' op m))
  = (job_id <$> jobs (checklist m))
      ++ match op with
         | CreateJob _ _ _ =>
             ["JOB-" +:+ format_0d 3 (Z.of_nat (length (jobs (checklist m))) + 1)]
         | _ => []
         end.
Proof.
  destruct (exec_frame op m) as (_ & Hjobs & _).
  destruct op; simpl in *; rewrite ?app_nil_r; try done;
    try (by rewrite Hjobs by done).
  - by rewrite fmap_app.
  - unfold start_job, bind, get_checklist.
    destruct (_find_job id (checklist m)) as [j|] eqn:Hj; [|done]. simpl.
    destruct (0 <? js_pending (st_jobs (stats (checklist m)))); simpl;
      by apply (update_first_fmap _ _ j).
  - unfold complete_job, bind, get_checklist.
    destruct (_find_job id (checklist m)) as [j|] eqn:Hj; [|done]. simpl.
    destruct (success res); [destruct (job_type j)|]; simpl;
      by apply (update_first_fmap _ _ j).
Qed.

Lemma exec_error_ids (op : operation) (m : Manager) :
  err_id <$> errors (checklist (exec' op m))
  = (err_id <$> errors (checklist m))
      ++ match op with
         | LogError _ _ _ _ _ =>
             ["ERR-" +:+ format_0d 3 (Z.of_nat (length (errors (checklist m))) + 1)]
         | _ => []
         end.
Proof.
  destruct (exec_frame op m) as (_ & _ & Herrors & _).
  destruct op; simpl in *; rewrite ?app_nil_r; try done;
    try (by rewrite Herrors by done).
  - by rewrite fmap_app.
  - unfold resolve_error, bind, get_checklist.
    destruct (find (has_error_id id) (errors (checklist m))); [|done]. simpl.
    by apply update_first_fmap_pres.
Qed.

(** *** Numbered identifiers *)

(** X6.  Job and error identifiers stay numbered: from a ledger whose jobs are
    JOB-001, JOB-002, ... and whose errors are ERR-001, ERR-002, ... in list
    order, every sequence of operations leaves them so, hence no two jobs and
    no two errors share an identifier. *)
Theorem identifiers_stay_numbered (ops : list operation) (m : Manager) :
  numbered "JOB-" (job_id <$> jobs (checklist m)) →
  numbered "ERR-" (err_id <$> errors (checklist m)) →
  let c' := checklist (run' ops m) in
  numbered "JOB-" (job_id <$> jobs c') ∧ numbered "ERR-" (err_id <$> errors c')
  ∧ NoDup (job_id <$> jobs c') ∧ NoDup (err_id <$> errors c').
Proof.
  intros Hjobs Herrors c'. subst c'.
  assert (H : numbered "JOB-" (job_id <$> jobs (checklist (run' ops m)))
              ∧ numbered "ERR-" (err_id <$> errors (checklist (run' ops m)))).
  { apply (run_invariant
             (fun m => numbered "JOB-" (job_id <$> jobs (checklist m))
                       ∧ numbered "ERR-" (err_id <$> errors (checklist m))));
      [|done].
    intros op m' [Hj He]. rewrite exec_job_ids, exec_error_ids. split.
    - destruct op; rewrite ?app_nil_r; try done.
      rewrite <- (length_fmap job_id). by apply numbered_snoc.
    - destruct op; rewrite ?app_nil_r; try done.
      rewrite <- (length_fmap err_id). by apply numbered_snoc. }
  destruct H as [Hj He]. split; [done|]. split; [done|].
  split; by eapply numbered_NoDup.
Qed.

(** *** The life of a job *)

Lemma start_job_effect (m : Manager) (id agent : string) (j : CrawlJob) :
  _find_job id (checklist m) = Some j →
  let r := start_job now_at yaml_dump id agent m in
  let j' := mkCrawlJob (job_id j) (job_type j) IN_PROGRESS (priority j)
              (mkJobExecution (Some agent) (Some (now_at (clock m)))
                 (ex_completed_at (execution j)) (ex_duration_seconds (execution j)))
              (config j) (job_result j) (files_modified j) in
  fst r = Some j'
  ∧ jobs (checklist (snd r))
    = update_first (has_job_id id) (fun _ => j') (jobs (checklist m))
  ∧ clock (snd r) = S (S (clock m))
  ∧ js_pending (st_jobs (stats (checklist (snd r))))
    = (if 0 <? js_pending (st_jobs (stats (checklist m)))
       then js_pending (st_jobs (stats (checklist m))) - 1
       else js_pending (st_jobs (stats (checklist m)))).
Proof.
  intros Hj. unfold start_job, bind, get_checklist. rewrite Hj. simpl.
  by destruct (0 <? js_pending (st_jobs (stats (checklist m)))).
Qed.

Lemma complete_job_effect (m : Manager) (id : string) (res : JobResult) (j : CrawlJob) :
  _find_job id (checklist m) = Some j →
  let r := complete_job now_at yaml_dump id res m in
  let ex := execution j in
  let j' := mkCrawlJob (job_id j) (job_type j)
              (if success res then COMPLETED else FAILED) (priority j)
              (mkJobExecution (ex_agent ex) (ex_started_at ex)
                 (Some (now_at (clock m)))
                 (match ex_started_at ex with
                  | Some t0 => Some (timedelta_seconds (now_at (clock m)) t0)
                  | None => ex_duration_seconds ex
                  end))
              (config j) (Some res) (files_modified j) in
  fst r = Some j'
  ∧ jobs (checklist (snd r))
    = update_first (has_job_id id) (fun _ => j') (jobs (checklist m))
  ∧ js_completed (st_jobs (stats (checklist (snd r))))
    = js_completed (st_jobs (stats (checklist m))) + (if success res then 1 else 0)
  ∧ js_failed (st_jobs (stats (checklist (snd r))))
    = js_failed (st_jobs (stats (checklist m))) + (if success res then 0 else 1).
Proof.
  intros Hj. unfold complete_job, bind, get_checklist. rewrite Hj. simpl.
  destruct (success res); [destruct (job_type j)|]; simpl;
    (split; [done|]; split; [done|]; split; lia).
Qed.

(** X7.  The life of a job: in a ledger with numbered jobs, [create_job]
    appends a pending job, [start_job] on the identifier it returned finds
    that job and puts it in progress, and [complete_job] then ends it as
    completed or failed according to the result, stores the result, and
    records the agent, the start, the end and the [seconds] of the time
    between them. *)
Theorem job_lifecycle (m : Manager) (jt : JobType) (cfg : option JobConfig)
    (prio agent : string) (res : JobResult) :
  numbered "JOB-" (job_id <$> jobs (checklist m)) →
  let r1 := create_job now_at yaml_dump jt cfg prio m in
  let r2 := start_job now_at yaml_dump (job_id (fst r1)) agent (snd r1) in
  let r3 := complete_job now_at yaml_dump (job_id (fst r1)) res (snd r2) in
  let t_start := now_at (S (clock m)) in
  let t_end := now_at (S (S (S (clock m)))) in
  ∃ started finished,
    fst r2 = Some started ∧ fst r3 = Some finished
    ∧ jobs (checklist (snd r1)) = jobs (checklist m) ++ [fst r1]
    ∧ jobs (checklist (snd r2)) = jobs (checklist m) ++ [started]
    ∧ jobs (checklist (snd r3)) = jobs (checklist m) ++ [finished]
    ∧ job_status (fst r1) = PENDING
    ∧ job_status started = IN_PROGRESS
    ∧ job_status finished = (if success res then COMPLETED else FAILED)
    ∧ job_type finished = jt
    ∧ job_result finished = Some res
    ∧ execution finished
      = mkJobExecution (Some agent) (Some t_start) (Some t_end)
          (Some (timedelta_seconds t_end t_start)).
Proof.
  intros Hnum r1 r2 r3 t_start t_end.
  set (job := fst r1).
  assert (Hjobs1 : jobs (checklist (snd r1)) = jobs (checklist m) ++ [job]) by done.
  assert (Hclock1 : clock (snd r1) = S (clock m)) by done.
  assert (Hfresh : find (has_job_id (job_id job)) (jobs (checklist m)) = None).
  { apply (find_fresh job_id). subst job r1. cbn [fst create_job bind get_checklist
      job_id]. rewrite <- (length_fmap job_id). by apply numbered_fresh. }
  assert (Hid : has_job_id (job_id job) job = true) by apply String.eqb_refl.
  assert (Hfind1 : _find_job (job_id job) (checklist (snd r1)) = Some job).
  { unfold _find_job. rewrite Hjobs1, find_app_none by done. cbn [find].
    by rewrite Hid. }
  destruct (start_job_effect (snd r1) (job_id job) agent job Hfind1)
    as (Hr2 & Hjobs2 & Hclock2 & _).
  set (started := mkCrawlJob _ _ IN_PROGRESS _ _ _ _ _) in Hr2, Hjobs2.
  assert (Hjobs2' : jobs (checklist (snd r2)) = jobs (checklist m) ++ [started]).
  { etransitivity; [exact Hjobs2|].
    rewrite Hjobs1, update_first_app_none by done. cbn [update_first].
    by rewrite Hid. }
  assert (Hid2 : has_job_id (job_id job) started = true) by apply String.eqb_refl.
  assert (Hfind2 : _find_job (job_id job) (checklist (snd r2)) = Some started).
  { unfold _find_job. rewrite Hjobs2', find_app_none by done. cbn [find].
    by rewrite Hid2. }
  destruct (complete_job_effect (snd r2) (job_id job) res started Hfind2)
    as (Hr3 & Hjobs3 & _).
  set (finished := mkCrawlJob _ _ (if success res then _ else _) _ _ _ _ _)
    in Hr3, Hjobs3.
  assert (Hjobs3' : jobs (checklist (snd r3)) = jobs (checklist m) ++ [finished]).
  { etransitivity; [exact Hjobs3|].
    rewrite Hjobs2', update_first_app_none by done. cbn [update_first].
    by rewrite Hid2. }
  exists started, finished.
  split; [done|]. split; [done|]. split; [done|]. split; [done|]. split; [done|].
  split; [done|]. split; [done|]. split; [done|]. split; [done|]. split; [done|].
  subst finished started t_start t_end. cbn [execution ex_agent ex_started_at].
  assert (Hclock2' : clock (snd r2) = S (S (S (clock m))))
    by (etransitivity; [exact Hclock2|by rewrite Hclock1]).
  by rewrite Hclock2', Hclock1.
Qed.

(** X8.  [complete_job] on a job that was started records as duration the
    [seconds] field of the time elapsed since the start: the whole seconds
    elapsed modulo 86400, between 0 and 86399, which are the whole seconds
    elapsed when the job ran for less than a day. *)
Theorem job_duration_wraps_at_one_day (m : Manager) (id : string) (res : JobResult)
    (j : CrawlJob) (t0 : datetime) :
  _find_job id (checklist m) = Some j →
  ex_started_at (execution j) = Some t0 →
  let elapsed := now_at (clock m) - t0 in
  ∃ j' d,
    fst (complete_job now_at yaml_dump id res m) = Some j'
    ∧ ex_duration_seconds (execution j') = Some d
    ∧ 0 ≤ d < 86400
    ∧ d = (elapsed / 1000000) mod 86400
    ∧ (0 ≤ elapsed < 86400000000 → d = elapsed / 1000000).
Proof.
  intros Hj Ht0 elapsed.
  destruct (complete_job_effect m id res j Hj) as (Hr & _).
  eexists _, _. split; [exact Hr|]. cbn [execution ex_duration_seconds].
  rewrite Ht0. split; [reflexivity|]. unfold timedelta_seconds. fold elapsed.
  split; [apply Z.mod_pos_bound; lia|]. split; [done|].
  intros Hel. apply Z.mod_small. split.
  - apply Z.div_pos; lia.
  - apply Z.div_lt_upper_bound; lia.
Qed.

(** *** The life of an error *)

(** X9.  The life of an error: in a ledger with numbered errors, [log_error]
    appends an unresolved error, and [resolve_error] on the identifier it
    returned answers [True], marks that very error resolved and leaves the
    unresolved errors as they were before the error was logged. *)
Theorem logged_error_can_be_resolved (m : Manager) (job : string) (kind : ErrorType)
    (message : string) (product_id url : option string) :
  numbered "ERR-" (err_id <$> errors (checklist m)) →
  let r1 := log_error now_at yaml_dump job kind message product_id url m in
  let r2 := resolve_error now_at yaml_dump (err_id (fst r1)) (snd r1) in
  fst r2 = true
  ∧ errors (checklist (snd r1)) = errors (checklist m) ++ [fst r1]
  ∧ errors (checklist (snd r2)) = errors (checklist m) ++ [mark_resolved (fst r1)]
  ∧ get_unresolved_errors (checklist (snd r1))
    = get_unresolved_errors (checklist m) ++ [fst r1]
  ∧ get_unresolved_errors (checklist (snd r2)) = get_unresolved_errors (checklist m).
Proof.
  intros Hnum r1 r2.
  set (error := fst r1).
  assert (Herrs1 : errors (checklist (snd r1)) = errors (checklist m) ++ [error])
    by done.
  assert (Hfresh : find (has_error_id (err_id error)) (errors (checklist m)) = None).
  { apply (find_fresh err_id). subst error r1. cbn [fst log_error bind get_checklist
      err_id datetime_now]. rewrite <- (length_fmap err_id). by apply numbered_fresh. }
  assert (Hid : has_error_id (err_id error) error = true) by apply String.eqb_refl.
  assert (Hfind : find (has_error_id (err_id error)) (errors (checklist (snd r1)))
                  = Some error).
  { rewrite Herrs1, find_app_none by done. cbn [find]. by rewrite Hid. }
  assert (Hr2 : fst r2 = true
                ∧ errors (checklist (snd r2))
                  = update_first (has_error_id (err_id error)) mark_resolved
                      (errors (checklist (snd r1)))).
  { subst r2. unfold resolve_error, bind, get_checklist. fold error.
    by rewrite Hfind. }
  destruct Hr2 as [Hret Herrs2].
  rewrite Herrs1, update_first_app_none in Herrs2 by done.
  cbn [update_first] in Herrs2. rewrite Hid in Herrs2.
  split; [done|]. split; [done|]. split; [done|].
  unfold get_unresolved_errors. rewrite Herrs1, Herrs2, !List.filter_app.
  split; [done|]. simpl. by rewrite app_nil_r.
Qed.

End Facts.

(** *** The theorems at work on the sample ledger *)

Lemma reruns_converge_witness :
  let ops := [Sample.upsert_tee 5 3 (Some "TEES"); Sample.upsert_tee 5 4 None] in
  let m' := run Sample.now_at Sample.uuid4_hex Sample.yaml_dump
              (ops ++ [Sample.upsert_tee 5 5 None]) Sample.ledger in
  _find_product "classic-tee" (checklist Sample.ledger) = None
  ∧ ∃ e, List.filter (has_product_id "classic-tee") (products (checklist m')) = [e]
      ∧ crawl_count <$> crawl_info e = Some 3
      ∧ images e = mkProductImageStatus 5 5 0 COMPLETED.
Proof.
  intros ops m'. split; [reflexivity|].
  destruct (reruns_converge Sample.now_at Sample.uuid4_hex Sample.yaml_dump
              "classic-tee" ops (Sample.upsert_tee 5 5 None) Sample.ledger
              eq_refl eq_refl) as (e & H1 & _ & H2 & _ & _ & H3).
  exists e. split; [exact H1|]. split; [exact H2|]. by injection H3.
Defined.

Lemma failed_guard_changes_nothing_witness :
  takes_effect (StartJob "JOB-009" "crawler-agent") Sample.ledger = false
  ∧ exec Sample.now_at Sample.uuid4_hex Sample.yaml_dump
      (StartJob "JOB-009" "crawler-agent") Sample.ledger = Sample.ledger.
Proof. split; [reflexivity|]. apply failed_guard_changes_nothing. reflexivity. Defined.

Lemma job_counters_kept_witness :
  jobs_counted (checklist Sample.ledger)
  ∧ jobs_counted
      (checklist (run Sample.now_at Sample.uuid4_hex Sample.yaml_dump
                    Fixture.job_ops Sample.ledger)).
Proof.
  assert (H : jobs_counted (checklist Sample.ledger)) by (split; [reflexivity|simpl; lia]).
  split; [exact H|]. apply job_counters_kept. exact H.
Defined.

Lemma identifiers_stay_numbered_witness :
  numbered "JOB-" (job_id <$> jobs (checklist Sample.ledger))
  ∧ numbered "ERR-" (err_id <$> errors (checklist Sample.ledger))
  ∧ NoDup (job_id <$> jobs
             (checklist (run Sample.now_at Sample.uuid4_hex Sample.yaml_dump
                           (Fixture.job_ops ++ Fixture.job_ops) Sample.ledger))).
Proof.
  split; [reflexivity|]. split; [reflexivity|].
  destruct (identifiers_stay_numbered Sample.now_at Sample.uuid4_hex Sample.yaml_dump
              (Fixture.job_ops ++ Fixture.job_ops) Sample.ledger eq_refl eq_refl)
    as (_ & _ & H & _).
  exact H.
Defined.

Lemma job_lifecycle_witness :
  let r1 := create_job Sample.now_at Sample.yaml_dump FULL_CRAWL None "high"
              Sample.ledger in
  let r2 := start_job Sample.now_at Sample.yaml_dump (job_id (fst r1)) "crawler-agent"
              (snd r1) in
  let r3 := complete_job Sample.now_at Sample.yaml_dump (job_id (fst r1))
              Fixture.job_done (snd r2) in
  numbered "JOB-" (job_id <$> jobs (checklist Sample.ledger))
  ∧ ∃ finished, fst r3 = Some finished ∧ job_status finished = COMPLETED
      ∧ ex_duration_seconds (execution finished) = Some 2.
Proof.
  intros r1 r2 r3. split; [reflexivity|].
  destruct (job_lifecycle Sample.now_at Sample.yaml_dump Sample.ledger FULL_CRAWL None
              "high" "crawler-agent" Fixture.job_done eq_refl)
    as (started & finished & _ & H3 & _ & _ & _ & _ & _ & Hst & _ & _ & Hex).
  exists finished. split; [exact H3|]. split; [exact Hst|]. by rewrite Hex.
Defined.

Lemma job_duration_wraps_at_one_day_witness :
  _find_job "JOB-001" (checklist Fixture.started_ledger) = Some Fixture.started_job
  ∧ ex_started_at (execution Fixture.started_job) = Some (Sample.now_at 3)
  ∧ ∃ j' d,
      fst (complete_job Sample.now_at Sample.yaml_dump "JOB-001" Fixture.job_done
             Fixture.started_ledger) = Some j'
      ∧ ex_duration_seconds (execution j') = Some d ∧ 0 ≤ d < 86400.
Proof.
  assert (H : _find_job "JOB-001" (checklist Fixture.started_ledger)
              = Some Fixture.started_job) by (vm_compute; reflexivity).
  split; [exact H|]. split; [reflexivity|].
  destruct (job_duration_wraps_at_one_day Sample.now_at Sample.yaml_dump
              Fixture.started_ledger "JOB-001" Fixture.job_done Fixture.started_job
              (Sample.now_at 3) H eq_refl) as (j' & d & H1 & H2 & H3 & _).
  exists j', d. split; [exact H1|]. split; [exact H2|exact H3].
Defined.

Lemma logged_error_can_be_resolved_witness :
  let r1 := log_error Sample.now_at Sample.yaml_dump "JOB-001" CRAWL_FAILED
              "list index out of range" (Some "classic-tee") None Sample.ledger in
  let r2 := resolve_error Sample.now_at Sample.yaml_dump (err_id (fst r1)) (snd r1) in
  numbered "ERR-" (err_id <$> errors (checklist Sample.ledger))
  ∧ fst r2 = true ∧ get_unresolved_errors (checklist (snd r2)) = [].
Proof.
  intros r1 r2. split; [reflexivity|].
  destruct (logged_error_can_be_resolved Sample.now_at Sample.yaml_dump Sample.ledger
              "JOB-001" CRAWL_FAILED "list index out of range" (Some "classic-tee")
              None eq_refl) as (H1 & _ & _ & _ & H2).
  split; [exact H1|exact H2].
Defined.

End BookFacts.

Module StorageFacts.
Import Downloader Storage.

Section Facts.
Variable L : PyLib.
Variable net : nat → string → fetch_outcome.
Variable now_at : nat → datetime.
Variable self : ImageDownloader.

Abbreviation scan' := (scan_existing L now_at self).
Abbreviation run_tasks' := (run_tasks net now_at self).
Abbreviation download' := (download_product_images L net now_at self).

(** One step of the first loop. *)
Lemma scan_existing_cons (product_id : string) (i : Z) (u : string)
    (urls : list string) (images : list ProductImage)
    (tasks : list (string * Pathlib.Path * string)) (w : World) :
  scan' product_id i (u :: urls) images tasks w
  = match _get_filename L product_id i u with
    | Raise e => (Raise e, w)
    | Ok filename =>
        let filepath := Pathlib.joinpath (output_dir self) (Pathlib.parse filename) in
        match files w !! Pathlib.to_str filepath with
        | Some _ =>
            scan' product_id (i + 1) urls
              (images ++ [mkProductImage filename u (Pathlib.to_str filepath)
                            (now_at (clock w))])
              tasks (mkWorld (files w) (requests w) (S (clock w)) (log w) (refused w))
        | None =>
            match refused w (Pathlib.to_str filepath) with
            | Some msg => (Raise (OSError msg), w)
            | None =>
                scan' product_id (i + 1) urls images
                  (tasks ++ [(u, filepath, filename)]) w
            end
        end
    end.
Proof.
  cbn [scan_existing]. unfold io_bind at 1, io_lift.
  destruct (_get_filename L product_id i u) as [filename|e]; [|done].
  cbv zeta. unfold io_bind at 1, path_exists.
  destruct (files w !! _); [|by destruct (refused w _)].
  by unfold io_bind at 1, make_image, io_bind at 1, datetime_now, io_ret.
Qed.

(** The first loop never touches the files, the request counter or the
    log. *)
Lemma scan_existing_frame (product_id : string) (urls : list string) :
  ∀ i images tasks w,
    let r := scan' product_id i urls images tasks w in
    files (snd r) = files w ∧ requests (snd r) = requests w ∧ log (snd r) = log w.
Proof.
  induction urls as [|u urls IH]; intros i images tasks w; [done|].
  cbv zeta. rewrite scan_existing_cons.
  destruct (_get_filename L product_id i u) as [filename|e]; [|done].
  cbv zeta. destruct (files w !! _).
  - destruct (IH (i + 1) (images ++ [mkProductImage filename u
                 (Pathlib.to_str (Pathlib.joinpath (output_dir self)
                                    (Pathlib.parse filename))) (now_at (clock w))])
                tasks (mkWorld (files w) (requests w) (S (clock w)) (log w) (refused w)))
      as (? & ? & ?).
    done.
  - destruct (refused w _); [done|apply IH].
Qed.

(** When every target is on disk the first loop makes a record of every
    URL, in order, and leaves no task. *)
Lemma scan_existing_all_present (product_id : string) (urls : list string) :
  ∀ i images tasks w,
    forallb (on_disk w) (targets L self product_id i urls) = true →
    ∃ images' w',
      scan' product_id i urls images tasks w = (Ok (images ++ images', tasks), w')
      ∧ original_url <$> images' = urls
      ∧ files w' = files w ∧ requests w' = requests w ∧ log w' = log w.
Proof.
  induction urls as [|u urls IH]; intros i images tasks w Hall.
  - exists [], w. by rewrite app_nil_r.
  - cbn [targets forallb] in Hall. apply andb_true_iff in Hall as [Hu Hall].
    rewrite scan_existing_cons. unfold target in Hu.
    destruct (_get_filename L product_id i u) as [filename|e]; [|done].
    cbn [rmap on_disk] in Hu. cbv zeta.
    apply bool_decide_eq_true in Hu as [content Hu]. rewrite Hu.
    set (image := mkProductImage _ _ _ _).
    destruct (IH (i + 1) (images ++ [image]) tasks
                (mkWorld (files w) (requests w) (S (clock w)) (log w) (refused w)) Hall)
      as (images' & w' & -> & Hurls & Hfiles & Hreq & Hlog).
    exists (image :: images'), w'. rewrite <- app_assoc.
    split; [done|]. split; [by rewrite fmap_cons, Hurls|]. done.
Qed.

(** X10.  When the file of every URL is on disk, [download_product_images]
    returns a record for every URL, in order, sends no request and writes
    nothing - whether or not the client was started. *)
Theorem files_on_disk_need_no_request (product_id : string) (urls : list string)
    (w : World) :
  forallb (on_disk w) (targets L self product_id 1 urls) = true →
  ∃ images w',
    download' product_id urls w = (Ok images, w')
    ∧ original_url <$> images = urls
    ∧ requests w' = requests w ∧ log w' = log w ∧ files w' = files w.
Proof.
  intros Hall. unfold download_product_images, io_bind.
  destruct (scan_existing_all_present product_id urls 1 [] [] w Hall)
    as (images & w' & -> & Hurls & Hfiles & Hreq & Hlog).
  exists images, w'. done.
Qed.

(** What the first loop has done when it returns: each target was on
    disk or has become a task. *)
Lemma scan_existing_ok (product_id : string) (urls : list string) :
  ∀ i images tasks w imgs tsks w',
    scan' product_id i urls images tasks w = (Ok (imgs, tsks), w') →
    ∃ images' tasks',
      imgs = images ++ images' ∧ tsks = tasks ++ tasks'
      ∧ files w' = files w
      ∧ (length images' + length tasks' = length urls)%nat
      ∧ Forall (fun t => on_disk w t = true
                         ∨ ∃ task, task ∈ tasks'
                                   ∧ t = Ok (Pathlib.to_str (snd (fst task))))
          (targets L self product_id i urls).
Proof.
  induction urls as [|u urls IH]; intros i images tasks w imgs tsks w' Hrun.
  - injection Hrun as <- <- <-. exists [], []. by rewrite !app_nil_r.
  - rewrite scan_existing_cons in Hrun. cbn [targets]. unfold target.
    destruct (_get_filename L product_id i u) as [filename|e]; [|done].
    cbv zeta in Hrun. cbn [rmap].
    set (filepath := Pathlib.joinpath (output_dir self) (Pathlib.parse filename)) in *.
    destruct (files w !! Pathlib.to_str filepath) as [content|] eqn:Hdisk.
    + apply IH in Hrun as (images' & tasks' & -> & -> & Hfiles & Hlen & Hall).
      eexists (_ :: images'), tasks'. rewrite <- app_assoc.
      split; [done|]. split; [done|]. split; [done|]. split; [simpl; lia|].
      constructor; [|exact Hall].
      left. cbn [on_disk]. rewrite Hdisk. apply bool_decide_eq_true. eauto.
    + destruct (refused w (Pathlib.to_str filepath)); [done|].
      apply IH in Hrun as (images' & tasks' & -> & -> & Hfiles & Hlen & Hall).
      exists images', ((u, filepath, filename) :: tasks'). rewrite <- app_assoc.
      split; [done|]. split; [done|]. split; [done|]. split; [simpl; lia|].
      constructor.
      * right. exists (u, filepath, filename). split; [left|done].
      * eapply Forall_impl; [exact Hall|]. intros t [?|(task & Hin & ->)]; [by left|].
        right. exists task. split; [by right|done].
Qed.

(** What the second loop has done when it returns: a record for each
    task whose file it has written, and no file lost. *)
Lemma run_tasks_ok (tasks : list (string * Pathlib.Path * string)) :
  ∀ images w imgs w',
    run_tasks' tasks images w = (Ok imgs, w') →
    ∃ images',
      imgs = images ++ images'
      ∧ (length images' ≤ length tasks)%nat
      ∧ (∀ p, is_Some (files w !! p) → is_Some (files w' !! p))
      ∧ (length images' = length tasks →
         ∀ task, task ∈ tasks → is_Some (files w' !! Pathlib.to_str (snd (fst task)))).
Proof.
  induction tasks as [|[[u filepath] filename] tasks IH]; intros images w imgs w' Hrun.
  - injection Hrun as <- <-. exists []. rewrite app_nil_r.
    split; [done|]. split; [done|]. split; [done|]. intros _ task Hin.
    by apply elem_of_nil in Hin.
  - cbn [run_tasks] in Hrun. unfold io_bind at 1, download_image in Hrun.
    destruct (negb (started self)); [done|].
    destruct (net (requests w) u) as [content|msg partial|msg|e]; [|done| |done].
    + unfold io_bind at 1, make_image, io_bind at 1, datetime_now, io_ret in Hrun.
      cbn [files requests clock log refused] in Hrun.
      apply IH in Hrun as (images' & -> & Hlen & Hmono & Hall).
      cbn [files] in Hmono, Hall.
      eexists (_ :: images'). rewrite <- app_assoc.
      split; [done|]. split; [simpl; lia|]. split.
      * intros p Hp. apply Hmono.
        destruct (decide (Pathlib.to_str filepath = p)) as [->|Hne].
        -- rewrite lookup_insert_eq. eauto.
        -- by rewrite lookup_insert_ne.
      * intros Hfull task [->|Hin]%elem_of_cons.
        -- apply Hmono. cbn [fst snd]. rewrite lookup_insert_eq. eauto.
        -- apply Hall; [simpl in Hfull; lia|done].
    + apply IH in Hrun as (images' & -> & Hlen & Hmono & Hall).
      exists images'. split; [done|]. split; [simpl; lia|]. split; [exact Hmono|].
      intros Hfull. simpl in Hfull. lia.
Qed.

Lemma on_disk_mono (w w' : World) (t : result string) :
  (∀ p, is_Some (files w !! p) → is_Some (files w' !! p)) →
  on_disk w t = true → on_disk w' t = true.
Proof.
  intros Hmono. destruct t as [p|e]; [|done]. cbn [on_disk].
  rewrite !bool_decide_eq_true. apply Hmono.
Qed.

(** X11.  A second run is free: when [download_product_images] has returned
    a record for every URL, calling it again with the same product and URLs
    sends no request, writes nothing and returns a record for every URL
    again. *)
Theorem second_run_sends_no_request (product_id : string) (urls : list string)
    (w w' : World) (images : list ProductImage) :
  download' product_id urls w = (Ok images, w') →
  length images = length urls →
  ∃ images2 w'',
    download' product_id urls w' = (Ok images2, w'')
    ∧ original_url <$> images2 = urls
    ∧ requests w'' = requests w' ∧ log w'' = log w' ∧ files w'' = files w'.
Proof.
  intros Hrun Hlen. unfold download_product_images, io_bind in Hrun.
  destruct (scan' product_id 1 urls [] [] w) as [[[imgs tsks]|e] w0] eqn:Hscan;
    [|done].
  cbn [fst snd] in Hrun.
  apply scan_existing_ok in Hscan
    as (images0 & tasks & -> & -> & Hfiles0 & Hlen0 & Hall).
  cbn [app] in Hrun.
  apply run_tasks_ok in Hrun as (images1 & -> & Hlen1 & Hmono & Hfull).
  rewrite length_app in Hlen.
  assert (Hfull' : length images1 = length tasks) by lia.
  specialize (Hfull Hfull').
  assert (Hdisk : forallb (on_disk w') (targets L self product_id 1 urls) = true);
    [|unfold download_product_images, io_bind;
      destruct (scan_existing_all_present product_id urls 1 [] [] w' Hdisk)
        as (images2 & w'' & -> & ? & ? & ? & ?); by exists images2, w''].
  apply forallb_forall. intros t Hin. apply list_elem_of_In in Hin.
  rewrite Forall_forall in Hall. destruct (Hall t Hin) as [Hdisk|(task & Htask & ->)].
  - apply (on_disk_mono w); [|done]. intros p. rewrite <- Hfiles0. apply Hmono.
  - cbn [on_disk]. apply bool_decide_eq_true. by apply Hfull.
Qed.

(** A URL that [urlparse] rejects makes the first loop raise. *)
Lemma scan_existing_bad_url (product_id : string) (urls : list string) :
  Exists (fun u => is_ok (Urllib.urlparse L u "") = false) urls →
  ∀ i images tasks w,
    ∃ e, fst (scan' product_id i urls images tasks w) = Raise e.
Proof.
  induction urls as [|u urls IH]; intros Hbad i images tasks w;
    [by apply Exists_nil in Hbad|].
  rewrite scan_existing_cons. unfold _get_filename.
  destruct (Urllib.urlparse L u "") as [parsed|e] eqn:Hu; [|by exists e].
  cbn [rbind]. cbv zeta.
  apply Exists_cons in Hbad as [Hbad|Hbad]; [by rewrite Hu in Hbad|].
  destruct (files w !! _); [by apply IH|].
  destruct (refused w _) as [msg|]; [by exists (OSError msg)|by apply IH].
Qed.

(** X12.  A URL that [urlparse] rejects, anywhere in the list, makes
    [download_product_images] raise before any request is sent and before any
    file is written. *)
Theorem malformed_url_aborts_before_any_request (product_id : string)
    (urls : list string) (w : World) :
  Exists (fun u => is_ok (Urllib.urlparse L u "") = false) urls →
  ∃ e w',
    download' product_id urls w = (Raise e, w')
    ∧ requests w' = requests w ∧ log w' = log w ∧ files w' = files w.
Proof.
  intros Hbad. unfold download_product_images, io_bind.
  destruct (scan_existing_bad_url product_id urls Hbad 1 [] [] w) as [e He].
  destruct (scan_existing_frame product_id urls 1 [] [] w) as (Hfiles & Hreq & Hlog).
  cbv zeta in *.
  destruct (scan' product_id 1 urls [] [] w) as [[found|e'] w']; [done|].
  cbn [fst snd] in *. by exists e', w'.
Qed.

(** X13.  Outside [async with], when the URLs parse, the existence test of
    every target is answered and the file of one of them is missing,
    [download_product_images] raises the [RuntimeError] of a downloader that
    is not started, having sent no request and written no file. *)
Theorem not_started_raises_on_first_missing_file (product_id : string)
    (urls : list string) (w : World) :
  started self = false →
  forallb (answered w) (targets L self product_id 1 urls) = true →
  forallb (on_disk w) (targets L self product_id 1 urls) = false →
  ∃ w',
    download' product_id urls w
    = (Raise (RuntimeError "Downloader not started. Use async context manager."), w')
    ∧ requests w' = requests w ∧ log w' = log w ∧ files w' = files w.
Proof.
  intros Hstarted Hanswered Hmissing. unfold download_product_images, io_bind.
  destruct (DownloaderFacts.scan_existing_plan L now_at self product_id urls
              1 [] [] w Hanswered)
    as (images0 & tasks & w0 & Hscan & _ & _ & Hfiles0 & Hreq0 & Hlog0 & _).
  rewrite Hscan in *. cbn [fst snd app] in *.
  destruct tasks as [|[[u filepath] filename] tasks].
  - exfalso. apply scan_existing_ok in Hscan
      as (images' & tasks' & _ & Htasks & _ & _ & Hall).
    cbn [app] in Htasks. subst tasks'.
    assert (forallb (on_disk w) (targets L self product_id 1 urls) = true);
      [|congruence].
    apply forallb_forall. intros t Hin. apply list_elem_of_In in Hin.
    rewrite Forall_forall in Hall.
    destruct (Hall t Hin) as [?|(task & Htask & _)]; [done|].
    by apply elem_of_nil in Htask.
  - cbn [run_tasks]. unfold io_bind at 1, download_image. rewrite Hstarted.
    cbn [negb]. by exists w0.
Qed.

(** *** File names *)

Lemma get_filename_ok (product_id : string) (index : Z) (url filename : string) :
  _get_filename L product_id index url = Ok filename →
  ∃ ext, ext ∈ [".jpg"; ".jpeg"; ".png"; ".webp"; ".gif"]
    ∧ filename = product_id +:+ "_" +:+ format_0d 2 index +:+ ext.
Proof.
  unfold _get_filename.
  destruct (Urllib.urlparse L url "") as [parsed|e]; [|done]. cbn [rbind].
  set (ext := str_lower _).
  destruct (String.eqb ext "" || negb (Urllib.in_list ext _)) eqn:Hext;
    intros [= <-].
  - exists ".jpg". split; [set_solver|done].
  - exists ext. split; [|done]. apply orb_false_iff in Hext as [_ Hin].
    apply negb_false_iff in Hin. unfold Urllib.in_list in Hin. cbn [existsb] in Hin.
    repeat (apply orb_true_iff in Hin as [Hin|Hin];
            [apply String.eqb_eq in Hin; rewrite Hin; set_solver|]).
    done.
Qed.

(** X14.  A file name, when one is produced, is the product identifier, an
    underscore, the index in the format [02d], and one of the five extensions
    .jpg, .jpeg, .png, .webp, .gif. *)
Theorem filename_shape (product_id : string) (index : Z) (url filename : string) :
  _get_filename L product_id index url = Ok filename →
  ∃ ext, ext ∈ [".jpg"; ".jpeg"; ".png"; ".webp"; ".gif"]
    ∧ filename = product_id +:+ "_" +:+ format_0d 2 index +:+ ext.
Proof. apply get_filename_ok. Qed.

Lemma pretty_N_go_no_dot (x : N) : ∀ s,
  Str.free (Urllib.is_char ".") s = true →
  Str.free (Urllib.is_char ".") (pretty_N_go x s) = true.
Proof.
  induction (N.lt_wf_0 x) as [x _ IH]; intros s Hs.
  destruct (decide (x = 0)%N) as [->|Hx]; [by rewrite pretty_N_go_0|].
  rewrite pretty_N_go_step by lia. apply IH; [apply N.div_lt; lia|].
  rewrite StrFacts.free_cons, Hs, andb_true_r.
  unfold pretty_N_char. by repeat case_match.
Qed.

Lemma format_0d_no_dot (w : nat) (n : Z) :
  Str.free (Urllib.is_char ".") (format_0d w n) = true.
Proof.
  unfold format_0d.
  assert (Hd : Str.free (Urllib.is_char ".") (pretty n) = true).
  { destruct n as [|p|p]; [done| |];
      unfold pretty, pretty_Z, pretty, pretty_positive, pretty, pretty_N;
      rewrite decide_False by done.
    - by apply pretty_N_go_no_dot.
    - rewrite StrFacts.app_cons, StrFacts.app_nil_l, StrFacts.free_cons.
      by rewrite pretty_N_go_no_dot. }
  induction (w - String.length (pretty n))%nat as [|k IH]; [done|].
  cbn [zero_pad]. by rewrite StrFacts.free_cons, IH.
Qed.

(** X15.  Two images of one product never share a file name: for positive
    indices that differ, the names produced differ, whatever the URLs. *)
Theorem filenames_differ_by_index (product_id : string) (i j : Z)
    (u v fi fj : string) :
  0 < i → 0 < j → i ≠ j →
  _get_filename L product_id i u = Ok fi →
  _get_filename L product_id j v = Ok fj →
  fi ≠ fj.
Proof.
  intros Hi Hj Hne Hfi Hfj Heq.
  apply get_filename_ok in Hfi as (ei & Hei & ->).
  apply get_filename_ok in Hfj as (ej & Hej & ->).
  apply FormatFacts.str_app_inv_head in Heq.
  rewrite !StrFacts.app_cons, !StrFacts.app_nil_l in Heq. injection Heq as Heq.
  assert (Hbreak : ∀ k e, e ∈ [".jpg"; ".jpeg"; ".png"; ".webp"; ".gif"] →
            Str.break (Urllib.is_char ".") (format_0d 2 k +:+ e) = (format_0d 2 k, e)).
  { intros k e He. apply StrFacts.break_app; [apply format_0d_no_dot|].
    repeat (apply elem_of_cons in He as [->|He]; [done|]).
    by apply elem_of_nil in He. }
  pose proof (Hbreak i ei Hei) as Hbi. rewrite Heq, (Hbreak j ej Hej) in Hbi.
  injection Hbi as Hpad _. symmetry in Hpad.
  by apply FormatFacts.format_0d_inj in Hpad.
Qed.

End Facts.

(** *** Metadata *)

Section Metadata.
Variable parse_metadata : string → result CrawlResult.
Variable dump_metadata : CrawlResult → string.
Variable self : ImageDownloader.

(** X16.  What [save_metadata] writes is what [load_metadata] reads: when the
    JSON decoding gives back the result that was encoded, [load_metadata]
    returns it, [get_downloaded_product_ids] returns the identifiers of its
    products, and each of them is skipped by the next run. *)
Theorem saved_products_are_skipped (r : CrawlResult) (w : World) :
  parse_metadata (dump_metadata r) = Ok r →
  let w' := snd (save_metadata dump_metadata self r w) in
  load_metadata parse_metadata self w' = (Ok (Some r), w')
  ∧ get_downloaded_product_ids parse_metadata self w'
    = (Ok (list_to_set (map p_id (cr_products r))), w')
  ∧ ∀ p, p ∈ cr_products r →
         skips (list_to_set (map p_id (cr_products r))) (p_id p) = true.
Proof.
  intros Hround w'.
  assert (Hload : load_metadata parse_metadata self w' = (Ok (Some r), w')).
  { unfold load_metadata, io_bind, path_exists. subst w'.
    cbn [save_metadata snd files]. rewrite lookup_insert_eq. cbn [negb files].
    by rewrite lookup_insert_eq, Hround. }
  split; [done|]. split.
  - unfold get_downloaded_product_ids, io_bind. by rewrite Hload.
  - intros p Hp. unfold skips. apply bool_decide_eq_true.
    apply elem_of_list_to_set. change map with (@fmap list _).
    apply list_elem_of_fmap. by exists p.
Qed.

End Metadata.

(** *** Crawl results *)

Lemma add_product_totals (r : CrawlResult) (p : Product) :
  let r' := add_product r p in
  cr_products r' = cr_products r ++ [p]
  ∧ cr_total_products r' = Z.of_nat (length (cr_products r'))
  ∧ cr_total_images r' = image_total (cr_products r')
  ∧ cr_crawled_at r' = cr_crawled_at r.
Proof. done. Qed.

(** X17.  [add_product] recomputes the totals from the list: after one or more
    additions - or after none, on a result whose totals were right - the
    products are the old ones followed by the added ones, [total_products] is
    their number and [total_images] the number of their images, whatever the
    totals were before. *)
Theorem crawl_result_totals (r : CrawlResult) (ps : list Product) :
  ps ≠ []
  ∨ (cr_total_products r = Z.of_nat (length (cr_products r))
     ∧ cr_total_images r = image_total (cr_products r)) →
  let r' := add_products r ps in
  cr_products r' = cr_products r ++ ps
  ∧ cr_total_products r' = Z.of_nat (length (cr_products r'))
  ∧ cr_total_images r' = image_total (cr_products r')
  ∧ cr_crawled_at r' = cr_crawled_at r.
Proof.
  intros H r'. subst r'. unfold add_products.
  revert r H. induction ps as [|p ps IH]; intros r H.
  - destruct H as [?|[? ?]]; [done|]. cbn [fold_left]. by rewrite app_nil_r.
  - cbn [fold_left]. destruct (add_product_totals r p) as (Hps & Htot & Himg & Hat).
    cbv zeta in *. destruct (IH (add_product r p)) as (Hps' & Htot' & Himg' & Hat').
    { right. done. }
    split; [by rewrite Hps', Hps, <- app_assoc|].
    split; [exact Htot'|]. split; [exact Himg'|]. by rewrite Hat', Hat.
Qed.


(** *** The theorems at work on a product of two images *)

Lemma crawl_result_totals_witness :
  let r' := add_products (mkCrawlResult [] 0 7 9) [Fixture.tee] in
  [Fixture.tee] ≠ [] ∧ cr_total_products r' = 1 ∧ cr_total_images r' = 0.
Proof.
  intros r'. assert (H : [Fixture.tee] ≠ []) by discriminate.
  split; [exact H|].
  destruct (crawl_result_totals (mkCrawlResult [] 0 7 9) [Fixture.tee] (or_introl H))
    as (_ & H1 & H2 & _).
  split; [exact H1|exact H2].
Defined.

Lemma filename_shape_witness :
  _get_filename Sample.lib "classic-tee" 2
    "https://ggstore.com/cdn/shop/files/tee-2.PNG?width=400" = Ok "classic-tee_02.png"
  ∧ ∃ ext, ext ∈ [".jpg"; ".jpeg"; ".png"; ".webp"; ".gif"]
      ∧ "classic-tee_02.png" = "classic-tee" +:+ "_" +:+ format_0d 2 2 +:+ ext.
Proof.
  assert (H : _get_filename Sample.lib "classic-tee" 2
                "https://ggstore.com/cdn/shop/files/tee-2.PNG?width=400"
              = Ok "classic-tee_02.png") by (vm_compute; reflexivity).
  split; [exact H|]. exact (filename_shape Sample.lib _ _ _ _ H).
Defined.

Lemma filenames_differ_by_index_witness :
  let u := "https://ggstore.com/cdn/shop/files/tee.jpg" in
  _get_filename Sample.lib "classic-tee" 1 u = Ok "classic-tee_01.jpg"
  ∧ _get_filename Sample.lib "classic-tee" 2 u = Ok "classic-tee_02.jpg"
  ∧ "classic-tee_01.jpg" ≠ "classic-tee_02.jpg".
Proof.
  intros u.
  assert (H1 : _get_filename Sample.lib "classic-tee" 1 u = Ok "classic-tee_01.jpg")
    by (vm_compute; reflexivity).
  assert (H2 : _get_filename Sample.lib "classic-tee" 2 u = Ok "classic-tee_02.jpg")
    by (vm_compute; reflexivity).
  split; [exact H1|]. split; [exact H2|].
  apply (filenames_differ_by_index Sample.lib "classic-tee" 1 2 u u); [lia|lia|lia|exact H1|exact H2].
Defined.

Lemma files_on_disk_need_no_request_witness :
  forallb (on_disk Fixture.stocked_world)
    (targets Sample.lib Fixture.idle_downloader "classic-tee" 1 Fixture.two_urls) = true
  ∧ ∃ images w',
      download_product_images Sample.lib Sample.net Sample.now_at
        Fixture.idle_downloader "classic-tee" Fixture.two_urls Fixture.stocked_world
      = (Ok images, w')
      ∧ length images = 2%nat ∧ requests w' = 0%nat.
Proof.
  assert (H : forallb (on_disk Fixture.stocked_world)
                (targets Sample.lib Fixture.idle_downloader "classic-tee" 1
                   Fixture.two_urls) = true) by (vm_compute; reflexivity).
  split; [exact H|].
  destruct (files_on_disk_need_no_request Sample.lib Sample.net Sample.now_at
              Fixture.idle_downloader "classic-tee" Fixture.two_urls
              Fixture.stocked_world H) as (images & w' & H1 & H2 & H3 & _).
  exists images, w'. split; [exact H1|]. split; [|exact H3].
  rewrite <- (length_fmap original_url), H2. reflexivity.
Defined.

Lemma second_run_sends_no_request_witness :
  let first := download_product_images Sample.lib Fixture.net_ok Sample.now_at
                 Sample.downloader "classic-tee" Fixture.two_urls Sample.empty_world in
  ∃ images, fst first = Ok images ∧ length images = 2%nat
    ∧ requests (snd first) = 2%nat
    ∧ ∃ images2 w'',
        download_product_images Sample.lib Fixture.net_ok Sample.now_at
          Sample.downloader "classic-tee" Fixture.two_urls (snd first)
        = (Ok images2, w'')
        ∧ length images2 = 2%nat ∧ requests w'' = 2%nat.
Proof.
  intros first.
  set (images := match fst first with Ok l => l | Raise _ => [] end).
  assert (H : first = (Ok images, snd first)) by (vm_compute; reflexivity).
  assert (Hlen : length images = length Fixture.two_urls) by (vm_compute; reflexivity).
  assert (Hreq : requests (snd first) = 2%nat) by (vm_compute; reflexivity).
  exists images. split; [by rewrite H|]. split; [exact Hlen|]. split; [exact Hreq|].
  destruct (second_run_sends_no_request Sample.lib Fixture.net_ok Sample.now_at
              Sample.downloader "classic-tee" Fixture.two_urls Sample.empty_world
              (snd first) images H Hlen) as (images2 & w'' & H1 & H2 & H3 & _).
  exists images2, w''. split; [exact H1|]. split.
  - rewrite <- (length_fmap original_url), H2. reflexivity.
  - by rewrite H3.
Defined.

Lemma malformed_url_aborts_before_any_request_witness :
  Exists (fun u => is_ok (Urllib.urlparse Sample.lib u "") = false) Fixture.bad_urls
  ∧ ∃ e w',
      download_product_images Sample.lib Fixture.net_ok Sample.now_at Sample.downloader
        "classic-tee" Fixture.bad_urls Sample.empty_world = (Raise e, w')
      ∧ requests w' = 0%nat ∧ files w' = ∅.
Proof.
  assert (H : Exists (fun u => is_ok (Urllib.urlparse Sample.lib u "") = false)
                Fixture.bad_urls)
    by (apply Exists_cons_tl, Exists_cons_hd; vm_compute; reflexivity).
  split; [exact H|].
  destruct (malformed_url_aborts_before_any_request Sample.lib Fixture.net_ok
              Sample.now_at Sample.downloader "classic-tee" Fixture.bad_urls
              Sample.empty_world H) as (e & w' & H1 & H2 & _ & H3).
  exists e, w'. split; [exact H1|]. split; [exact H2|exact H3].
Defined.

Lemma not_started_raises_on_first_missing_file_witness :
  started Fixture.idle_downloader = false
  ∧ forallb (answered Sample.empty_world)
      (targets Sample.lib Fixture.idle_downloader "classic-tee" 1 Fixture.two_urls)
    = true
  ∧ forallb (on_disk Sample.empty_world)
      (targets Sample.lib Fixture.idle_downloader "classic-tee" 1 Fixture.two_urls)
    = false
  ∧ ∃ w',
      download_product_images Sample.lib Fixture.net_ok Sample.now_at
        Fixture.idle_downloader "classic-tee" Fixture.two_urls Sample.empty_world
      = (Raise (RuntimeError "Downloader not started. Use async context manager."), w')
      ∧ requests w' = 0%nat.
Proof.
  assert (H : forallb (on_disk Sample.empty_world)
                (targets Sample.lib Fixture.idle_downloader "classic-tee" 1
                   Fixture.two_urls) = false) by (vm_compute; reflexivity).
  assert (Ha : forallb (answered Sample.empty_world)
                 (targets Sample.lib Fixture.idle_downloader "classic-tee" 1
                    Fixture.two_urls) = true) by (vm_compute; reflexivity).
  split; [reflexivity|]. split; [exact Ha|]. split; [exact H|].
  destruct (not_started_raises_on_first_missing_file Sample.lib Fixture.net_ok
              Sample.now_at Fixture.idle_downloader "classic-tee" Fixture.two_urls
              Sample.empty_world eq_refl Ha H) as (w' & H1 & H2 & _).
  exists w'. split; [exact H1|exact H2].
Defined.

Lemma saved_products_are_skipped_witness :
  Fixture.read_back (Fixture.dump_ids Fixture.one_product)
  = Ok Fixture.one_product
  ∧ skips (list_to_set (map p_id (cr_products Fixture.one_product))) "classic-tee"
    = true.
Proof.
  assert (H : Fixture.read_back (Fixture.dump_ids Fixture.one_product)
              = Ok Fixture.one_product) by (vm_compute; reflexivity).
  split; [exact H|].
  destruct (saved_products_are_skipped Fixture.read_back
              Fixture.dump_ids Sample.downloader Fixture.one_product Sample.empty_world H)
    as (_ & _ & Hskip).
  apply (Hskip Fixture.tee). left.
Defined.

End StorageFacts.

Module ListingFacts.
Import Crawler Listing.

Lemma contains_cons (sub : string) (c : ascii) (s : string) :
  Str.contains sub s = true → Str.contains sub (String c s) = true.
Proof. intros H. cbn [Str.contains]. rewrite H. apply orb_true_r. Qed.

Lemma contains_app_r (sub a s : string) :
  Str.contains sub s = true → Str.contains sub (a +:+ s) = true.
Proof.
  intros H. induction a as [|c a IH]; [done|].
  rewrite StrFacts.app_cons. by apply contains_cons.
Qed.

Lemma collect_page_spec (product_urls : list string) (hrefs : list (option string)) :
  ∀ page_urls,
    NoDup (product_urls ++ page_urls) →
    Forall (fun u => product_link u = true) page_urls →
    NoDup (product_urls ++ collect_page product_urls page_urls hrefs)
    ∧ Forall (fun u => product_link u = true)
        (collect_page product_urls page_urls hrefs).
Proof.
  induction hrefs as [|href hrefs IH]; intros page_urls Hnd Hgood; [done|].
  cbn [collect_page]. destruct href as [h|]; [|by apply IH].
  destruct (negb (String.eqb h "") && Str.contains "/products/" h) eqn:Hh;
    [|by apply IH].
  apply andb_true_iff in Hh as [_ Hprod].
  set (full_url := if Str.startswith h "http" then h else (BASE_URL +:+ h)%string).
  destruct (negb (bool_decide (full_url ∈ product_urls))
            && negb (bool_decide (full_url ∈ page_urls))) eqn:Hnew; [|by apply IH].
  apply andb_true_iff in Hnew as [H1 H2].
  apply negb_true_iff, bool_decide_eq_false in H1.
  apply negb_true_iff, bool_decide_eq_false in H2.
  apply IH.
  - rewrite app_assoc. apply NoDup_app. split; [done|]. split.
    + intros u Hu ->%list_elem_of_singleton.
      apply elem_of_app in Hu as [?|?]; done.
    + apply NoDup_singleton.
  - apply Forall_app. split; [done|]. constructor; [|done].
    unfold product_link, full_url.
    destruct (Str.startswith h "http") eqn:Hhttp.
    + by rewrite Hhttp, Hprod.
    + apply andb_true_iff. split; [by destruct h|]. by apply contains_app_r.
Qed.

Section Facts.
Variable listing : Z → result (list (option string)).

Lemma body_tidy (st : Loop) :
  tidy_urls (product_urls st) →
  match body listing st with
  | Next st' | Break st' | Fail _ st' => tidy_urls (product_urls st')
  end.
Proof.
  intros [Hnd Hgood]. unfold body. cbn [product_urls page_num fetched].
  destruct (listing (page_num st)) as [links|e]; [|done].
  destruct links as [|l links]; [done|].
  destruct (collect_page_spec (product_urls st) (l :: links) [])
    as [Hnd' Hgood']; [by rewrite app_nil_r|done|].
  destruct (collect_page (product_urls st) [] (l :: links)) as [|u us] eqn:Hpage;
    [done|].
  cbn [page_num product_urls].
  assert (tidy_urls (product_urls st ++ u :: us))
    by (split; [done|by apply Forall_app]).
  by destruct (50 <? page_num st + 1).
Qed.

Lemma loop_tidy (fuel : nat) : ∀ st urls pages,
  tidy_urls (product_urls st) →
  loop listing fuel st = Some (Ok urls, pages) → tidy_urls urls.
Proof.
  induction fuel as [|fuel IH]; intros st urls pages Hst Hloop; [done|].
  cbn [loop] in Hloop. pose proof (body_tidy st Hst) as Hbody.
  destruct (body listing st) as [st'|st'|e st'].
  - by apply (IH st' urls pages).
  - by injection Hloop as <- _.
  - done.
Qed.

(** X18.  The product URLs that [get_product_urls] returns hold no repeat, and
    each starts with [http] and contains [/products/]. *)
Theorem product_urls_are_distinct_product_links (started : bool) (fuel : nat)
    (urls : list string) (pages : list Z) :
  get_product_urls listing started fuel = Some (Ok urls, pages) →
  NoDup urls
  ∧ ∀ u, u ∈ urls → Str.startswith u "http" = true
                    ∧ Str.contains "/products/" u = true.
Proof.
  unfold get_product_urls. destruct started; cbn [negb]; [|done].
  intros Hloop. apply loop_tidy in Hloop as [Hnd Hgood]; [|split; [constructor|done]].
  split; [done|]. intros u Hu. rewrite Forall_forall in Hgood.
  by apply andb_true_iff, Hgood.
Qed.

End Facts.

Lemma product_urls_are_distinct_product_links_witness :
  get_product_urls Fixture.listing true 50
  = Some (Ok ["https://ggstore.com/products/classic-tee";
              "https://ggstore.com/products/cap-red"], [1; 2])
  ∧ NoDup ["https://ggstore.com/products/classic-tee";
           "https://ggstore.com/products/cap-red"].
Proof.
  assert (H : get_product_urls Fixture.listing true 50
              = Some (Ok ["https://ggstore.com/products/classic-tee";
                          "https://ggstore.com/products/cap-red"], [1; 2]))
    by (vm_compute; reflexivity).
  split; [exact H|].
  exact (proj1 (product_urls_are_distinct_product_links Fixture.listing true 50 _ _ H)).
Defined.

End ListingFacts.

Module ReFacts.
Import Re StrFacts.

(** A match hands some rest of the input to its continuation. *)
Lemma run_continues {R} (r : regex) : ∀ s g (k : string → option string → option R) x,
  run r s g k = Some x → ∃ s' g', k s' g' = Some x.
Proof.
  induction r as [|p|p|r1 IH1 r2 IH2|r1 IH1 r2 IH2|r1 IH1|r1 IH1];
    intros s g k x; cbn [run].
  - eauto.
  - destruct s as [|c s]; [done|]. destruct (p c); [eauto|done].
  - destruct s as [|c s]; [done|]. cbv zeta. destruct (_ && _); [eauto|done].
  - intros H. apply IH1 in H as (s' & g' & H). by apply IH2 in H.
  - destruct (run r1 s g k) eqn:H1.
    + intros [= ->]. by apply IH1 in H1.
    + apply IH2.
  - generalize (String.length s) at 1. intros fuel. revert s g.
    induction fuel as [|fuel IHf]; intros s g; [eauto|].
    destruct (run r1 s g _) eqn:H1.
    + intros [= ->]. apply IH1 in H1 as (s' & g' & H1).
      destruct (String.length s' <? String.length s)%nat; [|done].
      by apply IHf in H1.
    + eauto.
  - intros H. apply IH1 in H as (s' & g' & H). eauto.
Qed.

(** A repetition of one character class consumes characters of the
    class. *)
Lemma run_star_chr {R} (p : ascii → bool) : ∀ fuel s g
    (k : string → option string → option R) x,
  (fix star (fuel : nat) (s : string) (g : option string) : option R :=
     match fuel with
     | O => k s g
     | S fuel' =>
         match run (Chr p) s g (fun s' g' =>
                 if (String.length s' <? String.length s)%nat
                 then star fuel' s' g' else None) with
         | Some x => Some x
         | None => k s g
         end
     end) fuel s g = Some x →
  ∃ a b, s = a +:+ b ∧ Str.forallb p a = true ∧ k b g = Some x.
Proof.
  induction fuel as [|fuel IH]; intros s g k x H.
  - exists "", s. done.
  - cbn [run] in H. destruct s as [|c s]; [by exists "", ""|].
    destruct (p c) eqn:Hc; [|by exists "", (String c s)].
    replace (String.length s <? String.length (String c s))%nat with true in H
      by (symmetry; apply Nat.ltb_lt; simpl; lia).
    match type of H with
    | match ?t with _ => _ end = _ => destruct t eqn:Hrec
    end.
    + injection H as ->. apply IH in Hrec as (a & b & -> & Ha & Hk).
      exists (String c a), b. rewrite app_cons. cbn [Str.forallb]. by rewrite Hc, Ha.
    + by exists "", (String c s).
Qed.

Lemma length_app_str (a b : string) :
  String.length (a +:+ b) = (String.length a + String.length b)%nat.
Proof. induction a as [|c a IH]; [done|]. rewrite app_cons. simpl. by rewrite IH. Qed.

Lemma take_app_length (a b : string) : Str.take (String.length a) (a +:+ b) = a.
Proof. induction a as [|c a IH]; [by destruct b|]. rewrite app_cons. simpl. by rewrite IH. Qed.

(** The group [([p]+)]: what it captures is not empty and holds
    characters of the class only. *)
Lemma run_group_plus {R} (p : ascii → bool) (s : string) (g : option string)
    (k : string → option string → option R) (x : R) :
  run (Group (Plus (Chr p))) s g k = Some x →
  ∃ a b, s = a +:+ b ∧ a ≠ "" ∧ Str.forallb p a = true ∧ k b (Some a) = Some x.
Proof.
  unfold Plus. cbn [run]. destruct s as [|c s]; [done|].
  destruct (p c) eqn:Hc; [|done]. intros H.
  apply run_star_chr in H as (a & b & -> & Ha & Hk).
  exists (String c a), b. rewrite app_cons. split; [done|]. split; [done|].
  cbn [Str.forallb]. rewrite Hc, Ha. split; [done|].
  rewrite <- Hk. do 2 f_equal.
  replace (String.length (String c (a +:+ b)) - String.length b)%nat
    with (String.length (String c a))
    by (simpl; rewrite length_app_str; lia).
  by rewrite <- app_cons, take_app_length.
Qed.

(** A pattern that ends with such a group. *)
Lemma match_ends_with_group (rs : list regex) (p : ascii → bool) (s : string) (h : hit) :
  match_here (fold_right Seq Eps (rs ++ [Group (Plus (Chr p))])) s = Some h →
  group1 h ≠ "" ∧ Str.forallb p (group1 h) = true.
Proof.
  unfold match_here. generalize (@None string) as g. revert s.
  induction rs as [|r rs IH]; intros s g H.
  - cbn [app fold_right] in H. cbn [run] in H.
    change (run (Group (Plus (Chr p))) s g
              (fun s' g' => Some (mkHit (default "" g') s')) = Some h) in H.
    apply run_group_plus in H as (a & b & _ & Hne & Ha & [= <-]). done.
  - cbn [app fold_right] in H. cbn [run] in H.
    apply run_continues in H as (s' & g' & H). by apply (IH s' g').
Qed.

(** *** Classes with characters outside the ASCII range *)

Lemma take_drop (n : nat) (s : string) : Str.take n s +:+ Str.drop n s = s.
Proof.
  revert s. induction n as [|n IH]; intros [|c s]; try done.
  cbn [Str.take Str.drop]. by rewrite app_cons, IH.
Qed.

Lemma run_class {R} (p : ascii → bool) (q : string → bool) (s : string)
    (g : option string) (k : string → option string → option R) (x : R) :
  run (Alt (Chr p) (Uni q)) s g k = Some x →
  ∃ u s', s = u +:+ s' ∧ in_class p q u = true ∧ k s' g = Some x.
Proof.
  cbn [run]. destruct s as [|c s]; [done|]. cbv zeta.
  assert (Hwide : (if Str.is_wide_char (Str.take (Str.utf8_width c) (String c s))
                      && q (Str.take (Str.utf8_width c) (String c s))
                   then k (Str.drop (Str.utf8_width c) (String c s)) g else None)
                  = Some x →
                  ∃ u s', String c s = u +:+ s' ∧ in_class p q u = true
                          ∧ k s' g = Some x).
  { destruct (_ && _) eqn:Hw; [|done]. intros Hk.
    exists (Str.take (Str.utf8_width c) (String c s)),
           (Str.drop (Str.utf8_width c) (String c s)).
    split; [by rewrite take_drop|]. split; [|done].
    unfold in_class. rewrite Hw. apply orb_true_r. }
  destruct (p c) eqn:Hc; [|exact Hwide].
  destruct (k s g) as [y|] eqn:Hk; [|exact Hwide].
  intros [= ->]. exists (String c ""), s.
  split; [done|]. split; [|done]. unfold in_class. by rewrite Hc.
Qed.

Section Units.
Context {R : Type}.
Variable r : regex.
Variable P : string → bool.
Hypothesis run_unit :
  ∀ s g (k : string → option string → option R) x,
    run r s g k = Some x → ∃ u s', s = u +:+ s' ∧ P u = true ∧ k s' g = Some x.

(** A repetition of such a class consumes characters of the class. *)
Lemma run_star_units : ∀ fuel s g (k : string → option string → option R) x,
  (fix star (fuel : nat) (s : string) (g : option string) : option R :=
     match fuel with
     | O => k s g
     | S fuel' =>
         match run r s g (fun s' g' =>
                 if (String.length s' <? String.length s)%nat
                 then star fuel' s' g' else None) with
         | Some x => Some x
         | None => k s g
         end
     end) fuel s g = Some x →
  ∃ us b, s = Str.flatten us +:+ b ∧ forallb P us = true ∧ k b g = Some x.
Proof.
  induction fuel as [|fuel IH]; intros s g k x H.
  - by exists [], s.
  - match type of H with
    | match ?t with _ => _ end = _ => destruct t as [y|] eqn:Hrun
    end; [|by exists [], s].
    injection H as ->.
    apply run_unit in Hrun as (u & s' & -> & Hu & Hk).
    destruct (String.length s' <? String.length (u +:+ s'))%nat; [|done].
    apply IH in Hk as (us & b & -> & Hus & Hk).
    exists (u :: us), b. cbn [Str.flatten fold_right forallb].
    fold (Str.flatten us). by rewrite app_assoc, Hu, Hus.
Qed.

(** The group [([class]+)]: what it captures is one or more characters of
    the class. *)
Lemma run_group_units (s : string) (g : option string)
    (k : string → option string → option R) (x : R) :
  run (Group (Plus r)) s g k = Some x →
  ∃ us b, s = Str.flatten us +:+ b ∧ us ≠ [] ∧ forallb P us = true
          ∧ k b (Some (Str.flatten us)) = Some x.
Proof.
  unfold Plus. cbn [run]. intros H.
  apply run_unit in H as (u & s' & -> & Hu & H).
  apply run_star_units in H as (us & b & -> & Hus & Hk).
  exists (u :: us), b. cbn [Str.flatten fold_right forallb]. fold (Str.flatten us).
  rewrite app_assoc, Hu, Hus. split; [done|]. split; [done|]. split; [done|].
  rewrite <- Hk. do 2 f_equal.
  replace (String.length (u +:+ Str.flatten us +:+ b) - String.length b)%nat
    with (String.length (u +:+ Str.flatten us))
    by (rewrite <- (app_assoc u), (length_app_str (u +:+ Str.flatten us) b); lia).
  by rewrite <- (app_assoc u), take_app_length.
Qed.

End Units.

(** A pattern that ends with such a group. *)
Lemma match_ends_with_units (rs : list regex) (p : ascii → bool)
    (q : string → bool) (s : string) (h : hit) :
  match_here (fold_right Seq Eps (rs ++ [Group (Plus (Alt (Chr p) (Uni q)))])) s
  = Some h →
  ∃ us, group1 h = Str.flatten us ∧ us ≠ [] ∧ forallb (in_class p q) us = true.
Proof.
  unfold match_here. generalize (@None string) as g. revert s.
  induction rs as [|r rs IH]; intros s g H.
  - cbn [app fold_right] in H.
    change (run (Group (Plus (Alt (Chr p) (Uni q)))) s g
              (fun s' g' => Some (mkHit (default "" g') s')) = Some h) in H.
    apply (run_group_units _ (in_class p q)) in H
      as (us & b & _ & Hne & Hus & [= <-]); [by exists us|].
    intros s0 g0 k0 x0. apply run_class.
  - cbn [app fold_right] in H. cbn [run] in H.
    apply run_continues in H as (s' & g' & H). by apply (IH s' g').
Qed.

Lemma search_is_match (r : regex) (s : string) (h : hit) :
  search r s = Some h → ∃ s', match_here r s' = Some h.
Proof.
  induction s as [|c s IH]; cbn [search].
  - destruct (match_here r "") eqn:H; [|done]. intros [= ->]. eauto.
  - destruct (match_here r (String c s)) eqn:H.
    + intros [= ->]. eauto.
    + exact IH.
Qed.

(** A pattern that starts with a character class finds nothing in a text
    free of that class. *)
Lemma search_needs_first (p : ascii → bool) (r1 r2 : regex) (s : string) :
  Str.free p s = true → search (Seq (Seq (Chr p) r1) r2) s = None.
Proof.
  induction s as [|c s IH]; [done|]. rewrite free_cons.
  intros [Hc Hs]%andb_true_iff. apply negb_true_iff in Hc.
  cbn [search]. unfold match_here at 1. cbn [run]. rewrite Hc. by apply IH.
Qed.

End ReFacts.

Module ExtractorFacts.
Import Parser StrFacts ReFacts Slug.

(** *** Characters *)

Lemma lower_is_lt (x : ascii) :
  Ascii.eqb (lower_ascii x) (lower_ascii "<") = Ascii.eqb x "<".
Proof. destruct x as [[] [] [] [] [] [] [] []]; vm_compute; reflexivity. Qed.

Lemma dash_to_space_facts (x : ascii) :
  let y := if Ascii.eqb (upper_ascii x) "-" then " "%char else upper_ascii x in
  y ≠ "-"%char
  ∧ is_lower_letter y = false
  ∧ (y = "A"%char → lower_ascii x = "a"%char)
  ∧ (y = "L"%char → lower_ascii x = "l"%char).
Proof.
  destruct x as [[] [] [] [] [] [] [] []]; vm_compute; repeat split;
    (discriminate || reflexivity || auto).
Qed.

(** No byte of a digit, a comma, a dot or a character outside the ASCII
    range is ASCII whitespace. *)
Lemma no_space_byte (c : ascii) :
  Str.is_continuation c || (2 <=? Str.utf8_width c)%nat
  || (Str.is_digit c || Str.mem c ",.") = true →
  Str.is_space c = false.
Proof.
  destruct c as [[] [] [] [] [] [] [] []]; vm_compute; intros H;
    first [reflexivity|discriminate H].
Qed.

(** *** Texts *)

Lemma forallb_lstrip (p q : ascii → bool) (s : string) :
  Str.forallb p s = true → Str.forallb p (Str.lstrip q s) = true.
Proof.
  induction s as [|c s IH]; [done|]. cbn [Str.forallb Str.lstrip].
  intros [Hc Hs]%andb_true_iff. destruct (q c); [by apply IH|].
  cbn [Str.forallb]. by rewrite Hc, Hs.
Qed.

Lemma forallb_rstrip (p q : ascii → bool) (s : string) :
  Str.forallb p s = true → Str.forallb p (Str.rstrip q s) = true.
Proof.
  induction s as [|c s IH]; [done|]. cbn [Str.forallb Str.rstrip].
  intros [Hc Hs]%andb_true_iff. specialize (IH Hs).
  destruct (Str.rstrip q s) as [|d r].
  - destruct (q c); [done|]. cbn [Str.forallb]. by rewrite Hc.
  - cbn [Str.forallb] in *. by rewrite Hc, IH.
Qed.

Lemma forallb_strip (p q : ascii → bool) (s : string) :
  Str.forallb p s = true → Str.forallb p (Str.strip q s) = true.
Proof. intros H. by apply forallb_rstrip, forallb_lstrip. Qed.

Lemma forallb_impl (p q : ascii → bool) (s : string) :
  (∀ c, p c = true → q c = true) → Str.forallb p s = true → Str.forallb q s = true.
Proof.
  intros Hpq. induction s as [|c s IH]; [done|]. cbn [Str.forallb].
  intros [Hc Hs]%andb_true_iff. by rewrite (Hpq c Hc), IH.
Qed.

(** Stripping twice is stripping once. *)
Lemma rstrip_cons_keep (p : ascii → bool) (c : ascii) (s : string) :
  p c = false → Str.rstrip p (String c s) = String c (Str.rstrip p s).
Proof. intros Hc. cbn [Str.rstrip]. rewrite Hc. by destruct (Str.rstrip p s). Qed.

Lemma rstrip_idem (p : ascii → bool) (s : string) :
  Str.rstrip p (Str.rstrip p s) = Str.rstrip p s.
Proof.
  induction s as [|c s IH]; [done|]. cbn [Str.rstrip].
  destruct (Str.rstrip p s) as [|d r] eqn:Hr.
  - destruct (p c) eqn:Hc; [done|]. cbn [Str.rstrip]. by rewrite Hc.
  - cbn [Str.rstrip] in *. by rewrite IH.
Qed.

Lemma strip_idem (p : ascii → bool) (s : string) :
  Str.strip p (Str.strip p s) = Str.strip p s.
Proof.
  unfold Str.strip. pose proof (lstrip_stops p s) as Hstop.
  destruct (Str.lstrip p s) as [|c t]; [done|]. cbn [Str.stops] in Hstop.
  apply negb_true_iff in Hstop.
  rewrite (rstrip_cons_keep p c t Hstop). cbn [Str.lstrip]. rewrite Hstop.
  by rewrite (rstrip_cons_keep p c _ Hstop), rstrip_idem.
Qed.

(** Nothing to strip from a text free of the characters to strip. *)
Lemma strip_free (p : ascii → bool) (s : string) :
  Str.free p s = true → Str.strip p s = s.
Proof.
  intros Hfree. unfold Str.strip.
  assert (Hl : Str.lstrip p s = s).
  { destruct s as [|c s]; [done|]. rewrite free_cons in Hfree.
    apply andb_true_iff in Hfree as [Hc%negb_true_iff _].
    cbn [Str.lstrip]. by rewrite Hc. }
  rewrite Hl. induction s as [|c s IH]; [done|]. rewrite free_cons in Hfree.
  apply andb_true_iff in Hfree as [Hc%negb_true_iff Hs].
  cbn [Str.rstrip]. rewrite IH; [|done|by destruct s; [|rewrite free_cons in Hs;
    apply andb_true_iff in Hs as [Hd%negb_true_iff _]; cbn [Str.lstrip];
    rewrite Hd]].
  destruct s; [by rewrite Hc|done].
Qed.

(** Replacing one character by another, character by character. *)
Lemma replace_char (a b : ascii) (s : string) :
  Str.replace (String a "") (String b "") s
  = str_map (fun c => if Ascii.eqb c a then b else c) s.
Proof.
  unfold Str.replace. induction s as [|c s IH]; [done|].
  cbn [Str.replace_go str_map String.prefix String.length Nat.sub].
  destruct (ascii_dec a c) as [->|Hne].
  - rewrite Ascii.eqb_refl.
    replace (String.prefix "" s) with true by (by destruct s).
    by rewrite app_cons, app_nil_l, IH.
  - apply not_eq_sym, Ascii.eqb_neq in Hne. by rewrite Hne, IH.
Qed.

Section Facts.
Variable L : PyLib.
Variable base_url : string.

(** *** The name *)

Lemma name_needs_markup (html : string) :
  Str.mem "<" html = false → _extract_product_name html = "Unknown Product".
Proof.
  intros Hlt.
  assert (Hfree : Str.free (fun x => Ascii.eqb (lower_ascii x) (lower_ascii "<")) html
                  = true).
  { induction html as [|c s IH]; [done|]. cbn [Str.mem] in Hlt.
    apply orb_false_iff in Hlt as [Hc Hs].
    rewrite free_cons, lower_is_lt, Ascii.eqb_sym, Hc.
    by apply IH. }
  unfold _extract_product_name.
  rewrite (search_needs_first _ _ _ html Hfree : Re.search og_title_pattern html = None).
  rewrite (search_needs_first _ _ _ html Hfree : Re.search title_pattern html = None).
  by rewrite (search_needs_first _ _ _ html Hfree : Re.search h1_pattern html = None).
Qed.

(** X19.  The product name carries no ASCII whitespace at its ends: stripping
    it again changes nothing.  Markup that holds no [<] at all has no title to
    find: its name is [Unknown Product]. *)
Theorem product_name_is_trimmed (html : string) :
  let name := _extract_product_name html in
  str_strip name = name
  ∧ (Str.mem "<" html = false → name = "Unknown Product").
Proof.
  split; [|apply name_needs_markup].
  unfold _extract_product_name.
  destruct (Re.search og_title_pattern html); [apply strip_idem|].
  destruct (Re.search title_pattern html).
  - destruct (Str.contains "|" _); destruct (Str.contains en_dash _); apply strip_idem.
  - destruct (Re.search h1_pattern html); [apply strip_idem|reflexivity].
Qed.

(** *** The price *)

Lemma price_unit_no_space (u : string) :
  price_unit L u = true → Str.free Str.is_space u = true.
Proof.
  unfold price_unit, Re.in_class. intros [H|H]%orb_true_iff.
  - destruct u as [|c [|d t]]; try done. rewrite free_cons, andb_true_r.
    apply negb_true_iff, no_space_byte. cbv beta in H. rewrite H.
    apply orb_true_r.
  - apply andb_true_iff in H as [H _]. destruct u as [|c t]; [done|].
    cbn [Str.is_wide_char] in H.
    apply andb_true_iff in H as [[Hc _]%andb_true_iff Ht].
    rewrite free_cons. apply andb_true_iff. split.
    + apply negb_true_iff, no_space_byte. by rewrite Hc, orb_true_r.
    + clear Hc. induction t as [|d t IH]; [done|]. cbn [Str.forallb] in Ht.
      apply andb_true_iff in Ht as [Hd Ht]. rewrite free_cons, IH by done.
      rewrite andb_true_r. apply negb_true_iff, no_space_byte. by rewrite Hd.
Qed.

Lemma flatten_no_space (units : list string) :
  forallb (price_unit L) units = true →
  Str.free Str.is_space (Str.flatten units) = true.
Proof.
  induction units as [|u units IH]; [done|]. cbn [forallb Str.flatten fold_right].
  intros [Hu Hus]%andb_true_iff.
  rewrite free_app, (price_unit_no_space u Hu). exact (IH Hus).
Qed.

Lemma first_price_units (patterns : list Re.regex) (html price : string) :
  Forall (fun r => ∃ rs p q,
            r = fold_right Re.Seq Re.Eps
                  (rs ++ [Re.Group (Re.Plus (Re.Alt (Re.Chr p) (Re.Uni q)))])
            ∧ ∀ u, Re.in_class p q u = true → price_unit L u = true) patterns →
  first_price patterns html = Some price →
  ∃ units, price = String "$" (Str.flatten units) ∧ units ≠ []
           ∧ forallb (price_unit L) units = true.
Proof.
  induction 1 as [|r patterns (rs & p & q & -> & Hq) _ IH]; [done|].
  cbn [first_price]. destruct (Re.search _ html) as [m|] eqn:Hm; [|exact IH].
  destruct (negb (String.eqb (str_strip (Re.group1 m)) "")) eqn:Hne; [|exact IH].
  intros [= <-].
  apply search_is_match in Hm as [s' Hm].
  apply match_ends_with_units in Hm as (units & -> & Hunits & Hall).
  assert (Hprice : forallb (price_unit L) units = true).
  { apply forallb_forall. intros u Hu. apply Hq.
    by apply (proj1 (forallb_forall _ _) Hall). }
  exists units. split; [|done].
  unfold str_strip. by rewrite (strip_free _ _ (flatten_no_space units Hprice)).
Qed.

Lemma ends_with_units (l : list Re.regex) (p : ascii → bool) (q : string → bool) :
  l ≠ [] →
  List.last l Re.Eps = Re.Group (Re.Plus (Re.Alt (Re.Chr p) (Re.Uni q))) →
  (∀ u, Re.in_class p q u = true → price_unit L u = true) →
  ∃ rs p' q',
    seq l = fold_right Re.Seq Re.Eps
              (rs ++ [Re.Group (Re.Plus (Re.Alt (Re.Chr p') (Re.Uni q')))])
    ∧ ∀ u, Re.in_class p' q' u = true → price_unit L u = true.
Proof.
  intros Hne Hlast Hq. exists (removelast l), p, q. split; [|done].
  by rewrite <- Hlast, <- app_removelast_last.
Qed.

Lemma digit_is_price_unit (u : string) :
  Re.in_class Str.is_digit (unicode_decimal L) u = true → price_unit L u = true.
Proof.
  unfold price_unit, Re.in_class. intros [H|H]%orb_true_iff; [|by rewrite H, orb_true_r].
  destruct u as [|c [|d t]]; try done. by rewrite H.
Qed.

(** X20.  A price, when one is found, is a dollar sign followed by one or
    more characters, each of them a comma, a dot or a decimal digit - one of
    the ten ASCII digits or a digit of another script. *)
Theorem price_shape (html price : string) :
  _extract_price L html = Some price →
  ∃ units, price = String "$" (Str.flatten units) ∧ units ≠ []
           ∧ forallb (price_unit L) units = true.
Proof.
  apply first_price_units. unfold price_patterns.
  repeat (apply Forall_cons; split); [| | |constructor].
  - by apply (ends_with_units _ (fun c => Str.is_digit c || Str.mem c ",.")
                (unicode_decimal L)).
  - by apply (ends_with_units _ (fun c => Str.is_digit c || Str.mem c ",.")
                (unicode_decimal L)).
  - apply (ends_with_units _ Str.is_digit (unicode_decimal L)); [done|done|].
    apply digit_is_price_unit.
Qed.

(** *** The category *)

(** X21.  A category, when one is found, is not empty, is not [ALL], and holds
    no hyphen and no lowercase letter of the ASCII range. *)
Theorem category_shape (html category : string) :
  _extract_category html = Some category →
  category ≠ "" ∧ category ≠ "ALL"
  ∧ Str.mem "-" category = false
  ∧ Str.free is_lower_letter category = true.
Proof.
  unfold _extract_category.
  destruct (Re.search collection_pattern html) as [m|] eqn:Hm; [|done].
  destruct (negb (String.eqb (str_lower (Re.group1 m)) "all")) eqn:Hall; [|done].
  intros [= <-]. apply negb_true_iff, String.eqb_neq in Hall.
  apply search_is_match in Hm as [s' Hm].
  apply (match_ends_with_group [Re.lit "/collections/"]) in Hm as [Hne _].
  change "-"%string with (String "-" "") at 1 2 3.
  change " "%string with (String " " "").
  rewrite !replace_char. unfold str_upper. set (g := Re.group1 m) in *. clearbody g.
  assert (Hmap : ∀ s, str_map (fun c => if Ascii.eqb c "-" then " "%char else c)
                        (str_map upper_ascii s)
                      = str_map (fun x => if Ascii.eqb (upper_ascii x) "-"
                                          then " "%char else upper_ascii x) s).
  { induction s as [|c s IH]; [done|]. cbn [str_map]. by rewrite IH. }
  rewrite Hmap. split; [by destruct g|]. split.
  - intros Heq. apply Hall. destruct g as [|c1 [|c2 [|c3 [|c4 g]]]]; try done.
    cbn [str_map] in Heq. injection Heq as H1 H2 H3.
    unfold str_lower. cbn [str_map].
    destruct (dash_to_space_facts c1) as (_ & _ & Ha & _).
    destruct (dash_to_space_facts c2) as (_ & _ & _ & Hl2).
    destruct (dash_to_space_facts c3) as (_ & _ & _ & Hl3).
    cbv zeta in *. by rewrite (Ha H1), (Hl2 H2), (Hl3 H3).
  - split.
    + clear. induction g as [|c g IH]; [done|]. cbn [str_map Str.mem].
      destruct (dash_to_space_facts c) as (Hd & _). cbv zeta in Hd.
      apply orb_false_iff. split; [|exact IH].
      apply Ascii.eqb_neq. by apply not_eq_sym.
    + clear. induction g as [|c g IH]; [done|]. cbn [str_map].
      destruct (dash_to_space_facts c) as (_ & Hlow & _). cbv zeta in Hlow.
      by rewrite free_cons, Hlow.
Qed.

(** *** The image test *)

Lemma prefix_refl (s : string) : String.prefix s s = true.
Proof.
  induction s as [|c s IH]; [done|]. cbn [String.prefix].
  by destruct (ascii_dec c c).
Qed.

Lemma prefix_app_l (a b s : string) :
  String.prefix (a +:+ b) s = true → String.prefix a s = true.
Proof.
  revert s. induction a as [|c a IH]; intros s; [by destruct s|].
  rewrite app_cons. destruct s as [|d s]; [done|]. cbn [String.prefix].
  destruct (ascii_dec c d); [apply IH|done].
Qed.

Lemma contains_app_l (a b s : string) :
  Str.contains (a +:+ b) s = true → Str.contains a s = true.
Proof.
  induction s as [|c s IH]; cbn [Str.contains].
  - rewrite !orb_false_r. apply prefix_app_l.
  - intros [H|H]%orb_true_iff; apply orb_true_iff;
      [left; by apply (prefix_app_l a b)|right; by apply IH].
Qed.

Lemma contains_self (s : string) : Str.contains s s = true.
Proof. destruct s; cbn [Str.contains]; by rewrite prefix_refl. Qed.

Lemma contains_drop (sub : string) (n : nat) (s : string) :
  Str.contains sub (Str.drop n s) = true → Str.contains sub s = true.
Proof.
  revert s. induction n as [|n IH]; intros s; [by destruct s|].
  destruct s as [|c s]; [done|]. cbn [Str.drop]. intros H.
  by apply ListingFacts.contains_cons, IH.
Qed.

Lemma endswith_contains (s suf : string) :
  Str.endswith s suf = true → Str.contains suf s = true.
Proof.
  unfold Str.endswith. intros H%String.eqb_eq.
  apply (contains_drop _ (String.length s - String.length suf)).
  rewrite H. apply contains_self.
Qed.

Lemma existsb_absorb {A} (f g : A → bool) (l : list A) :
  (∀ x, f x = true → g x = true) → existsb f l || existsb g l = existsb g l.
Proof.
  intros Hfg. destruct (existsb f l) eqn:Hf; [|done]. cbn [orb]. symmetry.
  apply existsb_exists in Hf as (x & Hin & Hx). apply existsb_exists.
  exists x. split; [done|]. by apply Hfg.
Qed.

(** X22.  [_is_product_image] answers [False] without parsing for the empty
    URL and for a URL that does not contain [cdn/shop/]; otherwise it raises
    what [urlparse] raises or tells whether the lowercased path contains one
    of the five extensions anywhere - the tests on the end of the path and on
    a following question mark add nothing. *)
Theorem product_image_test (url : string) :
  _is_product_image L url
  = if String.eqb url "" || negb (Str.contains "cdn/shop/" url) then Ok false
    else rmap (fun parsed =>
                 existsb (fun ext => Str.contains ext (str_lower (Urllib.path parsed)))
                   IMAGE_EXTENSIONS)
           (Urllib.urlparse L url "").
Proof.
  unfold _is_product_image. destruct (String.eqb url ""); [done|]. cbn [orb].
  destruct (negb (Str.contains "cdn/shop/" url)); [done|].
  destruct (Urllib.urlparse L url "") as [parsed|e]; [|done]. cbn [rbind rmap].
  f_equal. apply existsb_absorb. intros ext [H|H]%orb_true_iff.
  - by apply endswith_contains.
  - apply (contains_app_l _ "?"). by rewrite UrlFacts.str_lower_idem in H.
Qed.

End Facts.

(** *** The theorems at work on small pages *)

Lemma price_shape_witness :
  _extract_price Sample.lib Fixture.arabic_page
  = Some (String "$" Fixture.arabic_price)
  ∧ ∃ units, String "$" Fixture.arabic_price = String "$" (Str.flatten units)
      ∧ units ≠ [] ∧ forallb (price_unit Sample.lib) units = true.
Proof.
  assert (H : _extract_price Sample.lib Fixture.arabic_page
              = Some (String "$" Fixture.arabic_price)) by (vm_compute; reflexivity).
  split; [exact H|]. exact (price_shape Sample.lib _ _ H).
Defined.

Lemma category_shape_witness :
  _extract_category "<a href='/collections/t-shirts'>Tees</a>" = Some "T SHIRTS"
  ∧ "T SHIRTS" ≠ "ALL" ∧ Str.mem "-" "T SHIRTS" = false.
Proof.
  assert (H : _extract_category "<a href='/collections/t-shirts'>Tees</a>"
              = Some "T SHIRTS") by (vm_compute; reflexivity).
  split; [exact H|].
  destruct (category_shape _ _ H) as (_ & H1 & H2 & _). split; [exact H1|exact H2].
Defined.

End ExtractorFacts.

Module CanonFacts.
Import Parser Str Urllib StrFacts UrlFacts.

Lemma scheme_char_no_query (c : ascii) :
  mem c scheme_chars = true → is_char "?" c = false.
Proof. destruct c as [[] [] [] [] [] [] [] []]; vm_compute; intros H; auto; discriminate H. Qed.

Lemma delim_char_cases (c : ascii) :
  mem c "/?#" = false → is_char "?" c = false ∧ is_char "#" c = false.
Proof. destruct c as [[] [] [] [] [] [] [] []]; vm_compute; intros H; auto; discriminate H. Qed.

Lemma free_impl (p q : ascii → bool) (s : string) :
  (∀ c, p c = false → q c = false) → free p s = true → free q s = true.
Proof.
  intros Hpq. induction s as [|c s IH]; [done|]. rewrite !free_cons.
  intros [Hc Hs]%andb_true_iff. apply negb_true_iff in Hc.
  by rewrite (Hpq c Hc), IH.
Qed.

Lemma remove_app (p : ascii → bool) (a b : string) :
  remove p (a +:+ b) = remove p a +:+ remove p b.
Proof.
  induction a as [|c a IH]; [done|]. rewrite app_cons. cbn [remove].
  destruct (p c); by rewrite ?app_cons, IH.
Qed.

Lemma valid_scheme_free (sch : string) :
  valid_scheme sch = true →
  free (is_char "?") sch = true ∧ free (is_char "#") sch = true.
Proof.
  intros H. destruct (valid_scheme_facts sch H) as (Hlike & _).
  pose proof (scheme_like_chars sch Hlike) as Hchars.
  split; [|by apply scheme_like_free].
  clear -Hchars. induction sch as [|c s IH]; [done|]. cbn [forallb] in Hchars.
  apply andb_true_iff in Hchars as [Hc Hs]. rewrite free_cons.
  by rewrite (scheme_char_no_query c Hc), IH.
Qed.

Lemma free_with_scheme (p : ascii → bool) (sch body : string) :
  p ":"%char = false → free p sch = true → free p body = true →
  free p (with_scheme sch body) = true.
Proof.
  intros Hcolon Hsch Hbody. unfold with_scheme. destruct (negb _); [|done].
  by rewrite free_app, Hsch, app_cons, app_nil_l, free_cons, Hcolon, Hbody.
Qed.

Lemma with_scheme_fragment (sch a b frag : string) :
  with_scheme sch (a +:+ with_fragment b frag)
  = with_fragment (with_scheme sch (a +:+ b)) frag.
Proof.
  unfold with_scheme, with_fragment.
  destruct (negb (sch =? "")%string), (negb (frag =? "")%string);
    by rewrite ?app_assoc, ?app_cons, ?app_nil_l.
Qed.

Section Facts.
Variable L : PyLib.
Variable base_url : string.

(** The URL rebuilt from a parse without its query: a text free of [?]
    and [#], followed by the fragment when there is one. *)
Lemma geturl_has_no_query (x : string) (r : ParseResult) :
  urlparse L x "" = Ok r →
  ∃ body, urlunparse (replace_query "" r) = with_fragment body (fragment r)
          ∧ free (is_char "?") body = true ∧ free (is_char "#") body = true.
Proof.
  intros Hparse.
  destruct (first_parse_shape L x r Hparse)
    as (_ & Hsch & Hnl & (Hq & Hh) & _). cbv zeta in *.
  assert (Hschf : free (is_char "?") (scheme r) = true
                  ∧ free (is_char "#") (scheme r) = true).
  { destruct Hsch as [->|Hv]; [done|]. by apply valid_scheme_free. }
  destruct Hschf as [Hsq Hsh].
  assert (Hnlq : free (is_char "?") (netloc r) = true).
  { eapply free_impl; [|exact Hnl]. intros c Hc. by apply delim_char_cases. }
  assert (Hnlh : free (is_char "#") (netloc r) = true).
  { eapply free_impl; [|exact Hnl]. intros c Hc. by apply delim_char_cases. }
  rewrite geturl_unfold. set (url := join_params (path r) (params r)) in *.
  destruct (urlunsplit_cases (scheme r) (netloc r) url (fragment r))
    as [(url' & _ & Hurl' & _ & ->)|(_ & _ & ->)].
  - exists (with_scheme (scheme r) (String "/" (String "/" (netloc r +:+ url')))).
    split.
    + by rewrite <- !app_cons, <- with_scheme_fragment, !app_cons.
    + assert (free (is_char "?") url' = true ∧ free (is_char "#") url' = true)
        as [Hq' Hh'] by (destruct Hurl' as [->| ->]; by rewrite ?free_cons, ?Hq, ?Hh).
      split; apply free_with_scheme; try done;
        by rewrite !free_cons, free_app, ?Hnlq, ?Hnlh, ?Hq', ?Hh'.
  - exists (with_scheme (scheme r) url). split.
    + by rewrite <- (app_nil_l (with_fragment url _)), with_scheme_fragment.
    + split; by apply free_with_scheme.
Qed.

Lemma break_with_fragment (body frag : string) :
  free (is_char "#") body = true →
  fst (break (is_char "#") (with_fragment body frag)) = body.
Proof.
  intros Hh. destruct (with_fragment_cases body frag) as [[_ ->]|[_ ->]].
  - by rewrite break_free_all.
  - by rewrite break_app.
Qed.

Lemma canonical_no_query (u n : string) :
  _normalize_url L base_url u = Ok n →
  mem "?" (fst (break (is_char "#") n)) = false.
Proof.
  unfold _normalize_url. intros Hnorm.
  destruct (Html.unescape L u) as [x0|]; cbn [rbind] in Hnorm; [|done].
  destruct (if startswith x0 "//" then _ else _) as [x|]; cbn [rbind] in Hnorm; [|done].
  destruct (urlparse L x "") as [r|] eqn:Hparse; cbn [rbind] in Hnorm; [|done].
  injection Hnorm as <-.
  destruct (geturl_has_no_query x r Hparse) as (body & -> & Hq & Hh).
  rewrite break_with_fragment by done.
  rewrite mem_free in Hq. by apply negb_true_iff in Hq.
Qed.

(** The scheme of a URL that starts with [https:]. *)
Lemma https_scheme (rest : string) (r : ParseResult) :
  urlparse L ("https:" +:+ rest) "" = Ok r → scheme r = "https".
Proof.
  intros Hparse.
  destruct (urlparse_anatomy L _ r Hparse) as (y1 & _ & Hs & _).
  unfold clean in Hs. rewrite lstrip_id in Hs by done.
  rewrite remove_app in Hs.
  change (remove unsafe_url_byte "https:" +:+ remove unsafe_url_byte rest)
    with ("https" +:+ String ":" (remove unsafe_url_byte rest)) in Hs.
  rewrite (split_scheme_found "" "https" _ eq_refl) in Hs. by injection Hs as <- _.
Qed.

Lemma protocol_relative_https (u u' n : string) :
  Html.unescape L u = Ok u' →
  startswith u' "//" = true →
  _normalize_url L base_url u = Ok n →
  startswith n "https://" = true.
Proof.
  intros Hu Hrel. unfold _normalize_url. rewrite Hu. cbn [rbind]. rewrite Hrel.
  cbn [rbind].
  destruct (urlparse L ("https:" +:+ u') "") as [r|] eqn:Hparse; cbn [rbind]; [|done].
  intros [= <-]. pose proof (https_scheme u' r Hparse) as Hs.
  rewrite geturl_unfold, Hs.
  destruct (urlunsplit_cases "https" (netloc r) (join_params (path r) (params r))
              (fragment r))
    as [(url' & _ & _ & _ & ->)|(_ & [?|[?|Htwo]] & ->)]; try done.
  - unfold with_scheme. cbn [String.eqb negb].
    rewrite !app_cons, app_nil_l. unfold startswith. cbn.
    by destruct (netloc r +:+ _).
  - destruct (take_two_slashes _ Htwo) as [t ->].
    unfold with_scheme. cbn [String.eqb negb].
    rewrite !with_fragment_cons, !app_cons, app_nil_l. unfold startswith. cbn.
    by destruct (with_fragment t _).
Qed.

(** *** The image list *)

(** What holds of the collection at the start of the scan and is kept by
    every [add] of a canonical URL holds at the end. *)
Lemma scan_invariant {C} (add : C → string → C) (I : C → Prop) (html : string) :
  (∀ c u n, I c → _is_product_image L u = Ok true →
            _normalize_url L base_url u = Ok n → I (add c n)) →
  ∀ c c', I c → scan L base_url add c html = Ok c' → I c'.
Proof.
  intros Hadd.
  assert (Hharvest : ∀ c u c', I c → harvest L base_url add c u = Ok c' → I c').
  { intros c u c' Hc. unfold harvest.
    destruct (_is_product_image L u) as [[|]|] eqn:Hok; cbn [rbind]; [| |done].
    - destruct (_normalize_url L base_url u) as [n|] eqn:Hn; cbn [rbind]; [|done].
      intros [= <-]. by apply (Hadd c u n).
    - by intros [= <-]. }
  assert (Hall : ∀ urls c c', I c → harvest_all L base_url add c urls = Ok c' → I c').
  { induction urls as [|u urls IH]; intros c c' Hc; cbn [harvest_all].
    - by intros [= <-].
    - destruct (harvest L base_url add c u) as [c1|] eqn:H1; cbn [rbind]; [|done].
      apply IH. by apply (Hharvest c u). }
  assert (Hsrcset : ∀ srcs c c', I c → harvest_srcset L base_url add c srcs = Ok c' → I c').
  { induction srcs as [|src srcs IH]; intros c c' Hc; cbn [harvest_srcset].
    - by intros [= <-].
    - destruct (srcset_candidate src) as [u|]; cbn [rbind]; [|done].
      destruct (harvest L base_url add c u) as [c1|] eqn:H1; cbn [rbind]; [|done].
      apply IH. by apply (Hharvest c u). }
  assert (Hsrcsets : ∀ srcsets c c', I c →
            harvest_srcsets L base_url add c srcsets = Ok c' → I c').
  { induction srcsets as [|srcset srcsets IH]; intros c c' Hc; cbn [harvest_srcsets].
    - by intros [= <-].
    - destruct (harvest_srcset L base_url add c _) as [c1|] eqn:H1; cbn [rbind]; [|done].
      apply IH. by apply (Hsrcset (split "," srcset) c). }
  intros c c' Hc. unfold scan.
  destruct (harvest_srcsets L base_url add c _) as [c1|] eqn:H1; cbn [rbind]; [|done].
  destruct (harvest_all L base_url add c1 _) as [c2|] eqn:H2; cbn [rbind]; [|done].
  destruct (harvest_all L base_url add c2 _) as [c3|] eqn:H3; cbn [rbind]; [|done].
  intros H4. eapply Hall; [|exact H4]. eapply Hall; [|exact H3].
  eapply Hall; [|exact H2]. by eapply Hsrcsets.
Qed.

(** X23.  The shape of a canonical URL: it has no query - the text before its
    first [#] holds no question mark - and it starts with [https://] when the
    decoded input is protocol-relative, that is, starts with two slashes. *)
Theorem canonical_url_shape (u n : string) :
  _normalize_url L base_url u = Ok n →
  mem "?" (fst (break (is_char "#") n)) = false
  ∧ ∀ u', Html.unescape L u = Ok u' → startswith u' "//" = true →
          startswith n "https://" = true.
Proof.
  intros Hn. split; [by apply (canonical_no_query u)|].
  intros u' Hu Hslash. by apply (protocol_relative_https u u').
Qed.

(** X24.  Every URL of the image list is the canonical form of a candidate
    that [_is_product_image] accepted. *)
Theorem image_urls_are_accepted_candidates (html : string) (image_urls : list string) :
  _extract_image_urls L base_url html = Ok image_urls →
  ∀ n, n ∈ image_urls →
    ∃ u, _is_product_image L u = Ok true ∧ _normalize_url L base_url u = Ok n.
Proof.
  unfold _extract_image_urls.
  destruct (scan L base_url _ ∅ html) as [s|] eqn:Hscan; cbn [rbind]; [|done].
  intros [= <-] n Hn.
  assert (Hs : n ∈ s).
  { unfold sorted in Hn. rewrite merge_sort_Permutation in Hn.
    by apply elem_of_elements in Hn. }
  clear Hn. revert n Hs.
  apply (scan_invariant (fun (s : gset string) u => s ∪ {[ u ]})
           (fun s : gset string =>
              ∀ n, n ∈ s → ∃ u, _is_product_image L u = Ok true
                                ∧ _normalize_url L base_url u = Ok n)
           html) with (c := ∅) (c' := s);
    [|intros n Hn; by apply elem_of_empty in Hn|done].
  intros c u n Hc Hok Hnorm n' [Hin|Hin]%elem_of_union; [by apply Hc|].
  apply elem_of_singleton in Hin as ->. eauto.
Qed.

End Facts.

(** *** The theorems at work on the sample gallery *)

Lemma canonical_url_shape_witness :
  let u := "//ggstore.com/cdn/shop/files/a.jpg?v=1&amp;width=500#zoom" in
  let n := "https://ggstore.com/cdn/shop/files/a.jpg#zoom" in
  _normalize_url Sample.lib default_base_url u = Ok n
  ∧ mem "?" (fst (break (is_char "#") n)) = false
  ∧ startswith n "https://" = true.
Proof.
  intros u n.
  assert (H : _normalize_url Sample.lib default_base_url u = Ok n)
    by (vm_compute; reflexivity).
  split; [exact H|].
  destruct (canonical_url_shape Sample.lib default_base_url u n H) as (H1 & H2).
  split; [exact H1|].
  apply (H2 "//ggstore.com/cdn/shop/files/a.jpg?v=1&width=500#zoom"); vm_compute; reflexivity.
Defined.

Lemma image_urls_are_accepted_candidates_witness :
  _extract_image_urls Sample.lib default_base_url Sample.gallery
  = Ok ["https://ggstore.com/cdn/shop/files/a.jpg";
        "https://ggstore.com/cdn/shop/files/m.jpg";
        "https://ggstore.com/cdn/shop/files/z.jpg"]
  ∧ ∃ u, _is_product_image Sample.lib u = Ok true
      ∧ _normalize_url Sample.lib default_base_url u
        = Ok "https://ggstore.com/cdn/shop/files/a.jpg".
Proof.
  assert (H : _extract_image_urls Sample.lib default_base_url Sample.gallery
              = Ok ["https://ggstore.com/cdn/shop/files/a.jpg";
                    "https://ggstore.com/cdn/shop/files/m.jpg";
                    "https://ggstore.com/cdn/shop/files/z.jpg"])
    by (vm_compute; reflexivity).
  split; [exact H|].
  apply (image_urls_are_accepted_candidates _ _ _ _ H). left.
Defined.

End CanonFacts.

Module SlugFacts.
Import Parser Str Urllib StrFacts UrlFacts Slug.

Lemma slug_char_facts (c : ascii) :
  slug_char c = true →
  is_char "/" c = false ∧ is_char "?" c = false ∧ is_char "#" c = false
  ∧ is_char ";" c = false ∧ unsafe_url_byte c = false.
Proof.
  destruct c as [[] [] [] [] [] [] [] []]; vm_compute; intros H; repeat split;
    auto; discriminate H.
Qed.

Lemma free_of_forallb (p q : ascii → bool) (s : string) :
  (∀ c, p c = true → q c = false) → forallb p s = true → free q s = true.
Proof.
  intros Hpq. induction s as [|c s IH]; [done|]. cbn [forallb]. rewrite free_cons.
  intros [Hc Hs]%andb_true_iff. by rewrite (Hpq c Hc), IH.
Qed.

Lemma break_prefix (p : ascii → bool) (a b : string) :
  free p a = true →
  break p (a +:+ b) = (a +:+ fst (break p b), snd (break p b)).
Proof.
  intros Ha. pose proof (break_eq p b) as Heq.
  pose proof (break_free p b) as Hf. pose proof (break_stops p b) as Hs.
  destruct (break p b) as [x y]. cbn [fst snd] in *.
  rewrite <- Heq, <- StrFacts.app_assoc, break_app; [done| |done].
  by rewrite free_app, Ha, Hf.
Qed.

Lemma split_once_prefix (c : ascii) (a b : string) :
  free (is_char c) a = true →
  fst (split_once c (a +:+ b)) = a +:+ fst (split_once c b).
Proof.
  intros Ha. unfold split_once. rewrite break_prefix by done.
  pose proof (break_eq (is_char c) b) as Heq.
  destruct (break (is_char c) b) as [x y]. cbn [fst snd] in *.
  destruct y as [|d y]; [|done]. cbn [fst]. by rewrite app_nil_r in Heq; subst x.
Qed.

(** The path of a URL whose path is followed by nothing, a query or a
    fragment. *)
Lemma path_before_tail (pth tail : string) :
  free (is_char "?") pth = true → free (is_char "#") pth = true →
  stops (fun c => mem c "?#") tail = true →
  fst (split_once "?" (fst (split_once "#" (pth +:+ tail)))) = pth.
Proof.
  intros Hq Hh Htail. rewrite (split_once_prefix "#") by done.
  rewrite (split_once_prefix "?") by done.
  enough (fst (split_once "?" (fst (split_once "#" tail))) = "") as ->
    by apply app_nil_r.
  destruct tail as [|c t]; [done|].
  cbn [stops mem] in Htail. rewrite orb_false_r in Htail.
  apply orb_true_iff in Htail as [Hc|Hc]; apply Ascii.eqb_eq in Hc; subst c.
  - change (String "?" t) with (String "?" "" +:+ t).
    rewrite (split_once_prefix "#") by done. by rewrite app_cons, app_nil_l.
  - done.
Qed.

Lemma split_char_app (c : ascii) (a b : string) :
  free (is_char c) a = true →
  split (String c "") (a +:+ String c b) = a :: split (String c "") b.
Proof.
  unfold split. induction a as [|x a IH]; intros Ha.
  - rewrite app_nil_l. cbn [split_go String.prefix String.length Nat.sub].
    destruct (ascii_dec c c); [|done]. by destruct b.
  - rewrite free_cons in Ha. apply andb_true_iff in Ha as [Hx Ha].
    rewrite app_cons. cbn [split_go String.prefix].
    apply negb_true_iff, Ascii.eqb_neq in Hx.
    destruct (ascii_dec c x); [done|]. by rewrite (IH Ha).
Qed.

Lemma split_char_free (c : ascii) (s : string) :
  free (is_char c) s = true → split (String c "") s = [s].
Proof.
  unfold split. induction s as [|x s IH]; [done|]. rewrite free_cons.
  intros [Hx Hs]%andb_true_iff. cbn [split_go String.prefix].
  apply negb_true_iff, Ascii.eqb_neq in Hx.
  destruct (ascii_dec c x); [done|]. by rewrite (IH Hs).
Qed.

Lemma rstrip_all (p : ascii → bool) (t : string) :
  forallb p t = true → rstrip p t = "".
Proof.
  induction t as [|c t IH]; [done|]. cbn [forallb rstrip].
  intros [Hc Ht]%andb_true_iff. by rewrite (IH Ht), Hc.
Qed.

Lemma rstrip_free_app (p : ascii → bool) (s t : string) :
  free p s = true → forallb p t = true → rstrip p (s +:+ t) = s.
Proof.
  intros Hs Ht. induction s as [|c s IH]; [by apply rstrip_all|].
  rewrite free_cons in Hs. apply andb_true_iff in Hs as [Hc Hs].
  rewrite app_cons. cbn [rstrip]. rewrite (IH Hs).
  apply negb_true_iff in Hc. rewrite Hc. by destruct s.
Qed.

Lemma rstrip_app_keep (p : ascii → bool) (a s : string) :
  rstrip p s ≠ "" → rstrip p (a +:+ s) = a +:+ rstrip p s.
Proof.
  intros Hne. induction a as [|c a IH]; [done|].
  rewrite !app_cons. cbn [rstrip]. rewrite IH.
  destruct (a +:+ rstrip p s) eqn:E; [|done].
  destruct a; [by rewrite app_nil_l in E|by rewrite app_cons in E].
Qed.

Section Facts.
Variable L : PyLib.

Lemma urlparse_product_url (slug rest : string) :
  forallb slug_char slug = true →
  free unsafe_url_byte rest = true →
  page_tail rest = true →
  ∃ r trailing,
    urlparse L ("https://ggstore.com/products/" +:+ slug +:+ rest) "" = Ok r
    ∧ path r = "/products/" +:+ slug +:+ trailing
    ∧ forallb (is_char "/") trailing = true.
Proof.
  intros Hslug Hrest Htail.
  assert (Hfacts : free (is_char "/") slug = true ∧ free (is_char "?") slug = true
                   ∧ free (is_char "#") slug = true ∧ free (is_char ";") slug = true
                   ∧ free unsafe_url_byte slug = true).
  { repeat split; eapply free_of_forallb; try exact Hslug;
      intros c Hc; by destruct (slug_char_facts c Hc) as (? & ? & ? & ? & ?). }
  destruct Hfacts as (Hs1 & Hs2 & Hs3 & Hs4 & Hs5).
  (* the slash that may follow the slug belongs to the path *)
  assert (Hsplit : ∃ trailing tail, rest = trailing +:+ tail
                     ∧ forallb (is_char "/") trailing = true
                     ∧ free (is_char "?") trailing = true
                     ∧ free (is_char "#") trailing = true
                     ∧ free (is_char ";") trailing = true
                     ∧ stops (fun c => mem c "?#") tail = true).
  { unfold page_tail in Htail. destruct rest as [|c t].
    - by exists "", "".
    - destruct (Ascii.eqb_spec c "/") as [->|Hne].
      + by exists "/", t.
      + exists "", (String c t). split; [done|]. repeat split.
        destruct c as [[] [] [] [] [] [] [] []]; try done. }
  destruct Hsplit as (trailing & tail & -> & Htr & Htq & Hth & Hts & Htail').
  set (pth := "/products/" +:+ slug +:+ trailing).
  assert (Hpq : free (is_char "?") pth = true)
    by (subst pth; by rewrite !free_app, Hs2, Htq).
  assert (Hph : free (is_char "#") pth = true)
    by (subst pth; by rewrite !free_app, Hs3, Hth).
  assert (Hps : mem ";" pth = false).
  { apply negb_true_iff. rewrite <- mem_free. subst pth.
    by rewrite !free_app, Hs4, Hts. }
  set (x := "https://ggstore.com/products/" +:+ slug +:+ trailing +:+ tail).
  assert (Hx : x = "https" +:+ String ":" (String "/" (String "/"
                     ("ggstore.com" +:+ (pth +:+ tail))))).
  { subst x pth. by rewrite !app_assoc, ?app_cons, ?app_nil_l. }
  assert (Hclean : clean x = x).
  { apply clean_id; [|by rewrite Hx].
    subst x. rewrite !free_app in *. apply andb_true_iff in Hrest as [-> ->].
    by rewrite Hs5. }
  exists (mkParseResult "https" "ggstore.com" pth ""
            (snd (split_once "?" (fst (split_once "#" (pth +:+ tail)))))
            (snd (split_once "#" (pth +:+ tail)))), trailing.
  split; [|done].
  unfold urlparse, urlsplit. rewrite Hclean.
  replace (remove unsafe_url_byte (strip c0_control_or_space "")) with "" by done.
  rewrite Hx, (split_scheme_found "" "https" _ eq_refl).
  rewrite (split_netloc_built L "ggstore.com" (pth +:+ tail)); [|done|by subst pth].
  change (check_brackets L "ggstore.com") with (@Ok unit tt). cbn [rbind].
  pose proof (path_before_tail pth tail Hpq Hph Htail') as Hpath.
  destruct (split_once "#" (pth +:+ tail)) as [y3 frag]. cbn [fst snd] in *.
  destruct (split_once "?" y3) as [p qry]. cbn [fst snd] in *. subst p.
  change (_checknetloc L "ggstore.com") with (@Ok unit tt). cbn [rbind].
  cbn [scheme path]. by rewrite Hps, andb_false_r.
Qed.

(** X25.  The identifier of a product page is its slug: [_extract_product_id]
    returns the slug on [https://ggstore.com/products/] followed by the slug
    and a rest, for a non-empty slug without the delimiters [/ ? # ;] and a
    rest that is empty or starts - after one optional slash - with [?] or [#],
    neither holding a tab, a carriage return or a line feed. *)
Theorem product_url_identifier (slug rest : string) :
  slug ≠ "" →
  forallb slug_char slug = true →
  free unsafe_url_byte rest = true →
  page_tail rest = true →
  _extract_product_id L ("https://ggstore.com/products/" +:+ slug +:+ rest) = Ok slug.
Proof.
  intros Hne Hslug Hrest Htail.
  destruct (urlparse_product_url slug rest Hslug Hrest Htail)
    as (r & trailing & Hparse & Hpath & Htr).
  assert (Hfree : free (is_char "/") slug = true).
  { eapply free_of_forallb; [|exact Hslug].
    intros c Hc. by destruct (slug_char_facts c Hc) as (? & _). }
  unfold _extract_product_id. rewrite Hparse. cbn [rbind]. rewrite Hpath.
  assert (Hstrip : strip (Ascii.eqb "/") ("/products/" +:+ slug +:+ trailing)
                   = "products" +:+ String "/" slug).
  { unfold strip.
    change (lstrip (Ascii.eqb "/") ("/products/" +:+ slug +:+ trailing))
      with ("products/" +:+ (slug +:+ trailing)).
    rewrite (rstrip_app_keep (Ascii.eqb "/"));
      rewrite (rstrip_free_app (Ascii.eqb "/") slug trailing Hfree Htr); done. }
  cbv zeta. rewrite Hstrip.
  change "/"%string with (String "/" "").
  rewrite (split_char_app "/" "products" slug eq_refl), (split_char_free "/" slug Hfree).
  done.
Qed.

End Facts.

Lemma product_url_identifier_witness :
  forallb slug_char "hoodie-black" = true
  ∧ page_tail "?variant=123" = true
  ∧ _extract_product_id Sample.lib
      ("https://ggstore.com/products/" +:+ "hoodie-black" +:+ "?variant=123")
    = Ok "hoodie-black".
Proof.
  split; [reflexivity|]. split; [reflexivity|].
  apply product_url_identifier; [discriminate|reflexivity|reflexivity|reflexivity].
Defined.

End SlugFacts.

Module DedupFacts.
Import Dedup.

(** *** The loop that drops repeats *)







(** *** The groups *)






(** *** The merge *)



Global Instance by_name_trans : Transitive by_name.
Proof. intros a b c. unfold by_name. apply transitivity. Qed.

Global Instance by_name_total : Total by_name.
Proof. intros a b. unfold by_name. apply total, _. Qed.









End DedupFacts.

Module MainFacts.
Import Ledger Bookkeeping FormatFacts BookFacts Main.

(** *** What the ledger calls of a run leave alone *)

Section Frames.
Variable now_at : nat → datetime.
Variable uuid4_hex : nat → string.
Variable yaml_dump : StoreParserChecklist → string.

Lemma progress_frame (a b c d e f : option Z) (g : option string) (m : Manager) :
  let c' := checklist (snd (update_session_progress now_at yaml_dump a b c d e f g m)) in
  jobs c' = jobs (checklist m)
  ∧ errors c' = errors (checklist m)
  ∧ metadata_sync c' = metadata_sync (checklist m)
  ∧ cs_status <$> current_session c' = cs_status <$> current_session (checklist m)
  ∧ (products_discovered ∘ cs_progress <$> current_session c'
     = match a with
       | Some n => const n <$> current_session (checklist m)
       | None => products_discovered ∘ cs_progress <$> current_session (checklist m)
       end).
Proof.
  unfold update_session_progress, bind, get_checklist.
  destruct (current_session (checklist m)) as [s|] eqn:Hs; simpl; rewrite ?Hs.
  - by destruct a.
  - by destruct a.
Qed.

Lemma upsert_frame (id name url job : string) (status : JobStatus) (t d f : Z)
    (pr cat : option string) (m : Manager) :
  let c' := checklist (snd (add_or_update_product now_at yaml_dump id name url job
                              status t d f pr cat m)) in
  jobs c' = jobs (checklist m)
  ∧ errors c' = errors (checklist m)
  ∧ metadata_sync c' = metadata_sync (checklist m)
  ∧ current_session c' = current_session (checklist m).
Proof.
  unfold add_or_update_product, bind, get_checklist.
  destruct (_find_product id (checklist m)); simpl; [done|].
  by destruct cat as [x|]; [destruct (truthy (Some x))|].
Qed.

Lemma log_error_frame (job : string) (kind : ErrorType) (message : string)
    (pid url : option string) (m : Manager) :
  let r := log_error now_at yaml_dump job kind message pid url m in
  let c' := checklist (snd r) in
  jobs c' = jobs (checklist m)
  ∧ errors c' = errors (checklist m) ++ [fst r]
  ∧ metadata_sync c' = metadata_sync (checklist m)
  ∧ current_session c' = current_session (checklist m)
  ∧ err_job_id (fst r) = job ∧ err_type (fst r) = kind ∧ resolved (fst r) = false.
Proof. done. Qed.







End Frames.

(** *** The loop over the product URLs *)

Section Facts.
Variable L : PyLib.
Variable net : nat → string → Downloader.fetch_outcome.
Variable now_at : nat → datetime.
Variable parse_metadata : string → result CrawlResult.
Variable dump_metadata : CrawlResult → string.
Variable ledger_now_at : nat → datetime.
Variable uuid4_hex : nat → string.
Variable yaml_dump : StoreParserChecklist → string.
Variable launch : result unit.
Variable listing : Z → result (list (option string)).
Variable product_html : Z → string → result string.
Variable output_dir : string.
Variable metadata_file : string.
Variable headless : bool.
Variable delay_millis : Z.
Variable skip_existing : bool.

Abbreviation progress' := (progress ledger_now_at yaml_dump).
Abbreviation try_product' :=
  (try_product L net now_at dump_metadata ledger_now_at yaml_dump product_html
     output_dir metadata_file).
Abbreviation crawl_loop' :=
  (crawl_loop L net now_at dump_metadata ledger_now_at yaml_dump product_html
     output_dir metadata_file).
Abbreviation crawl_all' :=
  (crawl_all L net now_at parse_metadata dump_metadata ledger_now_at yaml_dump launch
     listing product_html output_dir metadata_file skip_existing).
Abbreviation prepare' :=
  (prepare now_at ledger_now_at uuid4_hex yaml_dump output_dir metadata_file headless
     delay_millis skip_existing).
Abbreviation run_crawler' :=
  (run_crawler L net now_at parse_metadata dump_metadata ledger_now_at uuid4_hex
     yaml_dump launch listing product_html output_dir metadata_file headless
     delay_millis skip_existing).
Abbreviation self := (downloader output_dir metadata_file).

Lemma advanced_refl (job : string) (ids : gset string) (st : Run) :
  advanced job ids 0 st st.
Proof.
  unfold advanced. split; [done|]. split; [done|]. split; [done|]. split; [done|].
  exists [], []. rewrite !app_nil_r. repeat split; try done; simpl; lia.
Qed.

Lemma advanced_trans (job : string) (ids : gset string) (k1 k2 : nat)
    (st st1 st2 : Run) :
  advanced job ids k1 st st1 → advanced job ids k2 st1 st2 →
  advanced job ids (k1 + k2) st st2.
Proof.
  intros (Hj1 & Hs1 & Hm1 & Ht1 & new1 & failed1 & Hp1 & Hn1 & He1 & Hf1 & Hk1 & Hc1)
         (Hj2 & Hs2 & Hm2 & Ht2 & new2 & failed2 & Hp2 & Hn2 & He2 & Hf2 & Hk2 & Hc2).
  unfold advanced. split; [congruence|]. split; [congruence|]. split; [congruence|].
  split; [tauto|].
  exists (new1 ++ new2), (failed1 ++ failed2).
  split; [by rewrite Hp2, Hp1, (assoc_L (++))|].
  split; [by apply Forall_app|].
  split; [by rewrite He2, He1, (assoc_L (++))|].
  split; [by apply Forall_app|].
  split; [lia|]. rewrite !length_app. lia.
Qed.

(** A call of [update_session_progress] is no step of the loop. *)
Lemma progress_advanced (job : string) (ids : gset string)
    (a b c d : option Z) (g : option string) (st : Run) :
  advanced job ids 0 st (progress' a b c d g st).
Proof.
  destruct (progress_frame ledger_now_at yaml_dump a b c d None None g
              (checklist_mgr st)) as (Hj & He & Hm & Hs & _).
  unfold advanced, progress. cbn [checklist_mgr crawl skipped_count set_mgr].
  split; [done|]. split; [done|]. split; [done|]. split; [done|].
  exists [], []. rewrite !app_nil_r. repeat split; try done; simpl; lia.
Qed.

(** A URL that is skipped. *)
Lemma skip_advanced (job : string) (ids : gset string) (url : string) (st : Run) :
  advanced job ids 1 st
    (progress' None None (Some (skipped_count st + 1)) None (Some url)
       (mkRun (checklist_mgr st) (world st) (crawl st) (skipped_count st + 1)
          (crawled_count st))).
Proof.
  eapply (advanced_trans job ids 1 0 st); [|apply progress_advanced].
  unfold advanced. cbn [checklist_mgr crawl skipped_count].
  split; [done|]. split; [done|]. split; [done|]. split; [done|].
  exists [], []. rewrite !app_nil_r. repeat split; try done; simpl; lia.
Qed.

(** The inner [try]: it ends with the product added, or with an exception
    and the ledger and the result as they were. *)
Lemma try_product_spec (job : string) (ids : gset string) (i : Z)
    (url product_id : string) (st : Run) :
  Parser._extract_product_id L url = Ok product_id →
  Downloader.skips ids product_id = false →
  match try_product' job i url st with
  | (None, st') => advanced job ids 1 st st'
  | (Some e, st') =>
      checklist_mgr st' = checklist_mgr st ∧ crawl st' = crawl st
      ∧ skipped_count st' = skipped_count st
  end.
Proof.
  intros Hid Hskip. unfold try_product.
  destruct (product_html i url) as [html|e]; [|done].
  unfold Parser.parse_product. rewrite Hid. cbn [rbind].
  destruct (Parser._extract_image_urls L Parser.default_base_url html)
    as [image_urls|e]; [|done].
  cbn [rbind Parser.id Parser.name Parser.url Parser.price Parser.category
       Parser.image_urls].
  destruct (Downloader.download_product_images _ _ _ _ _ _ _) as [[images|e] w];
    [|done].
  set (product := mkProduct _ _ _ _ _ _ _).
  set (m1 := snd (add_or_update_product _ _ _ _ _ _ _ _ _ _ _ _ _)).
  set (st1 := mkRun m1 _ _ _ _).
  set (st2 := progress' _ _ _ _ _ st1).
  assert (H1 : advanced job ids 1 st st1).
  { destruct (upsert_frame ledger_now_at yaml_dump product_id
                (Parser._extract_product_name html) url job COMPLETED
                (Z.of_nat (length image_urls)) (Z.of_nat (length images))
                (Z.of_nat (length image_urls) - Z.of_nat (length images))
                (Parser._extract_price L html) (Parser._extract_category html)
                (checklist_mgr st)) as (Hj & He & Hm & Hs).
    unfold advanced. subst st1. cbn [checklist_mgr crawl skipped_count].
    split; [exact Hj|]. split; [exact (f_equal (fmap cs_status) Hs)|].
    split; [exact Hm|].
    split; [intros _; split; reflexivity|].
    exists [product], []. rewrite app_nil_r.
    split; [done|]. split; [by apply Forall_singleton|]. split; [exact He|].
    split; [done|]. split; [lia|]. simpl. lia. }
  assert (H2 : advanced job ids 1 st st2).
  { apply (advanced_trans job ids 1 0 st st1 st2 H1). apply progress_advanced. }
  destruct (i mod 10 =? 0); exact H2.
Qed.

(** An exception of the inner [try] becomes an error entry. *)
Lemma failure_advanced (job : string) (ids : gset string) (message : string)
    (pid url : option string) (st st' : Run) :
  checklist_mgr st' = checklist_mgr st → crawl st' = crawl st →
  skipped_count st' = skipped_count st →
  advanced job ids 1 st
    (set_mgr (snd (log_error ledger_now_at yaml_dump job CRAWL_FAILED message pid url
                     (checklist_mgr st'))) st').
Proof.
  intros Hm Hc Hs.
  destruct (log_error_frame ledger_now_at yaml_dump job CRAWL_FAILED message pid url
              (checklist_mgr st')) as (Hj & He & Hms & Hcs & Hf).
  unfold advanced, set_mgr. cbn [checklist_mgr crawl skipped_count].
  rewrite Hm in *. rewrite Hc, Hs.
  split; [exact Hj|]. split; [exact (f_equal (fmap cs_status) Hcs)|].
  split; [exact Hms|]. split; [done|].
  exists [], [fst (log_error ledger_now_at yaml_dump job CRAWL_FAILED message pid url
                     (checklist_mgr st))].
  rewrite app_nil_r. split; [done|]. split; [done|]. split; [exact He|].
  split; [by apply Forall_singleton|]. split; [lia|]. simpl. lia.
Qed.

(** An exception that the inner [except] does not catch is no step. *)
Lemma advanced_same (job : string) (ids : gset string) (st st' : Run) :
  checklist_mgr st' = checklist_mgr st → crawl st' = crawl st →
  skipped_count st' = skipped_count st →
  advanced job ids 0 st st'.
Proof.
  intros Hm Hc Hs. unfold advanced. rewrite Hm, Hc, Hs.
  split; [done|]. split; [done|]. split; [done|]. split; [done|].
  exists [], []. rewrite !app_nil_r. repeat split; try done; simpl; lia.
Qed.

Lemma crawl_loop_spec (job : string) (ids : gset string) (product_urls : list string) :
  ∀ (i : Z) (st : Run),
    ∃ k, advanced job ids k st (snd (crawl_loop' job ids i product_urls st))
      ∧ (fst (crawl_loop' job ids i product_urls st) = None → k = length product_urls).
Proof.
  induction product_urls as [|url urls IH]; intros i st.
  { exists 0%nat. split; [apply advanced_refl|done]. }
  cbn [crawl_loop].
  destruct (Parser._extract_product_id L url) as [product_id|e] eqn:Hid.
  2:{ exists 0%nat. split; [apply advanced_refl|done]. }
  destruct (Downloader.skips ids product_id) eqn:Hskip.
  - set (st1 := progress' _ _ _ _ _ _).
    destruct (IH (i + 1) st1) as (k & Hk & Hlen).
    exists (1 + k)%nat. split.
    + apply (advanced_trans job ids 1 k st st1 _); [apply skip_advanced|exact Hk].
    + intros Hnone. simpl. f_equal. by apply Hlen.
  - pose proof (try_product_spec job ids i url product_id st Hid Hskip) as Htry.
    destruct (try_product' job i url st) as [[e|] st1].
    + destruct Htry as (Hm & Hc & Hs).
      destruct (is_exception e).
      2:{ exists 0%nat. split; [by apply advanced_same|done]. }
      set (st2 := set_mgr _ st1).
      destruct (IH (i + 1) st2) as (k & Hk & Hlen).
      exists (1 + k)%nat. split.
      * apply (advanced_trans job ids 1 k st st2 _); [|exact Hk].
        by apply failure_advanced.
      * intros Hnone. simpl. f_equal. by apply Hlen.
    + destruct (IH (i + 1) st1) as (k & Hk & Hlen).
      exists (1 + k)%nat. split.
      * by apply (advanced_trans job ids 1 k st st1 _).
      * intros Hnone. simpl. f_equal. by apply Hlen.
Qed.

(** *** Around the loop *)

Lemma existing_ids_world (w : Downloader.World) :
  snd (Downloader.existing_ids parse_metadata self skip_existing w) = w.
Proof.
  unfold Downloader.existing_ids, Downloader.get_downloaded_product_ids,
    Downloader.io_bind, Downloader.load_metadata, Downloader.io_bind,
    Downloader.path_exists, Downloader.io_ret.
  destruct skip_existing; [|done].
  destruct (Downloader.files w !! Pathlib.to_str (Downloader.metadata_file self))
    as [text|] eqn:Hfile; cbn [negb].
  - rewrite Hfile. destruct (parse_metadata text) as [r|e]; [done|].
    by destruct (is_exception e).
  - by destruct (Downloader.refused w _).
Qed.

Lemma existing_ids_ext (w w' : Downloader.World) :
  Downloader.files w' = Downloader.files w →
  Downloader.refused w' = Downloader.refused w →
  fst (Downloader.existing_ids parse_metadata self skip_existing w')
  = fst (Downloader.existing_ids parse_metadata self skip_existing w).
Proof.
  intros Hfiles Hrefused.
  unfold Downloader.existing_ids, Downloader.get_downloaded_product_ids,
    Downloader.io_bind, Downloader.load_metadata, Downloader.io_bind,
    Downloader.path_exists, Downloader.io_ret.
  destruct skip_existing; [|done]. rewrite Hfiles, Hrefused.
  destruct (Downloader.files w !! Pathlib.to_str (Downloader.metadata_file self))
    as [text|] eqn:Hfile; cbn [negb].
  - rewrite Hfiles, Hfile. destruct (parse_metadata text) as [r|e]; [done|].
    by destruct (is_exception e).
  - by destruct (Downloader.refused w _).
Qed.

Lemma pagination_stops :
  ∃ out pages, Crawler.get_product_urls listing true 50 = Some (out, pages).
Proof.
  destruct (CrawlerFacts.loop_from listing 49 0 0) as (n & _ & Hloop & _);
    [done|intros k Hk; lia|].
  eexists _, _. exact Hloop.
Qed.

Lemma crawl_all_spec (job : string) (st : Run) :
  ∃ oe st' ids k,
    crawl_all' job st = Some (oe, st')
    ∧ advanced job ids k st st'
    ∧ (oe = None →
       fst (Downloader.existing_ids parse_metadata self skip_existing (world st))
       = Ok ids
       ∧ ∃ urls pages,
           Crawler.get_product_urls listing true 50 = Some (Ok urls, pages)
           ∧ k = length urls
           ∧ Downloader.files (world st')
               !! Pathlib.to_str (Downloader.metadata_file self)
             = Some (dump_metadata (crawl st'))).
Proof.
  unfold crawl_all.
  pose proof (existing_ids_world (world st)) as Hworld.
  destruct (Downloader.existing_ids parse_metadata self skip_existing (world st))
    as [[ids|e] w0]; cbn [fst snd] in *; subst w0.
  2:{ exists (Some e), (set_world (world st) st), ∅, 0%nat. split; [done|].
      split; [by apply advanced_same|done]. }
  assert (Hsame : set_world (world st) st = st) by by destruct st.
  rewrite Hsame.
  destruct launch as [[]|e].
  2:{ exists (Some e), st, ids, 0%nat. split; [done|]. split; [apply advanced_refl|].
      done. }
  destruct pagination_stops as ([urls|e] & pages & Hurls); rewrite Hurls.
  2:{ exists (Some e), st, ids, 0%nat. split; [done|]. split; [apply advanced_refl|].
      done. }
  set (st1 := progress' _ _ _ _ _ st).
  destruct (crawl_loop_spec job ids urls 1 st1) as (k & Hk & Hlen).
  assert (H1 : advanced job ids k st (snd (crawl_loop' job ids 1 urls st1))).
  { apply (advanced_trans job ids 0 k st st1 _); [apply progress_advanced|exact Hk]. }
  destruct (crawl_loop' job ids 1 urls st1) as [[e|] st2]; cbn [fst snd] in *.
  - exists (Some e), st2, ids, k. split; [done|]. split; [exact H1|]. done.
  - eexists None, _, ids, k. split; [reflexivity|]. split.
    + destruct H1 as (Hj & Hs & Hm & Ht & Hrest).
      unfold advanced, set_world. cbn [checklist_mgr crawl skipped_count].
      split; [exact Hj|]. split; [exact Hs|]. split; [exact Hm|].
      split; [exact Ht|exact Hrest].
    + intros _. split; [done|]. exists urls, pages. split; [done|].
      split; [by apply Hlen|].
      unfold set_world, Downloader.save_metadata. cbn [world crawl snd Downloader.files].
      apply lookup_insert_eq.
Qed.







(** X30.  When [run_crawler] returns, the metadata file holds the result
    returned, and no product of that result has an identifier of the set that
    the run skips: with [skip_existing], the products that the metadata listed
    before the run are not in the metadata after it. *)
Theorem metadata_holds_this_run_only (m : Manager) (w : Downloader.World)
    (r : CrawlResult) (m' : Manager) (w' : Downloader.World) :
  run_crawler' m w = Some (Ok r, m', w') →
  ∃ ids,
    fst (Downloader.existing_ids parse_metadata self skip_existing w) = Ok ids
    ∧ Downloader.files w' !! Pathlib.to_str (Downloader.metadata_file self)
      = Some (dump_metadata r)
    ∧ ∀ p, p ∈ cr_products r → Downloader.skips ids (p_id p) = false.
Proof.
  intros Hrun. unfold run_crawler in Hrun.
  destruct (prepare' m w) as [job0 st0] eqn:Hprep.
  destruct (crawl_all_spec (job_id job0) st0)
    as (oe & st' & ids & k & Hall & Hadv & Hdone).
  rewrite Hall in Hrun. destruct oe as [e|]; [done|].
  injection Hrun as <- <- <-.
  destruct (Hdone eq_refl) as (Hids & urls & pages & _ & _ & Hfile).
  destruct Hadv as (_ & _ & _ & _ & new & failed & Hp & Hnew & _).
  exists ids. split.
  { assert (Hw : Downloader.files (world st0) = Downloader.files w
                 ∧ Downloader.refused (world st0) = Downloader.refused w)
      by (apply (f_equal snd) in Hprep; cbn [snd] in Hprep; by rewrite <- Hprep).
    by rewrite <- (existing_ids_ext w _ (proj1 Hw) (proj2 Hw)). }
  split; [exact Hfile|].
  intros p Hin. assert (Hnil : cr_products (crawl st0) = [])
    by (apply (f_equal snd) in Hprep; cbn [snd] in Hprep; by rewrite <- Hprep).
  rewrite Hp, Hnil in Hin. by apply (proj1 (Forall_forall _ _) Hnew).
Qed.

End Facts.


(** *** The theorems at work on a shop of two products *)



Lemma metadata_holds_this_run_only_witness :
  let r := Fixture.crawled Fixture.second_run in
  let w' := Fixture.world_after Fixture.second_run in
  Fixture.second_run = Some (Ok r, Fixture.ledger_after Fixture.second_run, w')
  ∧ Downloader.files Fixture.saved_world !! "data/metadata.json" = Some "classic-tee"
  ∧ Downloader.files w' !! "data/metadata.json" = Some "cap-red"
  ∧ ∃ ids,
      fst (Downloader.existing_ids Fixture.read_back
             (downloader "data/images" "data/metadata.json") true Fixture.saved_world)
      = Ok ids
      ∧ ∀ p, p ∈ cr_products r → Downloader.skips ids (p_id p) = false.
Proof.
  intros r w'.
  assert (H : Fixture.second_run
              = Some (Ok r, Fixture.ledger_after Fixture.second_run, w'))
    by (vm_compute; reflexivity).
  split; [exact H|]. split; [vm_compute; reflexivity|].
  split; [vm_compute; reflexivity|].
  destruct (metadata_holds_this_run_only Sample.lib Fixture.net_ok Sample.now_at
              Fixture.read_back Fixture.dump_ids Sample.now_at Sample.uuid4_hex
              Sample.yaml_dump (Ok tt) Fixture.listing (fun _ _ => Ok Sample.gallery)
              "data/images" "data/metadata.json" true 1500 true Sample.ledger
              Fixture.saved_world r (Fixture.ledger_after Fixture.second_run) w' H)
    as (ids & Hids & _ & Hskip).
  exists ids. split; [exact Hids|exact Hskip].
Defined.

End MainFacts.
